(** * ClearPath debt payoff engine (src/src/App.jsx): a shallow embedding

    The engine of App.jsx is embedded function by function: [clampNumber],
    [round2], [estimateMinimumPayment], [computeMonthlyMinimumDynamic],
    [computeScheduleMonthRequiredPayments], [simulateStrategy],
    [getPaymentPlanFn] and the derived values of the [App] component
    ([debtsWithMin], [activeDebts], [minimumsTotal], [reality]); then
    [keepBlankOrNumber], [pickWinner], the [simulation] and [monthDetails]
    memos, and the helpers that edit the debt list and the
    schedule ([removeDebt], also of DebtsForm.jsx, [removeScheduleMonth],
    [quickFillSchedule], [setAllocation], [fillMinimumsForMonth],
    [clearAllocationsForMonth]).

    - Numbers.  A JavaScript number is embedded as an exact rational ([Q]):
      the arithmetic of the source is kept operation by operation (including
      the [Number.EPSILON] nudge of [round2]), without the rounding error and
      the overflow of IEEE-754 doubles.  The theorems on every input are
      stated so as not to turn on that rounding (a lemma that does says so,
      as [balances_nonneg_exact]); where the rounding decides the outcome,
      the code is evaluated in the module [Binary64], which embeds the
      resolver and the simulator once more on binary64 numbers.  A value
      that is read
      through [Number(..)] is a [num]: [Some q] when [Number] of it is the
      finite number [q], [None] when it is [undefined] or [NaN].
    - Objects.  A debt is a record that carries every property the engine
      reads; an object used as a dictionary ([allocations],
      [requiredByDebtId], [paidThisMonthByDebtId], ..) is the list of its own
      properties in insertion order, keyed by strings, with [Object.entries]
      in the order of the language.  Such an object is an object literal: a
      read also finds what [Object.prototype] provides ([obj_or0]), and an
      assignment to [__proto__] is lost ([obj_assign]).  The [state] array
      that a run mutates in place is a list passed from step to step.
    - Loops.  The month loop recurses on the months left to [MAX_MONTHS]; the
      extra-targeting [while] loop runs on fuel, and [extraLoop_terminates]
      shows that the fuel is never what stops it. *)

From Stdlib Require Import ZArith QArith Qround Qminmax Lqa Lia.
From Stdlib Require Import List String Ascii Bool.
From Stdlib Require Import DecimalString DecimalN Qabs.
From Stdlib Require Import Floats.
Import ListNotations.

Set Warnings "-inexact-float".

Open Scope Q_scope.

(** ** Numbers *)

Definition num := option Q.

(** [clampNumber(v, fallback)]: [Number(v)] when finite, else the fallback. *)
Definition clampNumber (v : num) (fallback : Q) : Q :=
  match v with
  | Some n => n
  | None => fallback
  end.

Definition Number_EPSILON : Q := 1 # (2 ^ 52).

(** [Math.round]: the nearest integer, ties towards +infinity. *)
Definition Math_round (x : Q) : Z := Qfloor (x + (1 # 2)).

(** [round2(n) = Math.round((clampNumber(n, 0) + Number.EPSILON) * 100) / 100] *)
Definition round2 (n : Q) : Q := Math_round ((n + Number_EPSILON) * 100) # 100.

(** [round2] applied to a value that still has to go through [clampNumber]. *)
Definition round2v (v : num) : Q := round2 (clampNumber v 0).

Definition Math_max3 (a b c : Q) : Q := Qmax (Qmax a b) c.
Definition Math_min3 (a b c : Q) : Q := Qmin (Qmin a b) c.

(** The simulator's [0.000001]. *)
Definition EPS : Q := 1 # 1000000.

(** Comparisons of the source as booleans. *)
Definition Qleb (a b : Q) : bool := Qle_bool a b.
Definition Qltb (a b : Q) : bool := negb (Qle_bool b a).

(** An amount in whole cents. *)
Definition is_cents (q : Q) : Prop := exists z : Z, q == z # 100.

(** ** Debts *)

(** The [id] of a debt object: a number (the application numbers the debts
    it simulates by array index, [id: idx]), a string (the stored debts:
    ["d1"], [makeId]) or [undefined]. *)
Inductive DebtId : Type :=
| IdNum (n : N)
| IdStr (s : string)
| IdUndefined.

(** A debt object.  JavaScript objects are duck-typed: one record carries
    every property the engine reads from a debt; a property that an object
    does not have reads as [None] ([undefined]), [false] or the empty string. *)
Record Debt : Type := mkDebt {
  d_id : DebtId;
  d_name : option string;
  d_type : string;
  d_balance : num;
  d_interest_rate : num;
  d_min_override_enabled : bool;
  d_min_override_amount : num;
  d_estimated_minimum_payment : num;
  d_minimum_payment : num;
  d_min_floor_enabled : bool;
  d_min_floor : num
}.

(** ** Minimum payment estimator *)

Definition estimateMinimumPayment (debt : Debt) : Q :=
  let balance := Qmax 0 (clampNumber (d_balance debt) 0) in
  let apr := Qmax 0 (clampNumber (d_interest_rate debt) 0) in
  let r := (apr / 100) / 12 in
  let interestOnly := balance * r in
  let floor := 25 in
  if String.eqb (d_type debt) "credit_card" then
    let pctOfBalance := (2 # 100) * balance in
    let interestPlusPrincipal := interestOnly + (1 # 100) * balance in
    Math_max3 floor pctOfBalance interestPlusPrincipal
  else if String.eqb (d_type debt) "loc" then
    Qmax floor interestOnly
  else if String.eqb (d_type debt) "loan" then
    let principalPortion := balance / 36 in
    Qmax floor (interestOnly + principalPortion)
  else
    let pct := (15 # 1000) * balance in
    Math_max3 floor (interestOnly + (5 # 1000) * balance) pct.

(** [Math.max(est, debt.min_floor)] is [NaN] when [min_floor] is. *)
Definition computeMonthlyMinimumDynamic (debt : Debt) (currentBalance : Q) : num :=
  let est :=
    estimateMinimumPayment
      {| d_id := IdUndefined; d_name := None;
         d_type := d_type debt;
         d_balance := Some currentBalance;
         d_interest_rate := d_interest_rate debt;
         d_min_override_enabled := false; d_min_override_amount := None;
         d_estimated_minimum_payment := None; d_minimum_payment := None;
         d_min_floor_enabled := false; d_min_floor := None |} in
  if d_min_floor_enabled debt then
    match d_min_floor debt with
    | Some f => Some (Qmax est f)
    | None => None
    end
  else Some est.

(** ** Strings, [Number] of a string, property keys and objects *)

(** A string is the list of the bytes of its UTF-8 encoding. *)
Definition bytes (s : string) : list N := map N_of_ascii (list_ascii_of_string s).
Definition string_of_bytes (l : list N) : string :=
  string_of_list_ascii (map ascii_of_N l).

Definition isDigit (c : N) : bool := ((48 <=? c) && (c <=? 57))%N.

(** One code point of WhiteSpace or LineTerminator at the head of a string:
    TAB, LF, VT, FF, CR, SP, U+00A0, U+1680, U+2000..U+200A, U+2028, U+2029,
    U+202F, U+205F, U+3000 and U+FEFF. *)
Definition dropWhiteSpace (l : list N) : option (list N) :=
  match l with
  | c1 :: t1 =>
    if ((9 <=? c1) && (c1 <=? 13) || (c1 =? 32))%N then Some t1
    else
      match t1 with
      | c2 :: t2 =>
        if ((c1 =? 194) && (c2 =? 160))%N then Some t2
        else
          match t2 with
          | c3 :: t3 =>
            if ((c1 =? 225) && (c2 =? 154) && (c3 =? 128)
                || (c1 =? 226) && (c2 =? 128)
                   && ((128 <=? c3) && (c3 <=? 138) || (c3 =? 168) || (c3 =? 169)
                       || (c3 =? 175))
                || (c1 =? 226) && (c2 =? 129) && (c3 =? 159)
                || (c1 =? 227) && (c2 =? 128) && (c3 =? 128)
                || (c1 =? 239) && (c2 =? 187) && (c3 =? 191))%N
            then Some t3 else None
          | [] => None
          end
      | [] => None
      end
  | [] => None
  end.

(** The same code points read from the end of the reversed string. *)
Definition dropWhiteSpaceRev (l : list N) : option (list N) :=
  match l with
  | c1 :: t1 =>
    if ((9 <=? c1) && (c1 <=? 13) || (c1 =? 32))%N then Some t1
    else
      match t1 with
      | c2 :: t2 =>
        if ((c2 =? 194) && (c1 =? 160))%N then Some t2
        else
          match t2 with
          | c3 :: t3 =>
            match dropWhiteSpace [c3; c2; c1] with
            | Some [] => Some t3
            | _ => None
            end
          | [] => None
          end
      | [] => None
      end
  | [] => None
  end.

(** Dropping white space as long as there is some.  Each step removes at
    least one byte, so the length of the string is enough fuel
    ([trimBytes_exit]). *)
Fixpoint dropAll (drop : list N -> option (list N)) (fuel : nat) (l : list N) : list N :=
  match fuel with
  | O => l
  | S fuel' =>
    match drop l with
    | Some t => dropAll drop fuel' t
    | None => l
    end
  end.

(** [String.prototype.trim], also the StrWhiteSpace of StringToNumber. *)
Definition trimBytes (l : list N) : list N :=
  let l1 := dropAll dropWhiteSpace (List.length l) l in
  rev (dropAll dropWhiteSpaceRev (List.length l1) (rev l1)).

Definition trim (s : string) : string := string_of_bytes (trimBytes (bytes s)).

Fixpoint spanDigits (l : list N) : list N * list N :=
  match l with
  | c :: t =>
    if isDigit c then let (ds, rest) := spanDigits t in (c :: ds, rest)
    else ([], l)
  | [] => ([], [])
  end.

Definition digitsValue (ds : list N) : N :=
  fold_left (fun acc c => (acc * 10 + (c - 48))%N) ds 0%N.

(** The value of a digit in the given radix (2, 8 or 16), if it is one. *)
Definition radixDigit (radix c : N) : option N :=
  let v :=
    if isDigit c then Some (c - 48)%N
    else if ((97 <=? c) && (c <=? 102))%N then Some (c - 87)%N
    else if ((65 <=? c) && (c <=? 70))%N then Some (c - 55)%N
    else None in
  match v with
  | Some d => if (d <? radix)%N then Some d else None
  | None => None
  end.

Fixpoint radixValue (radix : N) (acc : N) (ds : list N) : option N :=
  match ds with
  | [] => Some acc
  | c :: t =>
    match radixDigit radix c with
    | Some d => radixValue radix (acc * radix + d)%N t
    | None => None
    end
  end.

(** A JavaScript number as [Number(..)] of a string returns it. *)
Inductive jsnum : Type :=
| JNum (q : Q)
| JNaN
| JInfinity (negative : bool).

Definition QofN (n : N) : Q := inject_Z (Z.of_N n).

(** ExponentPart_opt after the mantissa [m]. *)
Definition parseExponent (m : Q) (rest : list N) : jsnum :=
  match rest with
  | [] => JNum m
  | c :: rest' =>
    if ((c =? 101) || (c =? 69))%N then
      let '(neg, ds) :=
        match rest' with
        | s :: t =>
          if (s =? 43)%N then (false, t)
          else if (s =? 45)%N then (true, t)
          else (false, rest')
        | [] => (false, rest')
        end in
      match spanDigits ds with
      | ((_ :: _) as es, []) =>
        let e := Z.of_N (digitsValue es) in
        JNum (m * Qpower 10 (if neg then - e else e))
      | _ => JNaN
      end
    else JNaN
  end.

Definition Infinity_bytes : list N := bytes "Infinity".

Definition bytes_eqb (a b : list N) : bool :=
  if list_eq_dec N.eq_dec a b then true else false.

(** StrUnsignedDecimalLiteral *)
Definition parseUnsignedDecimal (l : list N) : jsnum :=
  if bytes_eqb l Infinity_bytes then JInfinity false
  else
    let (ip, rest1) := spanDigits l in
    match rest1 with
    | c :: rest2 =>
      if (c =? 46)%N then
        let (fp, rest3) := spanDigits rest2 in
        match ip, fp with
        | [], [] => JNaN
        | _, _ =>
          parseExponent
            (QofN (digitsValue (ip ++ fp)) / Qpower 10 (Z.of_nat (List.length fp))) rest3
        end
      else
        match ip with
        | [] => JNaN
        | _ => parseExponent (QofN (digitsValue ip)) rest1
        end
    | [] =>
      match ip with
      | [] => JNaN
      | _ => parseExponent (QofN (digitsValue ip)) rest1
      end
    end.

Definition jsnum_neg (x : jsnum) : jsnum :=
  match x with
  | JNum q => JNum (- q)
  | JNaN => JNaN
  | JInfinity b => JInfinity (negb b)
  end.

Definition parseRadix (radix : N) (ds : list N) : jsnum :=
  match ds with
  | [] => JNaN
  | _ =>
    match radixValue radix 0 ds with
    | Some v => JNum (QofN v)
    | None => JNaN
    end
  end.

(** StrNumericLiteral: 0x, 0o and 0b literals, or a signed decimal. *)
Definition parseNumeric (l : list N) : jsnum :=
  match l with
  | c1 :: c2 :: ds =>
    if ((c1 =? 48) && ((c2 =? 120) || (c2 =? 88)))%N then parseRadix 16 ds
    else if ((c1 =? 48) && ((c2 =? 111) || (c2 =? 79)))%N then parseRadix 8 ds
    else if ((c1 =? 48) && ((c2 =? 98) || (c2 =? 66)))%N then parseRadix 2 ds
    else if (c1 =? 43)%N then parseUnsignedDecimal (c2 :: ds)
    else if (c1 =? 45)%N then jsnum_neg (parseUnsignedDecimal (c2 :: ds))
    else parseUnsignedDecimal l
  | _ => parseUnsignedDecimal l
  end.

(** The least magnitude that the rounding to a double turns into
    [Infinity], 2^1024 - 2^970, and the largest that it turns into 0,
    2^-1075. *)
Definition overflowBound : Q := inject_Z (2 ^ 1024 - 2 ^ 970).
Definition underflowBound : Q := 1 # (2 ^ 1075).

(** StringToNumber rounds the value of the literal to a double.  Of that
    rounding the two ends are kept, the magnitudes that become [Infinity]
    and those that become 0; in between the value stays the exact one. *)
Definition jsnum_norm (x : jsnum) : jsnum :=
  match x with
  | JNum q =>
    if Qle_bool overflowBound (Qabs q) then JInfinity (negb (Qle_bool 0 q))
    else if Qle_bool (Qabs q) underflowBound then JNum 0
    else JNum (Qred q)
  | _ => x
  end.

(** [Number(s)] for a string [s] (StringToNumber): the empty or blank string
    is 0, a string that is no numeric literal is [NaN]. *)
Definition Number_of_string (s : string) : jsnum :=
  match trimBytes (bytes s) with
  | [] => JNum 0
  | l => jsnum_norm (parseNumeric l)
  end.

(** [String(n)] for a number id.  Ids are array indexes, where the decimal
    digits are what [Number.prototype.toString] prints. *)
Definition N_toString (n : N) : string := NilEmpty.string_of_uint (N.to_uint n).

(** The property key under which an object stores a value for a debt id. *)
Definition propertyKey (i : DebtId) : string :=
  match i with
  | IdNum n => N_toString n
  | IdStr s => s
  | IdUndefined => "undefined"
  end.

(** [x.id === v] for a number (or [NaN]) [v]: only a number id can be equal. *)
Definition id_strictEq_num (i : DebtId) (v : jsnum) : bool :=
  match i, v with
  | IdNum n, JNum q => Qeq_bool (QofN n) q
  | _, _ => false
  end.

Definition DebtId_eqb (a b : DebtId) : bool :=
  match a, b with
  | IdNum n, IdNum m => N.eqb n m
  | IdStr s, IdStr t => String.eqb s t
  | IdUndefined, IdUndefined => true
  | _, _ => false
  end.

(** A plain object used as a dictionary: its own properties in insertion
    order. *)
Definition jsobj (A : Type) : Type := list (string * A).

Fixpoint obj_get {A : Type} (o : jsobj A) (k : string) : option A :=
  match o with
  | [] => None
  | (k', v) :: o' => if String.eqb k' k then Some v else obj_get o' k
  end.

(** [o[k] = v] as the definition of an own property: an existing property
    keeps its place. *)
Fixpoint obj_set {A : Type} (o : jsobj A) (k : string) (v : A) : jsobj A :=
  match o with
  | [] => [(k, v)]
  | (k', v') :: o' =>
    if String.eqb k' k then (k', v) :: o' else (k', v') :: obj_set o' k v
  end.

(** The properties an object literal inherits from [Object.prototype]:
    eleven functions and the accessor [__proto__]. *)
Definition Object_prototype : list string :=
  ["constructor"; "__defineGetter__"; "__defineSetter__"; "hasOwnProperty";
   "__lookupGetter__"; "__lookupSetter__"; "isPrototypeOf"; "propertyIsEnumerable";
   "toString"; "valueOf"; "__proto__"; "toLocaleString"]%string.

Definition inherited (k : string) : bool := existsb (String.eqb k) Object_prototype.

(** [o[k] = v] for a number [v] on an object literal.  The setter of
    [__proto__] ignores a value that is no object: unless [o] has an own
    property of that name, the assignment leaves [o] as it is. *)
Definition obj_assign {A : Type} (o : jsobj A) (k : string) (v : A) : jsobj A :=
  match obj_get o k with
  | Some _ => obj_set o k v
  | None => if String.eqb k "__proto__" then o else obj_set o k v
  end.

(** A key that is an array index: the canonical decimal form of an integer
    below 2^32 - 1. *)
Definition arrayIndex (k : string) : option N :=
  match spanDigits (bytes k) with
  | ((_ :: _) as ds, []) =>
    let n := digitsValue ds in
    if (String.eqb (N_toString n) k && (n <? 2 ^ 32 - 1)%N)%bool then Some n else None
  | _ => None
  end.

Fixpoint insertIndexed {A : Type} (x : N * (string * A)) (l : list (N * (string * A)))
  : list (N * (string * A)) :=
  match l with
  | [] => [x]
  | y :: l' => if (fst x <=? fst y)%N then x :: l else y :: insertIndexed x l'
  end.

Definition indexedEntries {A : Type} (o : jsobj A) : list (N * (string * A)) :=
  flat_map (fun e => match arrayIndex (fst e) with
                     | Some n => [(n, e)]
                     | None => []
                     end) o.

(** [Object.entries(o)]: the array-index keys in ascending numeric order,
    then the other keys in insertion order. *)
Definition Object_entries {A : Type} (o : jsobj A) : list (string * A) :=
  map snd (fold_right insertIndexed [] (indexedEntries o))
  ++ filter (fun e => match arrayIndex (fst e) with
                      | Some _ => false
                      | None => true
                      end) o.

(** [Array.prototype.sort(cmp)].  The sort is stable and, for a comparator
    that is a consistent ordering, returns the one stable sorted order, which
    insertion from the right computes. *)
Fixpoint sort_insert {A : Type} (cmp : A -> A -> Q) (x : A) (l : list A) : list A :=
  match l with
  | [] => [x]
  | y :: l' => if Qleb (cmp x y) 0 then x :: l else y :: sort_insert cmp x l'
  end.

Definition Array_sort {A : Type} (cmp : A -> A -> Q) (l : list A) : list A :=
  fold_right (sort_insert cmp) [] l.

(** [a || b] on numbers: [a] unless it is zero. *)
Definition num_or (a b : Q) : Q := if Qeq_bool a 0 then b else a.

(** ** Schedule requirement resolver *)

Record ScheduleRow : Type := mkRow {
  row_month : num;
  row_amount : num;
  row_allocations : jsobj Q       (* [row.allocations || {}] *)
}.

Record RequiredInfo : Type := mkRequiredInfo {
  ri_requiredByDebtId : jsobj Q;
  ri_requiredSum : Q;
  ri_overBudget : bool;
  ri_unassigned : Q
}.

(** The [for (const d of debts)] loop of the resolver. *)
Fixpoint requiredLoop (alloc : jsobj Q) (debts : list Debt)
    (requiredByDebtId : jsobj Q) (requiredSum : Q) : jsobj Q * Q :=
  match debts with
  | [] => (requiredByDebtId, requiredSum)
  | d :: rest =>
    let bal := Qmax 0 (clampNumber (d_balance d) 0) in
    if Qleb bal 0 then requiredLoop alloc rest requiredByDebtId requiredSum
    else
      let min := Qmax 0 (clampNumber (d_minimum_payment d) 0) in
      let user := Qmax 0 (clampNumber (obj_get alloc (propertyKey (d_id d))) 0) in
      let required := round2 (Qmax min user) in
      requiredLoop alloc rest
        (obj_assign requiredByDebtId (propertyKey (d_id d)) required)
        (round2 (requiredSum + required))
  end.

Definition computeScheduleMonthRequiredPayments (debts : list Debt)
    (scheduleRow : option ScheduleRow) (monthlyPayment : num) : RequiredInfo :=
  let mPay := Qmax 0 (round2 (clampNumber monthlyPayment 0)) in
  let alloc := match scheduleRow with
               | Some row => row_allocations row
               | None => []
               end in
  let '(requiredByDebtId, requiredSum) := requiredLoop alloc debts [] 0 in
  let overBudget := Qltb EPS (requiredSum - mPay) in
  let unassigned := round2 (Qmax 0 (mPay - requiredSum)) in
  mkRequiredInfo requiredByDebtId requiredSum overBudget unassigned.

(** ** Strategy simulator *)

(** What [paymentPlanFn(month)] returns. *)
Record Plan : Type := mkPlan {
  p_monthlyPayment : num;
  p_requiredByDebtId : option (jsobj Q);
  p_requiredSum : option Q;
  p_overBudget : bool;
  p_unassigned : option Q
}.

(** One element of the simulator's [state] array. *)
Record SimDebt : Type := mkSimDebt {
  s_id : DebtId;
  s_name : option string;
  s_type : string;
  s_apr : Q;
  s_r : Q;
  s_balance : Q;
  s_interestPaid : Q;
  s_payoffMonth : option nat;
  s_min_floor_enabled : bool;
  s_min_floor : Q
}.

Definition set_balance (d : SimDebt) (b : Q) : SimDebt :=
  mkSimDebt (s_id d) (s_name d) (s_type d) (s_apr d) (s_r d) b (s_interestPaid d)
            (s_payoffMonth d) (s_min_floor_enabled d) (s_min_floor d).

Definition set_interestPaid (d : SimDebt) (i : Q) : SimDebt :=
  mkSimDebt (s_id d) (s_name d) (s_type d) (s_apr d) (s_r d) (s_balance d) i
            (s_payoffMonth d) (s_min_floor_enabled d) (s_min_floor d).

Definition set_payoffMonth (d : SimDebt) (m : option nat) : SimDebt :=
  mkSimDebt (s_id d) (s_name d) (s_type d) (s_apr d) (s_r d) (s_balance d)
            (s_interestPaid d) m (s_min_floor_enabled d) (s_min_floor d).

(** [if (d.balance <= 0.000001 && d.payoffMonth == null) d.payoffMonth = month] *)
Definition recordPayoff (month : nat) (d : SimDebt) : SimDebt :=
  if Qleb (s_balance d) EPS then
    match s_payoffMonth d with
    | None => set_payoffMonth d (Some month)
    | Some _ => d
    end
  else d.

Record TimelineEntry : Type := mkEntry {
  e_month : nat;
  e_paymentThisMonth : Q;
  e_requiredSum : Q;
  e_unassigned : Q;
  e_interestThisMonth : Q;
  e_totalInterestToDate : Q;
  e_minPaid : Q;
  e_directedPaid : Q;
  e_extraPaid : Q;
  e_totalRemaining : Q;
  e_targetDebtId : option jsnum;          (* [null], or what [Number(idStr)] gave *)
  e_targetDebtName : option string;
  e_appliedToTargetThisMonth : Q;
  e_extraByDebtId : jsobj Q;
  e_invalid : bool
}.
(* [extraAppliedToTarget], the look-up of [extraByDebtId] under the printed
   form of [targetDebtId], is the one field of the entry left out: nothing
   below depends on it. *)

Definition initState (debts : list Debt) : list SimDebt :=
  map (fun d =>
         {| s_id := d_id d;
            s_name := d_name d;
            s_type := d_type d;
            s_apr := Qmax 0 (clampNumber (d_interest_rate d) 0);
            s_r := (Qmax 0 (clampNumber (d_interest_rate d) 0) / 100) / 12;
            s_balance := round2 (Qmax 0 (clampNumber (d_balance d) 0));
            s_interestPaid := 0;
            s_payoffMonth := None;
            s_min_floor_enabled := d_min_floor_enabled d;
            s_min_floor := round2 (Qmax 0 (clampNumber (d_min_floor d) 0)) |})
      debts.

Definition allPaid (state : list SimDebt) : bool :=
  forallb (fun d => Qleb (s_balance d) EPS) state.

Definition isActive (d : SimDebt) : bool := Qltb EPS (s_balance d).

(** The two comparators of [pickTargetId]. *)
Definition cmpSnowball (a b : SimDebt) : Q :=
  num_or (s_balance a - s_balance b) (s_apr b - s_apr a).
Definition cmpAvalanche (a b : SimDebt) : Q :=
  num_or (s_apr b - s_apr a) (s_balance a - s_balance b).

(** [active[0]?.id ?? null] *)
Definition pickTargetId (strategy : string) (state : list SimDebt) : option DebtId :=
  let active := filter isActive state in
  match active with
  | [] => None
  | _ =>
    let sorted :=
      if String.eqb strategy "snowball" then Array_sort cmpSnowball active
      else Array_sort cmpAvalanche active in
    match sorted with
    | d :: _ =>
      match s_id d with
      | IdUndefined => None
      | i => Some i
      end
    | [] => None
    end
  end.

(** 1) accrue interest *)
Fixpoint accrueInterest (state : list SimDebt) (interestThisMonthTotal : Q)
  : list SimDebt * Q :=
  match state with
  | [] => ([], interestThisMonthTotal)
  | d :: rest =>
    if Qleb (s_balance d) EPS then
      let (rest', total) := accrueInterest rest interestThisMonthTotal in
      (d :: rest', total)
    else
      let interest := round2 (s_balance d * s_r d) in
      let d' := set_interestPaid (set_balance d (round2 (s_balance d + interest)))
                                 (round2 (s_interestPaid d + interest)) in
      let (rest', total) := accrueInterest rest (round2 (interestThisMonthTotal + interest)) in
      (d' :: rest', total)
  end.

Definition dynamicMinOf (d : SimDebt) : Q :=
  round2v
    (computeMonthlyMinimumDynamic
       {| d_id := IdUndefined; d_name := None;
          d_type := s_type d;
          d_balance := None;
          d_interest_rate := Some (s_apr d);
          d_min_override_enabled := false; d_min_override_amount := None;
          d_estimated_minimum_payment := None; d_minimum_payment := None;
          d_min_floor_enabled := s_min_floor_enabled d;
          d_min_floor := Some (s_min_floor d) |}
       (s_balance d)).

(** 2) compute dynamic minimums for this month (after interest) *)
Fixpoint dynamicMinimums (state : list SimDebt) (dynamicMinByDebtId : jsobj Q) : jsobj Q :=
  match state with
  | [] => dynamicMinByDebtId
  | d :: rest =>
    if Qleb (s_balance d) EPS then dynamicMinimums rest dynamicMinByDebtId
    else dynamicMinimums rest
           (obj_assign dynamicMinByDebtId (propertyKey (s_id d)) (dynamicMinOf d))
  end.

(** The variables the required-payment loop updates. *)
Record PayAcc : Type := mkPayAcc {
  a_remaining : Q;
  a_minPaidTotal : Q;
  a_directedPaidTotal : Q;
  a_requiredSumThisMonth : Q;
  a_paidThisMonthByDebtId : jsobj Q
}.

(** The own property [k] of [o], 0 when it has none. *)
Definition obj_get0 (o : jsobj Q) (k : string) : Q :=
  match obj_get o k with
  | Some v => v
  | None => 0
  end.

(** [o[k] || 0] on an object literal whose own properties are numbers: the
    own property; else, under a name of [Object.prototype], the inherited
    function or object, which is no number ([None]); else 0. *)
Definition obj_or0 (o : jsobj Q) (k : string) : num :=
  match obj_get o k with
  | Some v => Some v
  | None => if inherited k then None else Some 0
  end.

(** [round2((o[k] || 0) + pay)].  With an inherited function or object for
    [o[k]] the sum is a string, of which [Number] is [NaN]. *)
Definition addTo (o : jsobj Q) (k : string) (pay : Q) : Q :=
  round2v (match obj_or0 o k with
           | Some v => Some (v + pay)
           | None => None
           end).

(** 3) pay required (schedule allocations, with mins enforced) or minimums.
    [dynamicMinByDebtId[d.id] || 0] is no number when the month's minimum
    could not be stored ([obj_assign]) and the name is inherited: then
    [intended] is no number either, [requiredSumThisMonth + intended] is
    [NaN] or a string, of which [round2] makes 0, and [pay] is
    [round2(NaN)], 0. *)
Fixpoint payRequired (month : nat) (requiredByDebtId : option (jsobj Q))
    (dynamicMinByDebtId : jsobj Q) (state : list SimDebt) (acc : PayAcc)
  : list SimDebt * PayAcc :=
  match state with
  | [] => ([], acc)
  | d :: rest =>
    if Qleb (s_balance d) EPS then
      let (rest', acc') :=
        payRequired month requiredByDebtId dynamicMinByDebtId rest acc in
      (d :: rest', acc')
    else
      let key := propertyKey (s_id d) in
      match obj_or0 dynamicMinByDebtId key with
      | None =>
        let (rest', acc') :=
          payRequired month requiredByDebtId dynamicMinByDebtId rest
            (mkPayAcc (a_remaining acc) (a_minPaidTotal acc) (a_directedPaidTotal acc)
                      (round2v None) (a_paidThisMonthByDebtId acc)) in
        (d :: rest', acc')
      | Some dynamicMin =>
        let alloc := match requiredByDebtId with
                     | Some rb => Qmax 0 (clampNumber (obj_get rb key) 0)
                     | None => 0
                     end in
        let intended := match requiredByDebtId with
                        | Some _ => Qmax alloc dynamicMin
                        | None => dynamicMin
                        end in
        let requiredSum' := round2 (a_requiredSumThisMonth acc + intended) in
        let pay := round2 (Math_min3 intended (s_balance d) (a_remaining acc)) in
        if Qltb 0 pay then
          let paid' := obj_assign (a_paidThisMonthByDebtId acc) key
                         (addTo (a_paidThisMonthByDebtId acc) key pay) in
          let minPortion := Qmin dynamicMin pay in
          let minPaid' := round2 (a_minPaidTotal acc + minPortion) in
          let directed' := match requiredByDebtId with
                           | Some _ => round2 (a_directedPaidTotal acc + pay)
                           | None => a_directedPaidTotal acc
                           end in
          let d' := recordPayoff month (set_balance d (round2 (s_balance d - pay))) in
          let remaining' := round2 (a_remaining acc - pay) in
          let (rest', acc') :=
            payRequired month requiredByDebtId dynamicMinByDebtId rest
              (mkPayAcc remaining' minPaid' directed' requiredSum' paid') in
          (d' :: rest', acc')
        else
          let (rest', acc') :=
            payRequired month requiredByDebtId dynamicMinByDebtId rest
              (mkPayAcc (a_remaining acc) (a_minPaidTotal acc) (a_directedPaidTotal acc)
                        requiredSum' (a_paidThisMonthByDebtId acc)) in
          (d :: rest', acc')
      end
  end.

(** Mutating the object that [state.find] returned: the first element that
    satisfies the predicate is replaced. *)
Fixpoint updateFirst (p : SimDebt -> bool) (f : SimDebt -> SimDebt)
    (state : list SimDebt) : list SimDebt :=
  match state with
  | [] => []
  | d :: rest => if p d then f d :: rest else d :: updateFirst p f rest
  end.

(** The variables the extra-targeting loop updates. *)
Record ExtraState : Type := mkExtra {
  x_state : list SimDebt;
  x_remaining : Q;
  x_extraPaidTotal : Q;
  x_extraByDebtId : jsobj Q;
  x_paidThisMonthByDebtId : jsobj Q
}.

(** One pass through the body of [while (remaining > 0.000001 && !allPaid())]:
    [None] when the loop is left (condition false, or one of its [break]s). *)
Definition extraStep (strategy : string) (month : nat) (x : ExtraState)
  : option ExtraState :=
  if (Qltb EPS (x_remaining x) && negb (allPaid (x_state x)))%bool then
    match pickTargetId strategy (x_state x) with
    | None => None
    | Some targetId =>
      match find (fun d => DebtId_eqb (s_id d) targetId) (x_state x) with
      | None => None
      | Some t =>
        if Qleb (s_balance t) EPS then None
        else
          let pay := round2 (Qmin (s_balance t) (x_remaining x)) in
          if Qleb pay 0 then None
          else
            let key := propertyKey targetId in
            Some
              {| x_state :=
                   updateFirst (fun d => DebtId_eqb (s_id d) targetId)
                     (fun d => recordPayoff month
                                 (set_balance d (round2 (s_balance d - pay))))
                     (x_state x);
                 x_remaining := round2 (x_remaining x - pay);
                 x_extraPaidTotal := round2 (x_extraPaidTotal x + pay);
                 x_extraByDebtId :=
                   obj_assign (x_extraByDebtId x) key (addTo (x_extraByDebtId x) key pay);
                 x_paidThisMonthByDebtId :=
                   obj_assign (x_paidThisMonthByDebtId x) key
                              (addTo (x_paidThisMonthByDebtId x) key pay) |}
      end
    end
  else None.

(** 4) extra targeting.  The loop is run with fuel; [extraLoop_terminates]
    below shows that one more pass than there are debts always reaches the
    exit of the loop. *)
Fixpoint extraLoop (strategy : string) (month : nat) (fuel : nat) (x : ExtraState)
  : ExtraState :=
  match fuel with
  | O => x
  | S fuel' =>
    match extraStep strategy month x with
    | Some x' => extraLoop strategy month fuel' x'
    | None => x
    end
  end.

(** The debt that received the most this month: the loop over
    [Object.entries(paidThisMonthByDebtId)]. *)
Definition actualTarget (paidThisMonthByDebtId : jsobj Q) : option jsnum * Q :=
  fold_left
    (fun acc e =>
       if Qltb (snd acc) (snd e) then (Some (Number_of_string (fst e)), snd e)
       else acc)
    (Object_entries paidThisMonthByDebtId) (None, 0).

Definition totalRemainingOf (state : list SimDebt) : Q :=
  round2 (fold_left (fun sum d => sum + Qmax 0 (s_balance d)) state 0).

(** [plan?.monthlyPayment] clamped and rounded. *)
Definition paymentOf (plan : option Plan) : Q :=
  Qmax 0 (round2 (clampNumber (match plan with
                               | Some p => p_monthlyPayment p
                               | None => None
                               end) 0)).

Definition planOverBudget (plan : option Plan) : bool :=
  match plan with
  | Some p => p_overBudget p
  | None => false
  end.

(** The entry pushed by the over-budget branch. *)
Definition invalidEntry (month : nat) (plan : option Plan) (state : list SimDebt)
    (totalInterest : Q) : TimelineEntry :=
  {| e_month := month;
     e_paymentThisMonth := paymentOf plan;
     e_requiredSum := round2 (match plan with
                              | Some p => clampNumber (p_requiredSum p) 0
                              | None => 0
                              end);
     e_unassigned := round2 (match plan with
                             | Some p => clampNumber (p_unassigned p) 0
                             | None => 0
                             end);
     e_interestThisMonth := 0;
     e_totalInterestToDate := totalInterest;
     e_minPaid := 0;
     e_directedPaid := 0;
     e_extraPaid := 0;
     e_totalRemaining := totalRemainingOf state;
     e_targetDebtId := None;
     e_targetDebtName := None;
     e_appliedToTargetThisMonth := 0;
     e_extraByDebtId := [];
     e_invalid := true |}.

(** Steps 1) to 3) of a month that is not over budget. *)
Definition monthRequired (month : nat) (plan : option Plan) (state : list SimDebt)
  : list SimDebt * Q * PayAcc :=
  let paymentThisMonth := paymentOf plan in
  let (state1, interestThisMonthTotal) := accrueInterest state 0 in
  let dynamicMinByDebtId := dynamicMinimums state1 [] in
  let requiredByDebtId := match plan with
                          | Some p => p_requiredByDebtId p
                          | None => None
                          end in
  let (state2, acc) :=
    payRequired month requiredByDebtId dynamicMinByDebtId state1
      (mkPayAcc (round2 paymentThisMonth) 0 0 0 []) in
  (state2, interestThisMonthTotal, acc).

(** Step 4) after them. *)
Definition monthPayments (strategy : string) (month : nat) (plan : option Plan)
    (state : list SimDebt) : ExtraState * Q * PayAcc :=
  let '(state2, interestThisMonthTotal, acc) := monthRequired month plan state in
  (extraLoop strategy month (S (List.length state2))
     (mkExtra state2 (a_remaining acc) 0 [] (a_paidThisMonthByDebtId acc)),
   interestThisMonthTotal, acc).

(** The body of the month loop below the over-budget branch: the new state,
    the new [totalInterest] and the entry pushed on the timeline. *)
Definition simulateMonth (strategy : string) (month : nat) (plan : option Plan)
    (state : list SimDebt) (totalInterest : Q) : list SimDebt * Q * TimelineEntry :=
  let paymentThisMonth := paymentOf plan in
  let '(x, interestThisMonthTotal, acc) := monthPayments strategy month plan state in
  let totalInterest' := round2 (totalInterest + interestThisMonthTotal) in
  let unassignedThisMonth :=
    round2 (Qmax 0 (paymentThisMonth - a_requiredSumThisMonth acc)) in
  let (actualTargetId, actualTargetPaid) := actualTarget (x_paidThisMonthByDebtId x) in
  let actualTargetDebt :=
    match actualTargetId with
    | Some v => find (fun d => id_strictEq_num (s_id d) v) (x_state x)
    | None => None
    end in
  (x_state x, totalInterest',
   {| e_month := month;
      e_paymentThisMonth := paymentThisMonth;
      e_requiredSum := a_requiredSumThisMonth acc;
      e_unassigned := unassignedThisMonth;
      e_interestThisMonth := interestThisMonthTotal;
      e_totalInterestToDate := totalInterest';
      e_minPaid := a_minPaidTotal acc;
      e_directedPaid := a_directedPaidTotal acc;
      e_extraPaid := x_extraPaidTotal x;
      e_totalRemaining := totalRemainingOf (x_state x);
      e_targetDebtId := actualTargetId;
      e_targetDebtName := match actualTargetDebt with
                          | Some d => s_name d
                          | None => None
                          end;
      e_appliedToTargetThisMonth := round2 actualTargetPaid;
      e_extraByDebtId := x_extraByDebtId x;
      e_invalid := false |}).

Definition MAX_MONTHS : nat := 600.

(** [for (let month = 1; month <= MAX_MONTHS; month++)], entered at [month]
    with [monthsLeft = MAX_MONTHS - month + 1] iterations to go. *)
Fixpoint simLoop (strategy : string) (paymentPlanFn : nat -> option Plan)
    (monthsLeft : nat) (month : nat) (state : list SimDebt) (totalInterest : Q)
    (timeline : list TimelineEntry) : list SimDebt * Q * list TimelineEntry :=
  match monthsLeft with
  | O => (state, totalInterest, timeline)
  | S monthsLeft' =>
    if allPaid state then (state, totalInterest, timeline)
    else
      let plan := paymentPlanFn month in
      if planOverBudget plan then
        (state, totalInterest, timeline ++ [invalidEntry month plan state totalInterest])
      else
        let '(state', totalInterest', entry) :=
          simulateMonth strategy month plan state totalInterest in
        simLoop strategy paymentPlanFn monthsLeft' (S month) state' totalInterest'
                (timeline ++ [entry])
  end.

Record PerDebt : Type := mkPerDebt {
  pd_id : DebtId;
  pd_name : option string;
  pd_apr : Q;
  pd_payoffMonth : nat;
  pd_interestPaid : Q
}.

Record StrategyResult : Type := mkResult {
  r_strategy : string;
  r_monthsToDebtFree : nat;
  r_totalInterest : Q;
  r_timeline : list TimelineEntry;
  r_perDebt : list PerDebt
}.

(** The state, [totalInterest] and [timeline] when the month loop is left. *)
Definition runMonths (strategy : string) (debts : list Debt)
    (paymentPlanFn : nat -> option Plan) : list SimDebt * Q * list TimelineEntry :=
  simLoop strategy paymentPlanFn MAX_MONTHS 1 (initState debts) 0 [].

Definition simulateStrategy (strategy : string) (debts : list Debt)
    (paymentPlanFn : nat -> option Plan) : StrategyResult :=
  let '(state, totalInterest, timeline) := runMonths strategy debts paymentPlanFn in
  let monthsToDebtFree :=
    if allPaid state then List.length timeline else MAX_MONTHS in
  {| r_strategy := strategy;
     r_monthsToDebtFree := monthsToDebtFree;
     r_totalInterest := totalInterest;
     r_timeline := timeline;
     r_perDebt :=
       map (fun d =>
              {| pd_id := s_id d;
                 pd_name := s_name d;
                 pd_apr := s_apr d;
                 pd_payoffMonth := match s_payoffMonth d with
                                   | Some m => m
                                   | None => monthsToDebtFree
                                   end;
                 pd_interestPaid := s_interestPaid d |})
           state |}.

(** ** Payment plan provider *)

(** A row as [getPaymentPlanFn] normalises it into its [Map]. *)
Record PlanRow : Type := mkPlanRow {
  pr_month : Z;
  pr_amount : Q;
  pr_allocations : jsobj Q
}.

(** [map.set(m, row)]: a [Map] keeps one entry per key. *)
Fixpoint Map_set (map : list (Z * PlanRow)) (m : Z) (row : PlanRow) : list (Z * PlanRow) :=
  match map with
  | [] => [(m, row)]
  | (k, v) :: map' => if Z.eqb k m then (k, row) :: map' else (k, v) :: Map_set map' m row
  end.

Fixpoint Map_get (map : list (Z * PlanRow)) (m : Z) : option PlanRow :=
  match map with
  | [] => None
  | (k, v) :: map' => if Z.eqb k m then Some v else Map_get map' m
  end.

Definition normaliseRows (scheduleRows : list ScheduleRow) : list (Z * PlanRow) :=
  fold_left
    (fun map row =>
       let m := Z.max 1 (Qfloor (clampNumber (row_month row) 0)) in
       Map_set map m
         {| pr_month := m;
            pr_amount := Qmax 0 (round2 (clampNumber (row_amount row) 0));
            pr_allocations := row_allocations row |})
    scheduleRows [].

Definition scheduleRowOf (row : PlanRow) : ScheduleRow :=
  {| row_month := Some (inject_Z (pr_month row));
     row_amount := Some (pr_amount row);
     row_allocations := pr_allocations row |}.

(** [paymentMode !== "schedule"] selects the fixed branch. *)
Definition getPaymentPlanFn (paymentMode : string) (monthlyPayment : num)
    (scheduleRows : list ScheduleRow) (debtsWithMin : list Debt)
  : nat -> option Plan :=
  let fixed := Qmax 0 (round2v monthlyPayment) in
  if negb (String.eqb paymentMode "schedule") then
    fun month =>
      Some {| p_monthlyPayment := Some fixed;
              p_requiredByDebtId := None;
              p_requiredSum := None;
              p_overBudget := false;
              p_unassigned := None |}
  else
    let map := normaliseRows scheduleRows in
    let maxMonth := fold_left Z.max (List.map fst map) 0%Z in
    let lastRow :=
      if Z.eqb maxMonth 0 then mkPlanRow 1 fixed []
      else match Map_get map maxMonth with
           | Some row => row
           | None => mkPlanRow 1 fixed []
           end in
    fun month =>
      let row := match Map_get map (Z.of_nat month) with
                 | Some row => row
                 | None => lastRow
                 end in
      let info :=
        computeScheduleMonthRequiredPayments debtsWithMin (Some (scheduleRowOf row))
                                             (Some (pr_amount row)) in
      Some {| p_monthlyPayment := Some (pr_amount row);
              p_requiredByDebtId := Some (ri_requiredByDebtId info);
              p_requiredSum := Some (ri_requiredSum info);
              p_overBudget := ri_overBudget info;
              p_unassigned := Some (ri_unassigned info) |}.

(** ** Derived values of the [App] component *)

(** [debtsWithMin]: every debt with its estimate and its chosen minimum. *)
Definition debtWithMin (d : Debt) : Debt :=
  let est := estimateMinimumPayment d in
  let overrideEnabled := d_min_override_enabled d in
  let overrideAmount := Qmax 0 (clampNumber (d_min_override_amount d) 0) in
  let chosenMin := if overrideEnabled then overrideAmount else est in
  {| d_id := d_id d; d_name := d_name d; d_type := d_type d;
     d_balance := d_balance d; d_interest_rate := d_interest_rate d;
     d_min_override_enabled := d_min_override_enabled d;
     d_min_override_amount := d_min_override_amount d;
     d_estimated_minimum_payment := Some est;
     d_minimum_payment := Some chosenMin;
     d_min_floor_enabled := d_min_floor_enabled d;
     d_min_floor := d_min_floor d |}.

Definition debtsWithMin (debts : list Debt) : list Debt := map debtWithMin debts.

(** The object literal that [activeDebts] builds for the debt at [idx]: it
    has no [minimum_payment] property. *)
Definition activeDebtOf (idx : nat) (d : Debt) : Debt :=
  {| d_id := IdNum (N.of_nat idx);
     d_name := Some (let n := trim (match d_name d with
                                    | Some s => s
                                    | None => EmptyString
                                    end) in
                     if String.eqb n EmptyString then "Debt"%string else n);
     d_type := if String.eqb (d_type d) EmptyString then "other"%string else d_type d;
     d_balance := Some (Qmax 0 (clampNumber (d_balance d) 0));
     d_interest_rate := Some (Qmax 0 (clampNumber (d_interest_rate d) 0));
     d_min_override_enabled := false;
     d_min_override_amount := None;
     d_estimated_minimum_payment := None;
     d_minimum_payment := None;
     d_min_floor_enabled := d_min_override_enabled d;
     d_min_floor := Some (Qmax 0 (clampNumber (d_min_override_amount d) 0)) |}.

Fixpoint mapi_from {A B : Type} (f : nat -> A -> B) (idx : nat) (l : list A) : list B :=
  match l with
  | [] => []
  | x :: l' => f idx x :: mapi_from f (S idx) l'
  end.

Definition activeDebts (debts : list Debt) : list Debt :=
  filter (fun d => Qltb 0 (clampNumber (d_balance d) 0))
         (mapi_from activeDebtOf 0 (debtsWithMin debts)).

(** [minimumsTotal]: it reads [min_floor_enabled] and [min_floor] from the
    stored debts.  The fields of a stored debt are read here as everywhere
    ([num]: the finite number, or none), and [Number(v || 0)] as
    [clampNumber(v, 0)]: they agree on a blank field and on a finite number,
    which is what the form stores ([keepBlankOrNumber]).  A stored balance
    that is a non-numeric string or infinite, which the code counts with the
    floor of 25, is outside this embedding; no statement below depends on
    the value of [minimumsTotal]. *)
Definition minimumsTotal (debts : list Debt) : Q :=
  round2
    (fold_left
       (fun sum d =>
          let bal := Qmax 0 (clampNumber (d_balance d) 0) in
          if Qleb bal 0 then sum
          else
            let apr := Qmax 0 (clampNumber (d_interest_rate d) 0) in
            let dynamicMin :=
              computeMonthlyMinimumDynamic
                {| d_id := IdUndefined; d_name := None;
                   d_type := d_type d;
                   d_balance := None;
                   d_interest_rate := Some apr;
                   d_min_override_enabled := false; d_min_override_amount := None;
                   d_estimated_minimum_payment := None; d_minimum_payment := None;
                   d_min_floor_enabled := d_min_floor_enabled d;
                   d_min_floor := Some (clampNumber (d_min_floor d) 0) |}
                bal in
            sum + clampNumber dynamicMin 0)
       debts 0).

Inductive RealityState : Type := Stable | AtRisk | Tight | Optimizing.

Record Reality : Type := mkReality {
  re_state : RealityState;
  re_isAtRisk : bool;
  re_hasDebts : bool;
  re_cannotCoverBills : bool;
  re_cannotCoverMinimums : bool;
  re_scheduleInvalid : bool;
  re_month1BelowMins : bool;
  re_freeCash : Q;
  re_minimumsTotal : Q;
  re_shortfallBills : Q;
  re_shortfallMinimums : Q;
  re_shortfallMonth1 : Q;
  re_minIncomeNeeded : Q;
  re_minDebtPaymentNeeded : Q
}.

(** The body of the [reality] memo, as a function of the values it reads. *)
Definition reality (activeDebtsLength : nat) (income expenses freeCash minimumsTotal : Q)
    (paymentMode : string) (firstMonthOverBudget : bool) (firstMonthPayment : Q)
  : Reality :=
  let hasDebts := Nat.ltb 0 activeDebtsLength in
  let incomeMissing := Qleb income 0 in
  let cannotCoverBills := Qltb income expenses in
  let cannotCoverMinimums := if hasDebts then Qltb freeCash minimumsTotal else false in
  let scheduleInvalid :=
    if String.eqb paymentMode "schedule" then firstMonthOverBudget else false in
  let month1BelowMins :=
    if hasDebts then Qltb firstMonthPayment minimumsTotal else false in
  let isAtRisk :=
    (incomeMissing || cannotCoverBills || cannotCoverMinimums || scheduleInvalid
     || month1BelowMins)%bool in
  let shortfallBills := Qmax 0 (expenses - income) in
  let shortfallMinimums := if hasDebts then Qmax 0 (minimumsTotal - freeCash) else 0 in
  let shortfallMonth1 :=
    if hasDebts then Qmax 0 (minimumsTotal - firstMonthPayment) else 0 in
  let minIncomeNeeded := if hasDebts then expenses + minimumsTotal else expenses in
  let minDebtPaymentNeeded := minimumsTotal in
  let state :=
    if isAtRisk then AtRisk
    else
      let bufferAfterMins := freeCash - minimumsTotal in
      let state1 := if Qltb bufferAfterMins 200 then Tight else Stable in
      if (Qltb 1500 bufferAfterMins && Qltb 2000 freeCash)%bool then Optimizing
      else state1 in
  mkReality state isAtRisk hasDebts cannotCoverBills cannotCoverMinimums
            scheduleInvalid month1BelowMins freeCash minimumsTotal shortfallBills
            shortfallMinimums shortfallMonth1 minIncomeNeeded minDebtPaymentNeeded.

(** The inputs the component keeps in its state. *)
Record AppInputs : Type := mkInputs {
  in_debts : list Debt;
  in_paycheque : num;            (* [paycheques?.[0]?.amount] *)
  in_bill : num;                 (* [bills?.[0]?.amount] *)
  in_monthlyPayment : num;
  in_paymentMode : string;
  in_paymentSchedule : list ScheduleRow
}.

(** [reality] as the component computes it from its inputs. *)
Definition appReality (a : AppInputs) : Reality :=
  let income := clampNumber (in_paycheque a) 0 in
  let expenses := clampNumber (in_bill a) 0 in
  let freeCash := income - expenses in
  let active := activeDebts (in_debts a) in
  let mpFixed := Qmax 0 (clampNumber (in_monthlyPayment a) 0) in
  let paymentPlanFn :=
    getPaymentPlanFn (in_paymentMode a) (Some mpFixed) (in_paymentSchedule a) active in
  let firstMonthPlan := paymentPlanFn 1%nat in
  let firstMonthPayment := paymentOf firstMonthPlan in
  let firstMonthOverBudget := planOverBudget firstMonthPlan in
  reality (List.length active) income expenses freeCash (minimumsTotal (in_debts a))
          (in_paymentMode a) firstMonthOverBudget firstMonthPayment.

(** ** The months of a run *)

(** The variables of the month loop ([state], [totalInterest], [timeline])
    when a run enters the loop body for [month], if it gets that far: it
    does for month 1, and for the month after one it has simulated (an unpaid
    debt, a plan within budget) up to [MAX_MONTHS]. *)
Fixpoint loopAt (strategy : string) (paymentPlanFn : nat -> option Plan)
    (state0 : list SimDebt) (month : nat)
  : option (list SimDebt * Q * list TimelineEntry) :=
  match month with
  | O => None
  | S m =>
    match m with
    | O => Some (state0, 0, [])
    | S _ =>
      if Nat.leb month MAX_MONTHS then
        match loopAt strategy paymentPlanFn state0 m with
        | Some (state, totalInterest, timeline) =>
          if allPaid state then None
          else if planOverBudget (paymentPlanFn m) then None
          else
            let '(state', totalInterest', entry) :=
              simulateMonth strategy m (paymentPlanFn m) state totalInterest in
            Some (state', totalInterest', timeline ++ [entry])
        | None => None
        end
      else None
    end
  end.

(** ** Invariants of a run *)

Definition simKey (d : SimDebt) : string := propertyKey (s_id d).

(** A debt of the simulator's state is well formed when its balance is a
    non-negative number of cents and its monthly rate is not negative. *)
Definition debt_ok (d : SimDebt) : Prop :=
  is_cents (s_balance d) /\ 0 <= s_balance d /\ 0 <= s_r d.

Definition state_ok (state : list SimDebt) : Prop := Forall debt_ok state.

(** The entries of [paidThisMonthByDebtId] and [extraByDebtId] are amounts
    in cents, none negative; under a key that is no name of
    [Object.prototype] they are positive. *)
Definition paid_ok (paid : jsobj Q) : Prop :=
  Forall (fun e => is_cents (snd e) /\ 0 <= snd e
                   /\ (inherited (fst e) = false -> 0 < snd e)) paid.

(** The interest a debt accrues in a month, from its balance before. *)
Definition interestOf (d : SimDebt) : Q :=
  if Qleb (s_balance d) EPS then 0 else round2 (s_balance d * s_r d).

(** One turn of the accrual loop. *)
Definition accrueDebt (d : SimDebt) : SimDebt :=
  if Qleb (s_balance d) EPS then d
  else
    let interest := round2 (s_balance d * s_r d) in
    set_interestPaid (set_balance d (round2 (s_balance d + interest)))
                     (round2 (s_interestPaid d + interest)).

(** One turn of the required-payment loop. *)
Definition payOne (month : nat) (requiredByDebtId : option (jsobj Q))
    (dynamicMinByDebtId : jsobj Q) (d : SimDebt) (acc : PayAcc) : SimDebt * PayAcc :=
  if Qleb (s_balance d) EPS then (d, acc)
  else
    let key := propertyKey (s_id d) in
    match obj_or0 dynamicMinByDebtId key with
    | None =>
      (d, mkPayAcc (a_remaining acc) (a_minPaidTotal acc) (a_directedPaidTotal acc)
                   (round2v None) (a_paidThisMonthByDebtId acc))
    | Some dynamicMin =>
      let alloc := match requiredByDebtId with
                   | Some rb => Qmax 0 (clampNumber (obj_get rb key) 0)
                   | None => 0
                   end in
      let intended := match requiredByDebtId with
                      | Some _ => Qmax alloc dynamicMin
                      | None => dynamicMin
                      end in
      let requiredSum' := round2 (a_requiredSumThisMonth acc + intended) in
      let pay := round2 (Math_min3 intended (s_balance d) (a_remaining acc)) in
      if Qltb 0 pay then
        (recordPayoff month (set_balance d (round2 (s_balance d - pay))),
         mkPayAcc (round2 (a_remaining acc - pay))
                  (round2 (a_minPaidTotal acc + Qmin dynamicMin pay))
                  (match requiredByDebtId with
                   | Some _ => round2 (a_directedPaidTotal acc + pay)
                   | None => a_directedPaidTotal acc
                   end)
                  requiredSum'
                  (obj_assign (a_paidThisMonthByDebtId acc) key
                              (addTo (a_paidThisMonthByDebtId acc) key pay)))
      else
        (d, mkPayAcc (a_remaining acc) (a_minPaidTotal acc) (a_directedPaidTotal acc)
                     requiredSum' (a_paidThisMonthByDebtId acc))
    end.

(** The amount and funds of a pass are in order. *)
Definition funds_ok (remaining : Q) (paid : jsobj Q) : Prop :=
  is_cents remaining /\ 0 <= remaining /\ paid_ok paid.

(** The state an extra-targeting pass leaves when it pays [pay] to the debt
    with id [targetId]. *)
Definition extraPay (month : nat) (targetId : DebtId) (pay : Q) (x : ExtraState)
  : ExtraState :=
  let key := propertyKey targetId in
  {| x_state :=
       updateFirst (fun d => DebtId_eqb (s_id d) targetId)
         (fun d => recordPayoff month (set_balance d (round2 (s_balance d - pay))))
         (x_state x);
     x_remaining := round2 (x_remaining x - pay);
     x_extraPaidTotal := round2 (x_extraPaidTotal x + pay);
     x_extraByDebtId :=
       obj_assign (x_extraByDebtId x) key (addTo (x_extraByDebtId x) key pay);
     x_paidThisMonthByDebtId :=
       obj_assign (x_paidThisMonthByDebtId x) key
                  (addTo (x_paidThisMonthByDebtId x) key pay) |}.

(** The number of debts still active. *)
Definition activeCount (state : list SimDebt) : nat :=
  List.length (filter isActive state).

(** Every key of the object satisfies [K]. *)
Definition keys_in (K : string -> Prop) (o : jsobj Q) : Prop :=
  Forall (fun e => K (fst e)) o.

(** The step of the loop over [Object.entries(paidThisMonthByDebtId)]. *)
Definition targetStep (acc : option jsnum * Q) (e : string * Q) : option jsnum * Q :=
  if Qltb (snd acc) (snd e) then (Some (Number_of_string (fst e)), snd e) else acc.

(** [entries] holds [(k, amt)] as its first largest amount. *)
Definition firstLargest (entries : list (string * Q)) (k : string) (amt : Q) : Prop :=
  exists l1 l2,
    entries = l1 ++ (k, amt) :: l2
    /\ (forall e, In e l1 -> snd e < amt)
    /\ (forall e, In e l2 -> snd e <= amt).

(** Every debt has a number id: a non-negative integer below 2^53, which
    [String] prints in decimal digits. *)
Definition numericIds (debts : list Debt) : Prop :=
  Forall (fun d => exists n, d_id d = IdNum n /\ (n < 2 ^ 53)%N) debts.

(** No id is the name of a property of [Object.prototype]. *)
Definition plainIds (debts : list Debt) : Prop :=
  Forall (fun d => inherited (propertyKey (d_id d)) = false) debts.

(** Every debt has a string id that [Number] turns into [NaN]. *)
Definition nonNumericIds (debts : list Debt) : Prop :=
  Forall (fun d => exists s, d_id d = IdStr s /\ Number_of_string s = JNaN) debts.

(** ** Vocabulary of the statements *)

(** [null] for an [undefined] id. *)
Definition idOrNull (i : DebtId) : option DebtId :=
  match i with
  | IdUndefined => None
  | _ => Some i
  end.

Definition debtKey (d : Debt) : string := propertyKey (d_id d).

(** The resolver's outputs in the words of the specification: a debt counts
    when its balance is positive, its required payment is
    [round2(max(minimumPayment, allocation or 0))], and the required sum is
    the rounded running sum of those. *)
Definition positiveBalance (d : Debt) : bool := Qltb 0 (clampNumber (d_balance d) 0).

Definition specRequired (alloc : jsobj Q) (d : Debt) : Q :=
  round2 (Qmax (clampNumber (d_minimum_payment d) 0)
               (obj_get0 alloc (propertyKey (d_id d)))).

Definition roundedRunningSum (l : list Q) (start : Q) : Q :=
  fold_left (fun s r => round2 (s + r)) l start.

Definition Qsum (l : list Q) : Q := fold_right Qplus 0 l.

(** A debt whose minimum is resolved, and not negative. *)
Definition nonNegativeMinimum (d : Debt) : Prop :=
  exists m, d_minimum_payment d = Some m /\ 0 <= m.

(** The estimate of a debt object at a given balance. *)
Definition estimateAt (debt : Debt) (currentBalance : Q) : Q :=
  estimateMinimumPayment
    {| d_id := IdUndefined; d_name := None;
       d_type := d_type debt;
       d_balance := Some currentBalance;
       d_interest_rate := d_interest_rate debt;
       d_min_override_enabled := false; d_min_override_amount := None;
       d_estimated_minimum_payment := None; d_minimum_payment := None;
       d_min_floor_enabled := false; d_min_floor := None |}.

(** ** Sample inputs *)

(** The default debts as [activeDebts] numbers them. *)
Definition scenarioA : list Debt :=
  [mkDebt (IdNum 0) (Some "Credit Card"%string) "credit_card" (Some 4000)
          (Some (2999 # 100)) false None None None false None;
   mkDebt (IdNum 1) (Some "Personal Loan"%string) "loan" (Some 6000)
          (Some (799 # 100)) false None None None false None].

(** The same debts under their stored ids ["d1"] and ["d2"]. *)
Definition storedDefaults : list Debt :=
  [mkDebt (IdStr "d1") (Some "Credit Card"%string) "credit_card" (Some 4000)
          (Some (2999 # 100)) false None None None false None;
   mkDebt (IdStr "d2") (Some "Personal Loan"%string) "loan" (Some 6000)
          (Some (799 # 100)) false None None None false None].

(** Fixed funding of 1500, 25 and 10 a month. *)
Definition pay1500 : nat -> option Plan := getPaymentPlanFn "fixed" (Some 1500) [] [].
Definition pay25 : nat -> option Plan := getPaymentPlanFn "fixed" (Some 25) [] [].
Definition pay10 : nat -> option Plan := getPaymentPlanFn "fixed" (Some 10) [] [].

(** A line of credit of 10000 at 12%, and a debt of a type the estimator
    does not know. *)
Definition locDebt : Debt :=
  mkDebt (IdStr "d1") (Some "LOC"%string) "loc" (Some 10000) (Some 12) false None
         None None false None.

(** The same line of credit under the id ["constructor"]. *)
Definition constructorDebt : Debt :=
  mkDebt (IdStr "constructor") (Some "LOC"%string) "loc" (Some 10000) (Some 12) false None
         None None false None.

Definition storeCardDebt : Debt :=
  mkDebt (IdStr "d2") (Some "Store card"%string) "store_card" (Some 2000) (Some 24)
         false None None None false None.

(** A plan that reports every month over budget, and a plan that funds two
    months with 1500 and is over budget from the third. *)
Definition overBudgetPlan : nat -> option Plan :=
  fun _ => Some (mkPlan (Some 100) (Some [("0"%string, 500)]) (Some 500) true (Some 0)).

Definition twoMonthsPlan : nat -> option Plan :=
  fun month => if Nat.leb month 2 then pay1500 month else overBudgetPlan month.

(** The loop variables after two months of snowball funded with 1500. *)
Definition afterTwoMonths (debts : list Debt) : list SimDebt * Q * list TimelineEntry :=
  simLoop "snowball" pay1500 2 1 (initState debts) 0 [].

(** A line of credit of 15000 at 0%: at 25 a month it takes 600 months. *)
Definition slowDebt : list Debt :=
  [mkDebt (IdNum 0) (Some "LOC"%string) "loc" (Some 15000) (Some 0) false None
          None None false None].

(** A credit card of 1000 at 20%, whose minimum no payment of 10 covers. *)
Definition underfunded : list Debt :=
  [mkDebt (IdNum 0) (Some "Visa"%string) "credit_card" (Some 1000) (Some 20)
          false None None None false None].

(** Four loans with ties in balance and in APR; the last one is paid off. *)
Definition threeDebts : list SimDebt :=
  initState
    [mkDebt (IdNum 0) (Some "A"%string) "loan" (Some 500) (Some 5) false None None None false None;
     mkDebt (IdNum 1) (Some "B"%string) "loan" (Some 500) (Some 9) false None None None false None;
     mkDebt (IdNum 2) (Some "C"%string) "loan" (Some 900) (Some 9) false None None None false None;
     mkDebt (IdNum 3) (Some "D"%string) "loan" (Some 0) (Some 30) false None None None false None].

(** The default debts with resolved minimums, and a first schedule row that
    allocates 500 to the loan. *)
Definition cardWithMin : Debt :=
  mkDebt (IdNum 0) (Some "Visa"%string) "credit_card" (Some 4000) (Some (2999 # 100))
         false None (Some (13997 # 100)) (Some (13997 # 100)) false None.

Definition loanWithMin : Debt :=
  mkDebt (IdNum 1) (Some "Loan"%string) "loan" (Some 6000) (Some (799 # 100))
         false None (Some (20662 # 100)) (Some (20662 # 100)) false None.

Definition rowMonth1 : ScheduleRow := mkRow (Some 1) (Some 1500) [("1"%string, 500)].

(** A debt with a minimum of 25 and an allocation of 100, funded with
    99.996. *)
Definition roundedFunding : Q := 99996 # 1000.

Definition allocated100 : list Debt :=
  [mkDebt (IdNum 0) (Some "Visa"%string) "credit_card" (Some 4000) (Some 20)
          false None (Some 25) (Some 25) false None].

(** The same debt under the id ["__proto__"]. *)
Definition protoDebt : Debt :=
  mkDebt (IdStr "__proto__") (Some "Visa"%string) "credit_card" (Some 4000) (Some 20)
         false None (Some 25) (Some 25) false None.

Definition rowRounded : ScheduleRow := mkRow (Some 1) (Some roundedFunding) [("0"%string, 100)].

(** A credit card of 4000 at 29.99% whose override is enabled with an amount
    of 10, and a schedule of one month of 1500. *)
Definition overriddenDebt : Debt :=
  mkDebt (IdStr "d1") (Some "Visa"%string) "credit_card" (Some 4000) (Some (2999 # 100))
         true (Some 10) None None false None.

Definition scheduleOf1500 : list ScheduleRow := [mkRow (Some 1) (Some 1500) []].

(** Two equal lines of credit, the one with id 1 first in the array. *)
Definition twins : list Debt :=
  [mkDebt (IdNum 1) (Some "First"%string) "loc" (Some 1000) (Some 0) false None
          None None false None;
   mkDebt (IdNum 0) (Some "Second"%string) "loc" (Some 1000) (Some 0) false None
          None None false None].

Definition pay50 : nat -> option Plan := getPaymentPlanFn "fixed" (Some 50) [] [].

(** ** Values typed into the form *)

(** A value as the form hands it over or the stored state holds it, before
    [Number(..)] is applied to it. *)
Inductive jsval : Type :=
| VUndefined
| VNull
| VBool (b : bool)
| VNumber (n : jsnum)
| VString (s : string).

(** [Number(v)] *)
Definition Number_of (v : jsval) : jsnum :=
  match v with
  | VUndefined => JNaN
  | VNull => JNum 0
  | VBool b => JNum (if b then 1 else 0)
  | VNumber n => n
  | VString s => Number_of_string s
  end.

(** What [clampNumber] reads from a value: [Number(v)] when it is finite. *)
Definition toNum (v : jsval) : num :=
  match Number_of v with
  | JNum q => Some q
  | _ => None
  end.

(** [keepBlankOrNumber(v, fallback)]: the blank string for a blank field,
    else [Number(v)] when finite, else the fallback. *)
Definition keepBlankOrNumber (v : jsval) (fallback : Q) : jsval :=
  match v with
  | VString EmptyString => VString EmptyString
  | VNull => VString EmptyString
  | VUndefined => VString EmptyString
  | _ => VNumber (JNum (clampNumber (toNum v) fallback))
  end.

(** ** Strategy comparator *)

Definition pickWinner (goal : string) (snow aval : StrategyResult) : string :=
  if String.eqb goal "speed" then
    if Nat.leb (r_monthsToDebtFree snow) (r_monthsToDebtFree aval)
    then "snowball"%string else "avalanche"%string
  else if String.eqb goal "interest" then
    if Qleb (r_totalInterest snow) (r_totalInterest aval)
    then "snowball"%string else "avalanche"%string
  else "snowball"%string.

Record Simulation : Type := mkSimulation {
  sim_snow : StrategyResult;
  sim_aval : StrategyResult;
  sim_winner : string;
  sim_monthsDiff : nat;
  sim_interestDiff : Q
}.

(** [r.timeline?.[0]?.invalid] *)
Definition firstInvalid (r : StrategyResult) : bool :=
  match r_timeline r with
  | e :: _ => e_invalid e
  | [] => false
  end.

(** The body of the [simulation] memo, as a function of the values it
    reads; [None] is its [null]. *)
Definition simulation (isAtRisk : bool) (activeDebts : list Debt)
    (paymentPlanFn : nat -> option Plan) (goal : string) : option Simulation :=
  if isAtRisk then None
  else if Nat.ltb (List.length activeDebts) 2 then None
  else
    let snow := simulateStrategy "snowball" activeDebts paymentPlanFn in
    let aval := simulateStrategy "avalanche" activeDebts paymentPlanFn in
    if (firstInvalid snow || firstInvalid aval)%bool then None
    else
      Some {| sim_snow := snow;
              sim_aval := aval;
              sim_winner := pickWinner goal snow aval;
              sim_monthsDiff :=
                Z.abs_nat (Z.of_nat (r_monthsToDebtFree snow)
                           - Z.of_nat (r_monthsToDebtFree aval));
              sim_interestDiff :=
                round2 (Qabs (r_totalInterest snow - r_totalInterest aval)) |}.

(** [mpFixed] and [paymentPlanFn] as the component derives them. *)
Definition appMpFixed (a : AppInputs) : Q := Qmax 0 (clampNumber (in_monthlyPayment a) 0).

Definition appPlanFn (a : AppInputs) : nat -> option Plan :=
  getPaymentPlanFn (in_paymentMode a) (Some (appMpFixed a)) (in_paymentSchedule a)
                   (activeDebts (in_debts a)).

(** [simulation] as the component computes it from its inputs and [goal]. *)
Definition appSimulation (a : AppInputs) (goal : string) : option Simulation :=
  simulation (re_isAtRisk (appReality a)) (activeDebts (in_debts a)) (appPlanFn a) goal.

(** [array[i]] for an integer [i]: [undefined] out of range. *)
Definition Array_at {A : Type} (l : list A) (i : Z) : option A :=
  if (i <? 0)%Z then None else nth_error l (Z.to_nat i).

Record MonthDetails : Type := mkMonthDetails {
  md_max : Z;
  md_m : Z;
  md_snowMonth : option TimelineEntry;
  md_avalMonth : option TimelineEntry
}.

(** The [monthDetails] memo for the month picked in the selector. *)
Definition monthDetails (simulation : option Simulation) (selectedMonth : Z)
  : option MonthDetails :=
  match simulation with
  | None => None
  | Some s =>
    let max := Z.min (Z.of_nat (List.length (r_timeline (sim_snow s))))
                     (Z.of_nat (List.length (r_timeline (sim_aval s)))) in
    let m := Z.min (Z.max 1 selectedMonth) max in
    Some {| md_max := max;
            md_m := m;
            md_snowMonth := Array_at (r_timeline (sim_snow s)) (m - 1);
            md_avalMonth := Array_at (r_timeline (sim_aval s)) (m - 1) |}
  end.

(** ** Editing the debts and the schedule *)

(** [array.filter((_, i) => p(i))], the indexes counted from [idx]. *)
Fixpoint filteri_from {A : Type} (p : nat -> bool) (idx : nat) (l : list A) : list A :=
  match l with
  | [] => []
  | x :: l' => if p idx then x :: filteri_from p (S idx) l' else filteri_from p (S idx) l'
  end.

(** [removeDebt(index)] of App.jsx and of DebtsForm.jsx, for the object
    [emptyDebt] that the call [emptyDebt()] returns. *)
Definition removeDebt {A : Type} (emptyDebt : A) (index : nat) (prev : list A) : list A :=
  let next := filteri_from (fun i => negb (Nat.eqb i index)) 0 prev in
  match next with
  | [] => [emptyDebt]
  | _ => next
  end.

Definition removeScheduleMonth (idx : nat) (prev : list ScheduleRow) : list ScheduleRow :=
  filteri_from (fun i => negb (Nat.eqb i idx)) 0 prev.

(** [quickFillSchedule(months)]: rows for the months 1 to [m]. *)
Definition quickFillSchedule (months : num) (mpFixed : Q) : list ScheduleRow :=
  let m := Z.max 1 (Qfloor (clampNumber months 6)) in
  let amt := round2 mpFixed in
  map (fun i => {| row_month := Some (inject_Z (Z.of_nat i + 1));
                   row_amount := Some amt;
                   row_allocations := [] |})
      (seq 0 (Z.to_nat m)).

(** [delete o[k]] *)
Fixpoint obj_delete {A : Type} (o : jsobj A) (k : string) : jsobj A :=
  match o with
  | [] => []
  | (k', v) :: o' =>
    if String.eqb k' k then obj_delete o' k else (k', v) :: obj_delete o' k
  end.

(** [{ ...o }]: the copy receives the properties in the order in which
    [o] enumerates them. *)
Definition obj_copy {A : Type} (o : jsobj A) : jsobj A := Object_entries o.

Definition setAllocation (scheduleIdx : nat) (debtId : DebtId) (value : jsval)
    (prev : list ScheduleRow) : list ScheduleRow :=
  mapi_from
    (fun i row =>
       if negb (Nat.eqb i scheduleIdx) then row
       else
         let alloc := obj_copy (row_allocations row) in
         let v := Qmax 0 (clampNumber (toNum value) 0) in
         {| row_month := row_month row;
            row_amount := row_amount row;
            row_allocations :=
              if Qleb v 0 then obj_delete alloc (propertyKey debtId)
              else obj_assign alloc (propertyKey debtId) v |})
    0 prev.

(** [fillMinimumsForMonth(scheduleIdx)], for the list it iterates over
    (the component's [activeDebts]). *)
Definition fillMinimumsForMonth (activeDebts : list Debt) (scheduleIdx : nat)
    (prev : list ScheduleRow) : list ScheduleRow :=
  mapi_from
    (fun i row =>
       if negb (Nat.eqb i scheduleIdx) then row
       else
         {| row_month := row_month row;
            row_amount := row_amount row;
            row_allocations :=
              fold_left
                (fun alloc d =>
                   obj_assign alloc (propertyKey (d_id d)) (round2v (d_minimum_payment d)))
                activeDebts [] |})
    0 prev.

Definition clearAllocationsForMonth (scheduleIdx : nat) (prev : list ScheduleRow)
  : list ScheduleRow :=
  mapi_from
    (fun i row =>
       if Nat.eqb i scheduleIdx
       then {| row_month := row_month row;
               row_amount := row_amount row;
               row_allocations := [] |}
       else row)
    0 prev.

(** ** Vocabulary of the further statements *)

(** The entries of a timeline that are simulated months: all of them, or
    all but an invalid last one. *)
Definition simulatedMonths (timeline : list TimelineEntry) : list TimelineEntry :=
  filter (fun e => negb (e_invalid e)) timeline.

(** The sum of the balances of a state. *)
Definition balanceSum (state : list SimDebt) : Q := Qsum (map s_balance state).

(** No entry of an object under two values. *)
Definition obj_functional {A : Type} (o : jsobj A) : Prop :=
  forall k v v', In (k, v) o -> In (k, v') o -> v = v'.

(** A debt object of the given type, balance and APR. *)
Definition debtOf (type : string) (balance apr : Q) : Debt :=
  mkDebt IdUndefined None type (Some balance) (Some apr) false None None None false None.

(** Two debts of 0.001 each. *)
Definition dustDebts : list Debt :=
  [mkDebt (IdStr "d1") (Some "A"%string) "credit_card" (Some (1 # 1000)) (Some 20)
          false None None None false None;
   mkDebt (IdStr "d2") (Some "B"%string) "loan" (Some (1 # 1000)) (Some 5)
          false None None None false None].

(** The month and the amount under which [getPaymentPlanFn] files a row, and
    the largest month of a schedule (0 for an empty one). *)
Definition monthOfRow (row : ScheduleRow) : Z :=
  Z.max 1 (Qfloor (clampNumber (row_month row) 0)).

Definition amountOfRow (row : ScheduleRow) : Q :=
  Qmax 0 (round2 (clampNumber (row_amount row) 0)).

Definition lastScheduledMonth (scheduleRows : list ScheduleRow) : Z :=
  fold_left Z.max (List.map fst (normaliseRows scheduleRows)) 0%Z.

(** What the payment passes of a month may do to a debt: nothing, or, for a
    debt that still owes, a new balance with the payoff month recorded once
    the balance is gone. *)
Definition payStep (month : nat) (d d' : SimDebt) : Prop :=
  d' = d \/ (EPS < s_balance d /\ exists b, d' = recordPayoff month (set_balance d b)).

(** The payoff month of a debt after a month of the run, against the one it
    had before: kept once recorded, else recorded as this month's or not. *)
Definition payoffRecorded (month : nat) (d d' : SimDebt) : Prop :=
  match s_payoffMonth d with
  | Some m => s_payoffMonth d' = Some m
  | None =>
    s_payoffMonth d' = None \/ (s_payoffMonth d' = Some month /\ s_balance d' <= EPS)
  end.

(** The result the comparator names the winner, and the other one. *)
Definition winnerOf (winner : string) (snow aval : StrategyResult) : StrategyResult :=
  if String.eqb winner "snowball" then snow else aval.

Definition loserOf (winner : string) (snow aval : StrategyResult) : StrategyResult :=
  if String.eqb winner "snowball" then aval else snow.

(** Inputs for the two debts of 0.001: an income of 5000, bills of 1000 and
    a fixed payment of 1500. *)
Definition dustInputs : AppInputs :=
  mkInputs dustDebts (Some 5000) (Some 1000) (Some 1500) "fixed" [].

(** The comparison of the two strategies on the default debts, funded with
    1500 a month. *)
Definition sampleComparison : Simulation :=
  let snow := simulateStrategy "snowball" scenarioA pay1500 in
  let aval := simulateStrategy "avalanche" scenarioA pay1500 in
  {| sim_snow := snow;
     sim_aval := aval;
     sim_winner := pickWinner "speed" snow aval;
     sim_monthsDiff :=
       Z.abs_nat (Z.of_nat (r_monthsToDebtFree snow) - Z.of_nat (r_monthsToDebtFree aval));
     sim_interestDiff := round2 (Qabs (r_totalInterest snow - r_totalInterest aval)) |}.

(** ** The simulator in binary64

    The resolver and the simulator once more, on the numbers the program
    computes with: Rocq's primitive floats are the IEEE-754 binary64 numbers
    of JavaScript, with the same rounding (to nearest, ties to even).  The
    module follows [computeScheduleMonthRequiredPayments] and
    [simulateStrategy] line by line, the latter for a plan in fixed mode or
    with a [requiredByDebtId] of its own; of the variables of a month it
    keeps the state, [remaining] and [paidThisMonthByDebtId].  It serves to
    evaluate the code where the rounding of doubles decides the outcome. *)
Module Binary64.

Local Open Scope float_scope.

Definition Number_isFinite (x : float) : bool := negb (is_nan x || is_infinity x).

(** [clampNumber(v, fallback)] for a number [v]; [undefined] reads as [NaN]. *)
Definition clampNumber (v fallback : float) : float :=
  if Number_isFinite v then v else fallback.

Definition Number_EPSILON : float := 0x1p-52.

(** An integer below 2^53 in absolute value, which is a double. *)
Definition float_of_Z (z : Z) : float :=
  match z with
  | Z0 => 0
  | Zpos _ => of_uint63 (Uint63.of_Z z)
  | Zneg p => - of_uint63 (Uint63.of_Z (Zpos p))
  end.

(** [Math.round]: the integer nearest to [x], ties towards +infinity,
    computed on the exact value [m * 2^e] of the double.  A double with
    [e >= 0] is an integer. *)
Definition Math_round (x : float) : float :=
  match Prim2SF x with
  | S754_finite s m e =>
    if (0 <=? e)%Z then x
    else
      let v := if s then Zneg m else Zpos m in
      float_of_Z ((2 * v + 2 ^ (- e)) / 2 ^ (- e + 1))%Z
  | _ => x
  end.

Definition round2 (n : float) : float :=
  Math_round ((clampNumber n 0 + Number_EPSILON) * 100) / 100.

(** [Math.max] and [Math.min]: [NaN] when an argument is. *)
Definition Math_max (a b : float) : float :=
  if is_nan a || is_nan b then nan else if a <? b then b else a.
Definition Math_min (a b : float) : float :=
  if is_nan a || is_nan b then nan else if b <? a then b else a.

(** [a || b] on numbers: [b] when [a] is 0 or [NaN]. *)
Definition num_or (a b : float) : float :=
  if is_nan a || (a =? 0) then b else a.

Definition estimateMinimumPayment (type : string) (balance0 interest_rate : float) : float :=
  let balance := Math_max 0 (clampNumber balance0 0) in
  let apr := Math_max 0 (clampNumber interest_rate 0) in
  let r := (apr / 100) / 12 in
  let interestOnly := balance * r in
  let floor := 25 in
  if String.eqb type "credit_card" then
    let pctOfBalance := 0.02 * balance in
    let interestPlusPrincipal := interestOnly + 0.01 * balance in
    Math_max (Math_max floor pctOfBalance) interestPlusPrincipal
  else if String.eqb type "loc" then
    Math_max floor interestOnly
  else if String.eqb type "loan" then
    let principalPortion := balance / 36 in
    Math_max floor (interestOnly + principalPortion)
  else
    let pct := 0.015 * balance in
    Math_max (Math_max floor (interestOnly + 0.005 * balance)) pct.

Definition computeMonthlyMinimumDynamic (type : string) (interest_rate : float)
    (min_floor_enabled : bool) (min_floor : float) (currentBalance : float) : float :=
  let est := estimateMinimumPayment type currentBalance interest_rate in
  if min_floor_enabled then Math_max est min_floor else est.

(** A debt as the resolver and [simulateStrategy] receive it; a property
    that the object does not have reads as [NaN]. *)
Record Debt : Type := mkDebt {
  d_id : DebtId;
  d_type : string;
  d_balance : float;
  d_interest_rate : float;
  d_minimum_payment : float;
  d_min_floor_enabled : bool;
  d_min_floor : float
}.

(** The [for (const d of debts)] loop of the resolver. *)
Fixpoint requiredLoop (alloc : jsobj float) (debts : list Debt)
    (requiredByDebtId : jsobj float) (requiredSum : float) : jsobj float * float :=
  match debts with
  | [] => (requiredByDebtId, requiredSum)
  | d :: rest =>
    let bal := Math_max 0 (clampNumber (d_balance d) 0) in
    if bal <=? 0 then requiredLoop alloc rest requiredByDebtId requiredSum
    else
      let min := Math_max 0 (clampNumber (d_minimum_payment d) 0) in
      let user := Math_max 0 (clampNumber (match obj_get alloc (propertyKey (d_id d)) with
                                           | Some v => v
                                           | None => nan
                                           end) 0) in
      let required := round2 (Math_max min user) in
      requiredLoop alloc rest
        (obj_assign requiredByDebtId (propertyKey (d_id d)) required)
        (round2 (requiredSum + required))
  end.

(** [computeScheduleMonthRequiredPayments] for the allocations of the row:
    [requiredByDebtId], [requiredSum], [overBudget] and [unassigned]. *)
Definition computeScheduleMonthRequiredPayments (debts : list Debt)
    (allocations : jsobj float) (monthlyPayment : float)
  : jsobj float * float * bool * float :=
  let mPay := Math_max 0 (round2 (clampNumber monthlyPayment 0)) in
  let '(requiredByDebtId, requiredSum) := requiredLoop allocations debts [] 0 in
  let overBudget := 0.000001 <? requiredSum - mPay in
  let unassigned := round2 (Math_max 0 (mPay - requiredSum)) in
  (requiredByDebtId, requiredSum, overBudget, unassigned).

Record SimDebt : Type := mkSimDebt {
  s_id : DebtId;
  s_type : string;
  s_apr : float;
  s_r : float;
  s_balance : float;
  s_interestPaid : float;
  s_payoffMonth : option nat;
  s_min_floor_enabled : bool;
  s_min_floor : float
}.

Definition set_balance (d : SimDebt) (b : float) : SimDebt :=
  mkSimDebt (s_id d) (s_type d) (s_apr d) (s_r d) b (s_interestPaid d)
            (s_payoffMonth d) (s_min_floor_enabled d) (s_min_floor d).

Definition set_interestPaid (d : SimDebt) (i : float) : SimDebt :=
  mkSimDebt (s_id d) (s_type d) (s_apr d) (s_r d) (s_balance d) i
            (s_payoffMonth d) (s_min_floor_enabled d) (s_min_floor d).

Definition recordPayoff (month : nat) (d : SimDebt) : SimDebt :=
  if s_balance d <=? 0.000001 then
    match s_payoffMonth d with
    | None => mkSimDebt (s_id d) (s_type d) (s_apr d) (s_r d) (s_balance d)
                        (s_interestPaid d) (Some month) (s_min_floor_enabled d)
                        (s_min_floor d)
    | Some _ => d
    end
  else d.

Definition initState (debts : list Debt) : list SimDebt :=
  map (fun d =>
         {| s_id := d_id d;
            s_type := d_type d;
            s_apr := Math_max 0 (clampNumber (d_interest_rate d) 0);
            s_r := (Math_max 0 (clampNumber (d_interest_rate d) 0) / 100) / 12;
            s_balance := round2 (Math_max 0 (clampNumber (d_balance d) 0));
            s_interestPaid := 0;
            s_payoffMonth := None;
            s_min_floor_enabled := d_min_floor_enabled d;
            s_min_floor := round2 (Math_max 0 (clampNumber (d_min_floor d) 0)) |})
      debts.

Definition allPaid (state : list SimDebt) : bool :=
  forallb (fun d => s_balance d <=? 0.000001) state.

(** The comparators of [pickTargetId]; [sort] reads a [NaN] result as 0. *)
Definition cmpSnowball (a b : SimDebt) : float :=
  num_or (s_balance a - s_balance b) (s_apr b - s_apr a).
Definition cmpAvalanche (a b : SimDebt) : float :=
  num_or (s_apr b - s_apr a) (s_balance a - s_balance b).

Fixpoint sort_insert (cmp : SimDebt -> SimDebt -> float) (x : SimDebt)
    (l : list SimDebt) : list SimDebt :=
  match l with
  | [] => [x]
  | y :: l' =>
    if is_nan (cmp x y) || (cmp x y <=? 0) then x :: l else y :: sort_insert cmp x l'
  end.

Definition pickTargetId (strategy : string) (state : list SimDebt) : option DebtId :=
  let active := filter (fun d => 0.000001 <? s_balance d) state in
  let sorted :=
    if String.eqb strategy "snowball" then fold_right (sort_insert cmpSnowball) [] active
    else fold_right (sort_insert cmpAvalanche) [] active in
  match sorted with
  | d :: _ =>
    match s_id d with
    | IdUndefined => None
    | i => Some i
    end
  | [] => None
  end.

(** 1) accrue interest *)
Definition accrueDebt (d : SimDebt) : SimDebt :=
  if s_balance d <=? 0.000001 then d
  else
    let interest := round2 (s_balance d * s_r d) in
    set_interestPaid (set_balance d (round2 (s_balance d + interest)))
                     (round2 (s_interestPaid d + interest)).

(** [o[k] || 0]; an inherited function or object counts as [NaN], which is
    what every use below makes of it. *)
Definition obj_or0 (o : jsobj float) (k : string) : float :=
  match obj_get o k with
  | Some v => num_or v 0
  | None => if inherited k then nan else 0
  end.

(** 2) compute dynamic minimums for this month (after interest) *)
Fixpoint dynamicMinimums (state : list SimDebt) (dynamicMinByDebtId : jsobj float)
  : jsobj float :=
  match state with
  | [] => dynamicMinByDebtId
  | d :: rest =>
    if s_balance d <=? 0.000001 then dynamicMinimums rest dynamicMinByDebtId
    else
      dynamicMinimums rest
        (obj_assign dynamicMinByDebtId (propertyKey (s_id d))
           (round2 (computeMonthlyMinimumDynamic (s_type d) (s_apr d)
                      (s_min_floor_enabled d) (s_min_floor d) (s_balance d))))
  end.

(** 3) pay required (schedule allocations, with mins enforced) or minimums:
    the new state, [remaining] and [paidThisMonthByDebtId]. *)
Fixpoint payRequired (month : nat) (requiredByDebtId : option (jsobj float))
    (dynamicMinByDebtId : jsobj float) (state : list SimDebt) (remaining : float)
    (paid : jsobj float) : list SimDebt * float * jsobj float :=
  match state with
  | [] => ([], remaining, paid)
  | d :: rest =>
    if s_balance d <=? 0.000001 then
      let '(rest', remaining', paid') :=
        payRequired month requiredByDebtId dynamicMinByDebtId rest remaining paid in
      (d :: rest', remaining', paid')
    else
      let key := propertyKey (s_id d) in
      let dynamicMin := obj_or0 dynamicMinByDebtId key in
      let intended :=
        match requiredByDebtId with
        | Some rb =>
          Math_max (Math_max 0 (clampNumber (match obj_get rb key with
                                             | Some v => v
                                             | None => nan
                                             end) 0))
                   dynamicMin
        | None => dynamicMin
        end in
      let pay := round2 (Math_min (Math_min intended (s_balance d)) remaining) in
      if 0 <? pay then
        let '(rest', remaining', paid') :=
          payRequired month requiredByDebtId dynamicMinByDebtId rest
            (round2 (remaining - pay))
            (obj_assign paid key (round2 (obj_or0 paid key + pay))) in
        (recordPayoff month (set_balance d (round2 (s_balance d - pay))) :: rest',
         remaining', paid')
      else
        let '(rest', remaining', paid') :=
          payRequired month requiredByDebtId dynamicMinByDebtId rest remaining paid in
        (d :: rest', remaining', paid')
  end.

Fixpoint updateFirst (p : SimDebt -> bool) (f : SimDebt -> SimDebt)
    (state : list SimDebt) : list SimDebt :=
  match state with
  | [] => []
  | d :: rest => if p d then f d :: rest else d :: updateFirst p f rest
  end.

(** 4) extra targeting.  The [while] loop runs on fuel, and [None] is a
    loop that the fuel stopped. *)
Fixpoint extraLoop (strategy : string) (month : nat) (fuel : nat)
    (state : list SimDebt) (remaining : float) (paid : jsobj float)
  : option (list SimDebt * float * jsobj float) :=
  match fuel with
  | O => None
  | S fuel' =>
    if (0.000001 <? remaining) && negb (allPaid state) then
      match pickTargetId strategy state with
      | None => Some (state, remaining, paid)
      | Some targetId =>
        match find (fun d => DebtId_eqb (s_id d) targetId) state with
        | None => Some (state, remaining, paid)
        | Some t =>
          if s_balance t <=? 0.000001 then Some (state, remaining, paid)
          else
            let pay := round2 (Math_min (s_balance t) remaining) in
            if pay <=? 0 then Some (state, remaining, paid)
            else
              let key := propertyKey targetId in
              extraLoop strategy month fuel'
                (updateFirst (fun d => DebtId_eqb (s_id d) targetId)
                   (fun d => recordPayoff month
                               (set_balance d (round2 (s_balance d - pay))))
                   state)
                (round2 (remaining - pay))
                (obj_assign paid key (round2 (obj_or0 paid key + pay)))
        end
      end
    else Some (state, remaining, paid)
  end.

(** What [paymentPlanFn(month)] returns, as far as the passes read it. *)
Record Plan : Type := mkPlan {
  p_monthlyPayment : float;
  p_requiredByDebtId : option (jsobj float);
  p_overBudget : bool
}.

(** The plan of [getPaymentPlanFn] when [paymentMode] is not ["schedule"]. *)
Definition fixedPlanFn (monthlyPayment : float) : nat -> Plan :=
  fun _ => mkPlan (Math_max 0 (round2 monthlyPayment)) None false.

(** The body of the month loop below the over-budget branch: the state
    after the accrual, the state at the end of the month and the month's
    [paidThisMonthByDebtId]. *)
Definition simulateMonth (strategy : string) (month : nat) (plan : Plan)
    (state : list SimDebt) : option (list SimDebt * list SimDebt * jsobj float) :=
  let paymentThisMonth := Math_max 0 (round2 (clampNumber (p_monthlyPayment plan) 0)) in
  let state1 := map accrueDebt state in
  let dynamicMinByDebtId := dynamicMinimums state1 [] in
  let '(state2, remaining, paid) :=
    payRequired month (p_requiredByDebtId plan) dynamicMinByDebtId state1
                (round2 paymentThisMonth) [] in
  match extraLoop strategy month (S (S (List.length state2))) state2 remaining paid with
  | Some (state3, _, paid') => Some (state1, state3, paid')
  | None => None
  end.

(** The month loop: the state when it is left and the number of months
    simulated. *)
Fixpoint simLoop (strategy : string) (paymentPlanFn : nat -> Plan) (monthsLeft : nat)
    (month : nat) (state : list SimDebt) : option (list SimDebt * nat) :=
  match monthsLeft with
  | O => Some (state, Nat.pred month)
  | S monthsLeft' =>
    if allPaid state then Some (state, Nat.pred month)
    else if p_overBudget (paymentPlanFn month) then Some (state, Nat.pred month)
    else
      match simulateMonth strategy month (paymentPlanFn month) state with
      | Some (_, state', _) => simLoop strategy paymentPlanFn monthsLeft' (S month) state'
      | None => None
      end
  end.

Definition runMonths (strategy : string) (debts : list Debt)
    (paymentPlanFn : nat -> Plan) : option (list SimDebt * nat) :=
  simLoop strategy paymentPlanFn MAX_MONTHS 1 (initState debts).

(** A line of credit of the given balance and APR, with id 0 and no
    [minimum_payment], and one with a minimum payment. *)
Definition lineOfCredit (balance apr : float) : Debt :=
  mkDebt (IdNum 0) "loc" balance apr nan false 0.

Definition lineOfCreditWithMin (balance apr minimum : float) : Debt :=
  mkDebt (IdNum 0) "loc" balance apr minimum false 0.

End Binary64.

(** * Properties *)

Example Number_of_string_ex :
  Number_of_string "12" = JNum 12 /\ Number_of_string " 1.5e1 " = JNum 15
  /\ Number_of_string "0x1F" = JNum 31 /\ Number_of_string "-.5" = JNum (-1 # 2)
  /\ Number_of_string EmptyString = JNum 0 /\ Number_of_string "d1" = JNaN
  /\ Number_of_string "1e" = JNaN /\ Number_of_string "-Infinity" = JInfinity true
  /\ Number_of_string "d_lq2x_ab12cd" = JNaN /\ Number_of_string "5." = JNum 5
  /\ Number_of_string "." = JNaN /\ Number_of_string "1 2" = JNaN
  /\ Number_of_string "0x" = JNaN /\ Number_of_string "+0b101" = JNaN
  /\ Number_of_string "1e-2" = JNum (1 # 100).
Proof. vm_compute. repeat split. Qed.

Example Object_entries_ex :
  map fst (Object_entries
             [("b"%string, 1); ("10"%string, 2); ("2"%string, 3); ("01"%string, 4);
              ("a"%string, 5); ("0"%string, 6)])
  = ["0"%string; "2"%string; "10"%string; "b"%string; "01"%string; "a"%string].
Proof. vm_compute. reflexivity. Qed.

(** ** Arithmetic of [round2] *)

Lemma round2_bounds (x : Q) :
  x + Number_EPSILON - (1 # 200) < round2 x /\ round2 x <= x + Number_EPSILON + (1 # 200).
Proof.
  unfold round2, Math_round.
  set (y := (x + Number_EPSILON) * 100 + (1 # 2)).
  pose proof (Qfloor_le y) as Hle.
  pose proof (Qlt_floor y) as Hlt.
  assert (Hq : Qfloor y # 100 == inject_Z (Qfloor y) / 100).
  { unfold Qeq, Qdiv, Qmult, Qinv, inject_Z; simpl. lia. }
  assert (Hs : inject_Z (Qfloor y + 1) == inject_Z (Qfloor y) + 1).
  { rewrite inject_Z_plus. reflexivity. }
  rewrite Hs in Hlt.
  rewrite Hq. subst y.
  split.
  - apply Qlt_shift_div_l; [reflexivity|]. lra.
  - apply Qle_shift_div_r; [reflexivity|]. lra.
Qed.

Lemma round2_is_cents (x : Q) : is_cents (round2 x).
Proof. exists (Math_round ((x + Number_EPSILON) * 100)). reflexivity. Qed.

Lemma Qfloor_unique (z : Z) (y : Q) :
  inject_Z z <= y -> y < inject_Z z + 1 -> Qfloor y = z.
Proof.
  intros Hlo Hhi.
  pose proof (Qfloor_le y) as Hle.
  pose proof (Qlt_floor y) as Hlt.
  rewrite inject_Z_plus in Hlt.
  assert (H1 : inject_Z (Qfloor y) < inject_Z (z + 1)).
  { rewrite inject_Z_plus. change (inject_Z 1) with 1. lra. }
  assert (H2 : inject_Z z < inject_Z (Qfloor y + 1)).
  { rewrite inject_Z_plus. change (inject_Z 1) with 1 in *. lra. }
  rewrite <- Zlt_Qlt in H1, H2. lia.
Qed.

Lemma Number_EPSILON_bounds : 0 < Number_EPSILON /\ Number_EPSILON < 1 # 1000000.
Proof. split; reflexivity. Qed.

Lemma Qmake_100 (z : Z) : z # 100 == inject_Z z / 100.
Proof. unfold Qeq, Qdiv, Qmult, Qinv, inject_Z; simpl. lia. Qed.

Lemma round2_proper (x y : Q) : x == y -> round2 x = round2 y.
Proof.
  intros H. unfold round2, Math_round.
  f_equal. apply Qfloor_comp. rewrite H. reflexivity.
Qed.

Lemma round2_cents (x : Q) : is_cents x -> round2 x == x.
Proof.
  intros [z Hz]. unfold round2, Math_round.
  assert (Hx : x * 100 == inject_Z z) by (rewrite Hz, Qmake_100; field).
  destruct Number_EPSILON_bounds as [He0 He1].
  assert (E : Qfloor ((x + Number_EPSILON) * 100 + (1 # 2)) = z).
  { apply Qfloor_unique; lra. }
  rewrite E. symmetry. exact Hz.
Qed.

Lemma round2_mono (x y : Q) : x <= y -> round2 x <= round2 y.
Proof.
  intros H. unfold round2, Math_round.
  rewrite !Qmake_100.
  apply Qmult_le_compat_r; [|unfold Qinv; simpl; unfold Qle; simpl; lia].
  rewrite <- Zle_Qle. apply Qfloor_resp_le. lra.
Qed.

Lemma round2_0 : round2 0 = 0 # 100.
Proof. reflexivity. Qed.

Lemma round2_nonneg (x : Q) : 0 <= x -> 0 <= round2 x.
Proof.
  intros H. apply round2_mono in H. rewrite round2_0 in H.
  assert (E : 0 # 100 == 0) by reflexivity. rewrite E in H. exact H.
Qed.

(** What remains after paying the rounded amount rounds to nothing. *)
Lemma round2_sub_self (x : Q) : round2 (x - round2 x) == 0.
Proof.
  destruct (round2_bounds x) as [Hlo Hhi].
  unfold round2 at 1. unfold Math_round.
  assert (E : Qfloor ((x - round2 x + Number_EPSILON) * 100 + (1 # 2)) = 0%Z).
  { apply Qfloor_unique; change (inject_Z 0) with 0; lra. }
  rewrite E. reflexivity.
Qed.

Lemma is_cents_0 : is_cents 0.
Proof. exists 0%Z. reflexivity. Qed.

Lemma is_cents_plus (a b : Q) : is_cents a -> is_cents b -> is_cents (a + b).
Proof.
  intros [x Hx] [y Hy]. exists (x + y)%Z.
  rewrite Hx, Hy, !Qmake_100, inject_Z_plus. field.
Qed.

Lemma is_cents_minus (a b : Q) : is_cents a -> is_cents b -> is_cents (a - b).
Proof.
  intros [x Hx] [y Hy]. exists (x - y)%Z.
  rewrite Hx, Hy, !Qmake_100. unfold Z.sub. rewrite inject_Z_plus, inject_Z_opp. field.
Qed.

Lemma is_cents_proper (a b : Q) : a == b -> is_cents a -> is_cents b.
Proof. intros E [x Hx]. exists x. rewrite <- E. exact Hx. Qed.

Lemma is_cents_max (a b : Q) : is_cents a -> is_cents b -> is_cents (Qmax a b).
Proof.
  intros Ha Hb. destruct (Q.max_spec a b) as [[_ E]|[_ E]];
    eapply is_cents_proper; try (symmetry; exact E); assumption.
Qed.

(** Reflection of the boolean comparisons. *)
Lemma Qleb_true (a b : Q) : Qleb a b = true <-> a <= b.
Proof. apply Qle_bool_iff. Qed.

Lemma Qleb_false (a b : Q) : Qleb a b = false <-> b < a.
Proof.
  unfold Qleb. split; intros H.
  - apply Qnot_le_lt. intros Hle. apply Qle_bool_iff in Hle. congruence.
  - destruct (Qle_bool a b) eqn:E; [|reflexivity].
    apply Qle_bool_iff in E. lra.
Qed.

Lemma Qltb_true (a b : Q) : Qltb a b = true <-> a < b.
Proof.
  unfold Qltb. rewrite negb_true_iff. apply (Qleb_false b a).
Qed.

Lemma Qltb_false (a b : Q) : Qltb a b = false <-> b <= a.
Proof.
  unfold Qltb. rewrite negb_false_iff. apply Qle_bool_iff.
Qed.

Ltac qbool :=
  repeat match goal with
         | H : Qleb _ _ = true |- _ => apply Qleb_true in H
         | H : Qleb _ _ = false |- _ => apply Qleb_false in H
         | H : Qltb _ _ = true |- _ => apply Qltb_true in H
         | H : Qltb _ _ = false |- _ => apply Qltb_false in H
         end.

(** Case analysis on every [Qmax] and [Qmin] of the goal, for [lra]. *)
Ltac qminmax :=
  repeat match goal with
         | |- context [Qmax ?a ?b] =>
           let H := fresh "Hmax" in
           let m := fresh "m" in
           pose proof (Q.max_spec a b) as H;
           set (m := Qmax a b) in *; clearbody m
         | |- context [Qmin ?a ?b] =>
           let H := fresh "Hmin" in
           let m := fresh "m" in
           pose proof (Q.min_spec a b) as H;
           set (m := Qmin a b) in *; clearbody m
         | _ : context [Qmax ?a ?b] |- _ =>
           let H := fresh "Hmax" in
           let m := fresh "m" in
           pose proof (Q.max_spec a b) as H;
           set (m := Qmax a b) in *; clearbody m
         | _ : context [Qmin ?a ?b] |- _ =>
           let H := fresh "Hmin" in
           let m := fresh "m" in
           pose proof (Q.min_spec a b) as H;
           set (m := Qmin a b) in *; clearbody m
         end.

(** ** The minimum payment estimator *)

(** C2.  For a debt of the line-of-credit variant (type ["loc"]) with balance
    [b >= 0] and annual rate [a >= 0] the estimator returns
    [max(25, b * (a/100/12))]; a debt of any type other than ["credit_card"],
    ["loc"] and ["loan"] gets the default heuristic
    [max(25, interestOnly + 0.005*b, 0.015*b)] (the estimator is a total
    function: no type makes it fail). *)
Theorem estimate_line_of_credit_and_default :
  forall (debt other : Debt) (b a b' a' : Q),
    d_type debt = "loc"%string ->
    d_balance debt = Some b -> d_interest_rate debt = Some a ->
    0 <= b -> 0 <= a ->
    d_type other <> "credit_card"%string -> d_type other <> "loc"%string ->
    d_type other <> "loan"%string ->
    d_balance other = Some b' -> d_interest_rate other = Some a' ->
    0 <= b' -> 0 <= a' ->
    estimateMinimumPayment debt == Qmax 25 (b * (a / 100 / 12))
    /\ estimateMinimumPayment other
       == Math_max3 25 (b' * (a' / 100 / 12) + (5 # 1000) * b') ((15 # 1000) * b').
Proof.
  intros debt other b a b' a' Ht Hb Ha Hb0 Ha0 H1 H2 H3 Hb' Ha' Hb0' Ha0'. split.
  - unfold estimateMinimumPayment. rewrite Hb, Ha, Ht. simpl.
    rewrite (Q.max_r 0 b), (Q.max_r 0 a) by assumption. reflexivity.
  - unfold estimateMinimumPayment. rewrite Hb', Ha'.
    apply String.eqb_neq in H1, H2, H3. rewrite H1, H2, H3. simpl.
    unfold Math_max3.
    rewrite (Q.max_r 0 b'), (Q.max_r 0 a') by assumption. reflexivity.
Qed.

Lemma estimate_line_of_credit_and_default_witness :
  estimateMinimumPayment locDebt == Qmax 25 (10000 * (12 / 100 / 12))
  /\ estimateMinimumPayment storeCardDebt
     == Math_max3 25 (2000 * (24 / 100 / 12) + (5 # 1000) * 2000) ((15 # 1000) * 2000).
Proof.
  apply (estimate_line_of_credit_and_default locDebt storeCardDebt 10000 12 2000 24);
    try reflexivity; try (unfold Qle; simpl; lia); simpl; discriminate.
Defined.

(** The spelling ["line_of_credit"] is not the variant the estimator knows:
    it gets the default heuristic. *)
Example estimate_unknown_spelling :
  estimateMinimumPayment
    (mkDebt (IdStr "d1") None "line_of_credit" (Some 10000) (Some 12) false None
            None None false None) == 150
  /\ estimateMinimumPayment locDebt == 100.
Proof. split; reflexivity. Qed.

(** ** The feasibility gate *)

(** C8.  With income 2000 and bills 2700 the gate reports [isAtRisk] with a
    bills shortfall of exactly 700, whatever the debts, the funding mode, the
    fixed amount and the schedule are; the same holds of the [reality] memo
    for every value of the quantities it derives from them. *)
Theorem reality_scenario_C :
  (forall debts monthlyPayment paymentMode paymentSchedule,
      let r := appReality (mkInputs debts (Some 2000) (Some 2700) monthlyPayment
                                    paymentMode paymentSchedule) in
      re_isAtRisk r = true /\ re_cannotCoverBills r = true
      /\ re_shortfallBills r = 700 /\ re_state r = AtRisk)
  /\ (forall n minimums paymentMode firstMonthOverBudget firstMonthPayment,
         let r := reality n 2000 2700 (2000 - 2700) minimums paymentMode
                          firstMonthOverBudget firstMonthPayment in
         re_isAtRisk r = true /\ re_shortfallBills r = 700).
Proof.
  split.
  - intros debts mp mode sched. unfold appReality, reality. simpl.
    repeat split; reflexivity.
  - intros n mins mode ob fp. unfold reality. simpl. split; reflexivity.
Qed.

(** ** The month loop *)

Lemma simLoop_S strategy fn (monthsLeft month : nat) state ti tl :
  simLoop strategy fn (S monthsLeft) month state ti tl
  = if allPaid state then (state, ti, tl)
    else if planOverBudget (fn month)
         then (state, ti, tl ++ [invalidEntry month (fn month) state ti])
         else simLoop strategy fn monthsLeft (S month)
                      (fst (fst (simulateMonth strategy month (fn month) state ti)))
                      (snd (fst (simulateMonth strategy month (fn month) state ti)))
                      (tl ++ [snd (simulateMonth strategy month (fn month) state ti)]).
Proof.
  simpl. destruct (allPaid state); [reflexivity|].
  destruct (planOverBudget (fn month)); [reflexivity|].
  destruct (simulateMonth strategy month (fn month) state ti) as [[st' ti'] e]. reflexivity.
Qed.

(** How a run gets to the month after the first. *)
Lemma loopAt_next strategy fn state0 (m : nat) st' ti' tl' :
  loopAt strategy fn state0 (S (S m)) = Some (st', ti', tl') ->
  exists st ti tl e,
    loopAt strategy fn state0 (S m) = Some (st, ti, tl)
    /\ (S (S m) <= MAX_MONTHS)%nat
    /\ allPaid st = false /\ planOverBudget (fn (S m)) = false
    /\ simulateMonth strategy (S m) (fn (S m)) st ti = (st', ti', e)
    /\ tl' = tl ++ [e].
Proof.
  change (loopAt strategy fn state0 (S (S m)))
    with (if Nat.leb (S (S m)) MAX_MONTHS then
            match loopAt strategy fn state0 (S m) with
            | Some (state, totalInterest, timeline) =>
              if allPaid state then None
              else if planOverBudget (fn (S m)) then None
              else
                let '(state', totalInterest', entry) :=
                  simulateMonth strategy (S m) (fn (S m)) state totalInterest in
                Some (state', totalInterest', timeline ++ [entry])
            | None => None
            end
          else None).
  destruct (Nat.leb (S (S m)) MAX_MONTHS) eqn:El; [|discriminate].
  destruct (loopAt strategy fn state0 (S m)) as [[[st ti] tl]|]; [|discriminate].
  destruct (allPaid st) eqn:Ea; [discriminate|].
  destruct (planOverBudget (fn (S m))) eqn:Eo; [discriminate|].
  destruct (simulateMonth strategy (S m) (fn (S m)) st ti) as [[st1 ti1] e] eqn:Es.
  intros H. injection H as <- <- <-.
  exists st, ti, tl, e. apply Nat.leb_le in El. repeat split; assumption.
Qed.

(** From the month it has reached, a run is the rest of the loop. *)
Lemma loopAt_run strategy fn state0 (month : nat) st ti tl :
  loopAt strategy fn state0 month = Some (st, ti, tl) ->
  (1 <= month <= MAX_MONTHS)%nat
  /\ List.length tl = pred month
  /\ simLoop strategy fn MAX_MONTHS 1 state0 0 []
     = simLoop strategy fn (S (MAX_MONTHS - month)) month st ti tl.
Proof.
  destruct month as [|m]; [discriminate|].
  revert st ti tl. induction m as [|m IH]; intros st ti tl H.
  - injection H as <- <- <-. unfold MAX_MONTHS. repeat split; lia.
  - destruct (loopAt_next _ _ _ _ _ _ _ H)
      as [st0 [ti0 [tl0 [e [H0 [Hle [Ea [Eo [Es Et]]]]]]]]].
    destruct (IH _ _ _ H0) as [_ [Hlen Hrun]].
    split; [split; [lia | exact Hle]|].
    split; [subst tl; rewrite length_app, Hlen; simpl; lia|].
    rewrite Hrun, simLoop_S, Ea, Eo, Es. cbn [fst snd]. subst tl.
    replace (MAX_MONTHS - S m)%nat with (S (MAX_MONTHS - S (S m))) by lia.
    reflexivity.
Qed.

(** C5.  When a run enters a month with some debt unpaid and the plan of the
    month reports [overBudget], the run ends there: the state and
    [totalInterest] it returns are those it entered the month with, and its
    timeline is the one it had plus exactly one entry, the last of the run,
    which is invalid and carries zero interest and zero payments. *)
Theorem overBudget_appends_invalid_and_halts :
  forall strategy debts paymentPlanFn month state totalInterest timeline,
    loopAt strategy paymentPlanFn (initState debts) month
    = Some (state, totalInterest, timeline) ->
    allPaid state = false ->
    planOverBudget (paymentPlanFn month) = true ->
    exists e,
      runMonths strategy debts paymentPlanFn = (state, totalInterest, timeline ++ [e])
      /\ r_timeline (simulateStrategy strategy debts paymentPlanFn) = timeline ++ [e]
      /\ (forall d, last (r_timeline (simulateStrategy strategy debts paymentPlanFn)) d = e)
      /\ e_invalid e = true /\ e_month e = month
      /\ e_interestThisMonth e = 0 /\ e_totalInterestToDate e = totalInterest
      /\ e_minPaid e = 0 /\ e_directedPaid e = 0 /\ e_extraPaid e = 0
      /\ e_appliedToTargetThisMonth e = 0 /\ e_extraByDebtId e = []
      /\ e_targetDebtId e = None
      /\ e_totalRemaining e = totalRemainingOf state.
Proof.
  intros strategy debts fn month st ti tl Hat Hpaid Hover.
  exists (invalidEntry month (fn month) st ti).
  destruct (loopAt_run _ _ _ _ _ _ _ Hat) as [_ [_ Hrun]].
  assert (E : runMonths strategy debts fn
              = (st, ti, tl ++ [invalidEntry month (fn month) st ti])).
  { unfold runMonths. rewrite Hrun, simLoop_S, Hpaid, Hover. reflexivity. }
  assert (Et : r_timeline (simulateStrategy strategy debts fn)
               = tl ++ [invalidEntry month (fn month) st ti]).
  { unfold simulateStrategy. rewrite E. reflexivity. }
  split; [exact E|]. split; [exact Et|].
  split; [intros d; rewrite Et; apply last_last|].
  repeat split.
Qed.

Lemma overBudget_appends_invalid_and_halts_witness :
  (loopAt "snowball" twoMonthsPlan (initState scenarioA) 3
   = Some (fst (fst (afterTwoMonths scenarioA)), snd (fst (afterTwoMonths scenarioA)),
           snd (afterTwoMonths scenarioA))
   /\ allPaid (fst (fst (afterTwoMonths scenarioA))) = false
   /\ planOverBudget (twoMonthsPlan 3%nat) = true)
  /\ exists e,
      runMonths "snowball" scenarioA twoMonthsPlan
      = (fst (fst (afterTwoMonths scenarioA)), snd (fst (afterTwoMonths scenarioA)),
         snd (afterTwoMonths scenarioA) ++ [e])
      /\ r_timeline (simulateStrategy "snowball" scenarioA twoMonthsPlan)
         = snd (afterTwoMonths scenarioA) ++ [e]
      /\ e_invalid e = true /\ e_month e = 3%nat /\ e_interestThisMonth e = 0
      /\ e_minPaid e = 0 /\ e_directedPaid e = 0 /\ e_extraPaid e = 0.
Proof.
  assert (H1 : loopAt "snowball" twoMonthsPlan (initState scenarioA) 3
               = Some (fst (fst (afterTwoMonths scenarioA)),
                       snd (fst (afterTwoMonths scenarioA)),
                       snd (afterTwoMonths scenarioA)))
    by (vm_compute; reflexivity).
  assert (H2 : allPaid (fst (fst (afterTwoMonths scenarioA))) = false)
    by (vm_compute; reflexivity).
  assert (H3 : planOverBudget (twoMonthsPlan 3%nat) = true) by reflexivity.
  split; [exact (conj H1 (conj H2 H3))|].
  destruct (overBudget_appends_invalid_and_halts
              "snowball" scenarioA twoMonthsPlan 3 _ _ _ H1 H2 H3)
    as [e [E1 [E2 [_ [E3 [E4 [E5 [_ [E6 [E7 [E8 _]]]]]]]]]]].
  exists e.
  exact (conj E1 (conj E2 (conj E3 (conj E4 (conj E5 (conj E6 (conj E7 E8))))))).
Defined.

(** That run: two simulated months and the invalid entry of the third. *)
Example overBudget_run :
  let r := simulateStrategy "snowball" scenarioA twoMonthsPlan in
  map (fun e => (e_month e, e_invalid e, e_interestThisMonth e, e_totalRemaining e))
      (r_timeline r)
  = [(1%nat, false, 13992 # 100, 863992 # 100); (2%nat, false, 10901 # 100, 724893 # 100);
     (3%nat, true, 0, 724893 # 100)]
  /\ r_monthsToDebtFree r = 600%nat.
Proof. vm_compute. split; reflexivity. Qed.

(** The timeline only grows, by one entry per iteration at most. *)
Lemma simLoop_timeline strategy fn monthsLeft :
  forall month st ti tl,
    exists suffix,
      snd (simLoop strategy fn monthsLeft month st ti tl) = tl ++ suffix
      /\ (List.length suffix <= monthsLeft)%nat.
Proof.
  induction monthsLeft as [|n IH]; intros month st ti tl; simpl.
  - exists []. rewrite app_nil_r. split; [reflexivity | simpl; lia].
  - destruct (allPaid st).
    + exists []. rewrite app_nil_r. split; [reflexivity | simpl; lia].
    + destruct (planOverBudget (fn month)).
      * exists [invalidEntry month (fn month) st ti]. split; [reflexivity | simpl; lia].
      * destruct (simulateMonth strategy month (fn month) st ti) as [[st' ti'] e].
        destruct (IH (S month) st' ti' (tl ++ [e])) as [suffix [E L]].
        exists (e :: suffix). rewrite E, <- app_assoc. split; [reflexivity | simpl; lia].
Qed.

(** C3 as amended.  [monthsToDebtFree] is at most 600; when every debt is
    paid off at the end of the run it is the number of timeline entries; and
    it is 600 only when some debt is still unpaid at the end of the run or the
    run took all 600 months (the timeline has 600 entries). *)
Theorem monthsToDebtFree_bound :
  forall strategy debts paymentPlanFn,
    let r := simulateStrategy strategy debts paymentPlanFn in
    let final := fst (fst (runMonths strategy debts paymentPlanFn)) in
    (r_monthsToDebtFree r <= 600)%nat
    /\ (allPaid final = true -> r_monthsToDebtFree r = List.length (r_timeline r))
    /\ (r_monthsToDebtFree r = 600%nat ->
        allPaid final = false \/ List.length (r_timeline r) = 600%nat).
Proof.
  intros strategy debts fn. cbv zeta.
  unfold simulateStrategy.
  pose proof (simLoop_timeline strategy fn MAX_MONTHS 1 (initState debts) 0 []) as H.
  fold (runMonths strategy debts fn) in H.
  destruct (runMonths strategy debts fn) as [[st ti] tl]. simpl in *.
  destruct H as [suffix [E L]]. subst tl.
  destruct (allPaid st) eqn:Hp.
  - unfold MAX_MONTHS in L. repeat split; auto.
  - unfold MAX_MONTHS. repeat split; auto. discriminate.
Qed.

(** C3, as stated, fails: a line of credit of 15000 at 0% paid 25 a month is
    retired in month 600 exactly; every debt has reached zero by month 600 and
    [monthsToDebtFree] is 600. *)
Lemma monthsToDebtFree_600_all_paid :
  ~ (r_monthsToDebtFree (simulateStrategy "snowball" slowDebt pay25) = 600%nat ->
     allPaid (fst (fst (runMonths "snowball" slowDebt pay25))) = false).
Proof.
  intros H.
  assert (E : r_monthsToDebtFree (simulateStrategy "snowball" slowDebt pay25) = 600%nat)
    by (vm_compute; reflexivity).
  specialize (H E).
  assert (P : allPaid (fst (fst (runMonths "snowball" slowDebt pay25))) = true)
    by (vm_compute; reflexivity).
  congruence.
Qed.

(** What the run of that counterexample returns. *)
Example slowDebt_run :
  let r := simulateStrategy "snowball" slowDebt pay25 in
  r_monthsToDebtFree r = 600%nat /\ List.length (r_timeline r) = 600%nat
  /\ map pd_payoffMonth (r_perDebt r) = [600%nat]
  /\ map s_balance (fst (fst (runMonths "snowball" slowDebt pay25))) = [0 # 100].
Proof. vm_compute. repeat split. Qed.

(** ** Fixed funding *)

Lemma simulateMonth_entry strategy month plan st ti :
  let e := snd (simulateMonth strategy month plan st ti) in
  e_invalid e = false
  /\ e_paymentThisMonth e = paymentOf plan
  /\ e_unassigned e = round2 (Qmax 0 (e_paymentThisMonth e - e_requiredSum e)).
Proof.
  unfold simulateMonth.
  destruct (monthPayments strategy month plan st) as [[x i] acc].
  destruct (actualTarget (x_paidThisMonthByDebtId x)) as [tid tpaid].
  simpl. repeat split.
Qed.

Lemma simLoop_Forall (P : TimelineEntry -> Prop) strategy fn :
  (forall month, planOverBudget (fn month) = false) ->
  (forall month st ti, P (snd (simulateMonth strategy month (fn month) st ti))) ->
  forall monthsLeft month st ti tl,
    Forall P tl -> Forall P (snd (simLoop strategy fn monthsLeft month st ti tl)).
Proof.
  intros Hfn HP. induction monthsLeft as [|n IH]; intros month st ti tl Htl; simpl.
  - exact Htl.
  - destruct (allPaid st); [exact Htl|].
    rewrite Hfn.
    specialize (HP month st ti).
    destruct (simulateMonth strategy month (fn month) st ti) as [[st' ti'] e].
    apply IH. apply Forall_app. split; [exact Htl|]. constructor; [exact HP | constructor].
Qed.

(** C9.  In fixed mode (any mode other than ["schedule"]) the plan function
    reports [overBudget = false] for every month, so no entry of a run is
    invalid; a month whose required sum exceeds the payment is simulated like
    any other and its entry has [unassigned = 0]. *)
Theorem fixed_mode_never_invalid :
  forall paymentMode monthlyPayment scheduleRows debtsWithMin,
    paymentMode <> "schedule"%string ->
    let planFn := getPaymentPlanFn paymentMode monthlyPayment scheduleRows debtsWithMin in
    (forall month, planOverBudget (planFn month) = false)
    /\ (forall strategy debts,
           Forall (fun e => e_invalid e = false
                            /\ (e_paymentThisMonth e < e_requiredSum e ->
                                e_unassigned e == 0))
                  (r_timeline (simulateStrategy strategy debts planFn))).
Proof.
  intros mode mp rows dw Hmode planFn.
  assert (Hfn : forall month, planOverBudget (planFn month) = false).
  { intros month. unfold planFn, getPaymentPlanFn.
    apply String.eqb_neq in Hmode. rewrite Hmode. reflexivity. }
  split; [exact Hfn|].
  intros strategy debts.
  assert (E : r_timeline (simulateStrategy strategy debts planFn)
              = snd (runMonths strategy debts planFn)).
  { unfold simulateStrategy.
    destruct (runMonths strategy debts planFn) as [[st ti] tl]. reflexivity. }
  rewrite E. unfold runMonths.
  apply simLoop_Forall; [exact Hfn | | constructor].
  intros month st ti.
  destruct (simulateMonth_entry strategy month (planFn month) st ti) as [Hi [_ Hu]].
  split; [exact Hi|].
  intros Hlt. rewrite Hu.
  assert (Z0 : Qmax 0 (e_paymentThisMonth (snd (simulateMonth strategy month (planFn month) st ti))
                       - e_requiredSum (snd (simulateMonth strategy month (planFn month) st ti)))
               == 0) by (apply Q.max_l; lra).
  rewrite (round2_proper _ _ Z0). reflexivity.
Qed.

Lemma fixed_mode_never_invalid_witness :
  "fixed"%string <> "schedule"%string
  /\ (forall month, planOverBudget (getPaymentPlanFn "fixed" (Some 10) [] [] month) = false)
  /\ (forall strategy debts,
         Forall (fun e => e_invalid e = false
                          /\ (e_paymentThisMonth e < e_requiredSum e ->
                              e_unassigned e == 0))
                (r_timeline (simulateStrategy strategy debts
                                              (getPaymentPlanFn "fixed" (Some 10) [] [])))).
Proof.
  split; [discriminate|].
  apply (fixed_mode_never_invalid "fixed" (Some 10) [] []). discriminate.
Defined.

(** A fixed payment of 10 against a 1000 credit card: the first month
    requires 27.11, pays 10, is not invalid, and the run goes on to the
    600-month cap. *)
Example underfunded_run :
  let r := simulateStrategy "avalanche" underfunded pay10 in
  List.length (r_timeline r) = 600%nat
  /\ option_map (fun e => (e_requiredSum e, e_paymentThisMonth e, e_unassigned e, e_invalid e))
                (hd_error (r_timeline r))
     = Some (2711 # 100, 1000 # 100, 0 # 100, false).
Proof. vm_compute. split; reflexivity. Qed.

(** ** Target selection *)

Section SortHead.
Variable A : Type.
Variable cmp : A -> A -> Q.
Hypothesis cmp_total : forall x y, ~ cmp x y <= 0 -> cmp y x <= 0.
Hypothesis cmp_trans : forall x y z, cmp x y <= 0 -> cmp y z <= 0 -> cmp x z <= 0.

Lemma cmp_refl (x : A) : cmp x x <= 0.
Proof.
  destruct (Qlt_le_dec 0 (cmp x x)) as [H|H]; [|exact H].
  apply cmp_total. lra.
Qed.

Lemma sort_insert_nonempty (x : A) (l : list A) : sort_insert cmp x l <> [].
Proof. destruct l as [|y l]; simpl; [discriminate|]. destruct (Qleb (cmp x y) 0); discriminate. Qed.

Lemma sort_insert_In (x y : A) (l : list A) :
  In y (sort_insert cmp x l) <-> y = x \/ In y l.
Proof.
  induction l as [|z l IH]; simpl.
  - intuition.
  - destruct (Qleb (cmp x z) 0); simpl; [intuition|].
    rewrite IH. intuition.
Qed.

Lemma Array_sort_In (y : A) (l : list A) : In y (Array_sort cmp l) <-> In y l.
Proof.
  unfold Array_sort. induction l as [|x l IH]; simpl; [tauto|].
  rewrite sort_insert_In, IH. intuition.
Qed.

(** The first element of the sorted array is below every element. *)
Lemma Array_sort_head (l : list A) (h : A) (t : list A) :
  Array_sort cmp l = h :: t -> In h l /\ forall y, In y l -> cmp h y <= 0.
Proof.
  revert h t. unfold Array_sort.
  induction l as [|x l IH]; intros h t E; simpl in E; [discriminate|].
  destruct (fold_right (sort_insert cmp) [] l) as [|h' t'] eqn:Es.
  - simpl in E. injection E as <- <-.
    assert (l = []) as ->.
    { destruct l as [|z l']; [reflexivity|]. simpl in Es.
      exfalso. eapply sort_insert_nonempty. exact Es. }
    split; [left; reflexivity|]. intros y [<-|[]]. apply cmp_refl.
  - destruct (IH h' t' eq_refl) as [Hin Hle].
    simpl in E. destruct (Qleb (cmp x h') 0) eqn:Ec; injection E as <- <-.
    + qbool. split; [left; reflexivity|].
      intros y [<-|Hy]; [apply cmp_refl|].
      eapply cmp_trans; [exact Ec | apply Hle; exact Hy].
    + qbool. split; [right; exact Hin|].
      intros y [<-|Hy]; [apply cmp_total; lra | apply Hle; exact Hy].
Qed.
End SortHead.

Lemma num_or_le (a b : Q) : num_or a b <= 0 <-> a < 0 \/ (a == 0 /\ b <= 0).
Proof.
  unfold num_or. destruct (Qeq_bool a 0) eqn:E.
  - apply Qeq_bool_eq in E. split; [intros H; right; split; assumption|].
    intros [H|[_ H]]; [lra | exact H].
  - apply Qeq_bool_neq in E. split.
    + intros H. left. destruct (Qlt_le_dec a 0) as [L|L]; [exact L|].
      exfalso. apply E. lra.
    + intros [H|[H _]]; [lra | contradiction].
Qed.

Lemma cmpSnowball_le (a b : SimDebt) :
  cmpSnowball a b <= 0
  <-> s_balance a < s_balance b \/ (s_balance a == s_balance b /\ s_apr b <= s_apr a).
Proof.
  unfold cmpSnowball. rewrite num_or_le. split; intros [H|[H1 H2]];
    [left; lra | right; split; lra | left; lra | right; split; lra].
Qed.

Lemma cmpAvalanche_le (a b : SimDebt) :
  cmpAvalanche a b <= 0
  <-> s_apr b < s_apr a \/ (s_apr a == s_apr b /\ s_balance a <= s_balance b).
Proof.
  unfold cmpAvalanche. rewrite num_or_le. split; intros [H|[H1 H2]];
    [left; lra | right; split; lra | left; lra | right; split; lra].
Qed.

Lemma cmpSnowball_total (x y : SimDebt) : ~ cmpSnowball x y <= 0 -> cmpSnowball y x <= 0.
Proof.
  rewrite !cmpSnowball_le. intros H.
  destruct (Qlt_le_dec (s_balance y) (s_balance x)) as [L|L]; [left; exact L|].
  destruct (Qlt_le_dec (s_balance x) (s_balance y)) as [L'|L']; [exfalso; apply H; left; exact L'|].
  right. split; [lra|].
  destruct (Qlt_le_dec (s_apr y) (s_apr x)) as [M|M]; [|exact M].
  exfalso. apply H. right. split; lra.
Qed.

Lemma cmpSnowball_trans (x y z : SimDebt) :
  cmpSnowball x y <= 0 -> cmpSnowball y z <= 0 -> cmpSnowball x z <= 0.
Proof.
  rewrite !cmpSnowball_le. intros [H|[H1 H2]] [K|[K1 K2]];
    [left; lra | left; lra | left; lra | right; split; lra].
Qed.

Lemma cmpAvalanche_total (x y : SimDebt) : ~ cmpAvalanche x y <= 0 -> cmpAvalanche y x <= 0.
Proof.
  rewrite !cmpAvalanche_le. intros H.
  destruct (Qlt_le_dec (s_apr x) (s_apr y)) as [L|L]; [left; exact L|].
  destruct (Qlt_le_dec (s_apr y) (s_apr x)) as [L'|L']; [exfalso; apply H; left; exact L'|].
  right. split; [lra|].
  destruct (Qlt_le_dec (s_balance x) (s_balance y)) as [M|M]; [|exact M].
  exfalso. apply H. right. split; lra.
Qed.

Lemma cmpAvalanche_trans (x y z : SimDebt) :
  cmpAvalanche x y <= 0 -> cmpAvalanche y z <= 0 -> cmpAvalanche x z <= 0.
Proof.
  rewrite !cmpAvalanche_le. intros [H|[H1 H2]] [K|[K1 K2]];
    [left; lra | left; lra | left; lra | right; split; lra].
Qed.

(** What [pickTargetId] returns is the id of an active debt that comes first
    in the strategy's order. *)
Lemma pickTargetId_spec (strategy : string) (state : list SimDebt) :
  (filter isActive state = [] /\ pickTargetId strategy state = None)
  \/ exists t,
      In t state /\ isActive t = true
      /\ pickTargetId strategy state = idOrNull (s_id t)
      /\ forall d, In d state -> isActive d = true ->
                   if String.eqb strategy "snowball" then cmpSnowball t d <= 0
                   else cmpAvalanche t d <= 0.
Proof.
  unfold pickTargetId.
  destruct (filter isActive state) as [|a act] eqn:Ea; [left; split; reflexivity|].
  right. rewrite <- Ea.
  destruct (String.eqb strategy "snowball").
  - destruct (Array_sort cmpSnowball (filter isActive state)) as [|h t] eqn:Es.
    + exfalso. assert (In a (Array_sort cmpSnowball (filter isActive state))) as Hin
        by (apply Array_sort_In; rewrite Ea; left; reflexivity).
      rewrite Es in Hin. exact Hin.
    + destruct (Array_sort_head _ _ cmpSnowball_total cmpSnowball_trans _ _ _ Es)
        as [Hin Hle].
      apply filter_In in Hin. destruct Hin as [Hin Hact].
      exists h. repeat split; try assumption.
      * destruct (s_id h); reflexivity.
      * intros d Hd Had. apply Hle. apply filter_In. split; assumption.
  - destruct (Array_sort cmpAvalanche (filter isActive state)) as [|h t] eqn:Es.
    + exfalso. assert (In a (Array_sort cmpAvalanche (filter isActive state))) as Hin
        by (apply Array_sort_In; rewrite Ea; left; reflexivity).
      rewrite Es in Hin. exact Hin.
    + destruct (Array_sort_head _ _ cmpAvalanche_total cmpAvalanche_trans _ _ _ Es)
        as [Hin Hle].
      apply filter_In in Hin. destruct Hin as [Hin Hact].
      exists h. repeat split; try assumption.
      * destruct (s_id h); reflexivity.
      * intros d Hd Had. apply Hle. apply filter_In. split; assumption.
Qed.

(** C7.  Over the debts whose balance is above the epsilon, [pickTargetId]
    returns [null] when there is none, and otherwise the id of an active debt
    [t] such that, for every active debt [d]: under snowball [t] has the
    smaller balance, and at equal balance the higher APR; under avalanche (any
    other strategy string) [t] has the higher APR, and at equal APR the
    smaller balance. *)
Theorem pickTargetId_rule :
  forall (strategy : string) (state : list SimDebt),
    (filter isActive state = [] /\ pickTargetId strategy state = None)
    \/ exists t,
        In t state /\ EPS < s_balance t
        /\ pickTargetId strategy state = idOrNull (s_id t)
        /\ forall d, In d state -> EPS < s_balance d ->
                     (strategy = "snowball"%string ->
                      s_balance t <= s_balance d
                      /\ (s_balance t == s_balance d -> s_apr d <= s_apr t))
                     /\ (strategy <> "snowball"%string ->
                         s_apr d <= s_apr t
                         /\ (s_apr t == s_apr d -> s_balance t <= s_balance d)).
Proof.
  intros strategy state.
  destruct (pickTargetId_spec strategy state) as [H|[t [Hin [Hact [Hpick Hord]]]]];
    [left; exact H|].
  right. exists t. unfold isActive in Hact. qbool.
  repeat split; try assumption.
  - specialize (Hord d H). unfold isActive in Hord. rewrite (proj2 (Qltb_true _ _) H0) in Hord.
    specialize (Hord eq_refl). rewrite H1, String.eqb_refl in Hord.
    apply cmpSnowball_le in Hord. lra.
  - intros Heq. specialize (Hord d H). unfold isActive in Hord.
    rewrite (proj2 (Qltb_true _ _) H0) in Hord.
    specialize (Hord eq_refl). rewrite H1, String.eqb_refl in Hord.
    apply cmpSnowball_le in Hord. lra.
  - specialize (Hord d H). unfold isActive in Hord. rewrite (proj2 (Qltb_true _ _) H0) in Hord.
    specialize (Hord eq_refl). apply String.eqb_neq in H1. rewrite H1 in Hord.
    apply cmpAvalanche_le in Hord. lra.
  - intros Heq. specialize (Hord d H). unfold isActive in Hord.
    rewrite (proj2 (Qltb_true _ _) H0) in Hord.
    specialize (Hord eq_refl). apply String.eqb_neq in H1. rewrite H1 in Hord.
    apply cmpAvalanche_le in Hord. lra.
Qed.

(** Equal balances: snowball takes the higher APR; equal APRs: avalanche
    takes the smaller balance; the paid-off debt is never taken. *)
Example pickTargetId_ties :
  pickTargetId "snowball" threeDebts = Some (IdNum 1)
  /\ pickTargetId "avalanche" threeDebts = Some (IdNum 1).
Proof. vm_compute. split; reflexivity. Qed.

(** ** Objects *)

Lemma obj_get_set_same {A : Type} (o : jsobj A) (k : string) (v : A) :
  obj_get (obj_set o k v) k = Some v.
Proof.
  induction o as [|[k' v'] o IH]; simpl.
  - rewrite String.eqb_refl. reflexivity.
  - destruct (String.eqb k' k) eqn:E; simpl; rewrite E; [reflexivity | exact IH].
Qed.

Lemma obj_get_set_other {A : Type} (o : jsobj A) (k k' : string) (v : A) :
  k <> k' -> obj_get (obj_set o k v) k' = obj_get o k'.
Proof.
  intros Hne. induction o as [|[k0 v0] o IH]; simpl.
  - apply String.eqb_neq in Hne. rewrite Hne. reflexivity.
  - destruct (String.eqb k0 k) eqn:E; simpl.
    + apply String.eqb_eq in E. subst k0.
      apply String.eqb_neq in Hne. rewrite Hne. reflexivity.
    + rewrite IH. reflexivity.
Qed.

Lemma obj_set_Forall {A : Type} (P : string * A -> Prop) (o : jsobj A) (k : string) (v : A) :
  Forall P o -> P (k, v) -> Forall P (obj_set o k v).
Proof.
  intros Ho Hv. induction Ho as [|[k0 v0] o H0 Ho IH]; simpl.
  - constructor; [apply Hv | constructor].
  - destruct (String.eqb k0 k) eqn:E; constructor; auto.
    apply String.eqb_eq in E. subst k0. exact Hv.
Qed.

(** An assignment under any name but [__proto__] defines the property. *)
Lemma obj_assign_set {A : Type} (o : jsobj A) (k : string) (v : A) :
  k <> "__proto__"%string -> obj_assign o k v = obj_set o k v.
Proof.
  intros Hk. unfold obj_assign. apply String.eqb_neq in Hk. rewrite Hk.
  destruct (obj_get o k); reflexivity.
Qed.

Lemma obj_assign_cases {A : Type} (o : jsobj A) (k : string) (v : A) :
  obj_assign o k v = obj_set o k v
  \/ (obj_assign o k v = o /\ k = "__proto__"%string /\ obj_get o k = None).
Proof.
  unfold obj_assign. destruct (obj_get o k); [left; reflexivity|].
  destruct (String.eqb k "__proto__") eqn:E; [|left; reflexivity].
  right. apply String.eqb_eq in E. auto.
Qed.

Lemma obj_assign_Forall {A : Type} (P : string * A -> Prop) (o : jsobj A)
      (k : string) (v : A) :
  Forall P o -> P (k, v) -> Forall P (obj_assign o k v).
Proof.
  intros Ho Hv. destruct (obj_assign_cases o k v) as [->|[-> _]];
    [apply obj_set_Forall; assumption | exact Ho].
Qed.

Lemma obj_get_assign_other {A : Type} (o : jsobj A) (k k' : string) (v : A) :
  k <> k' -> obj_get (obj_assign o k v) k' = obj_get o k'.
Proof.
  intros Hne. destruct (obj_assign_cases o k v) as [->|[-> _]];
    [apply obj_get_set_other; exact Hne | reflexivity].
Qed.

Lemma obj_get_assign_same {A : Type} (o : jsobj A) (k : string) (v : A) :
  k <> "__proto__"%string -> obj_get (obj_assign o k v) k = Some v.
Proof. intros Hk. rewrite obj_assign_set by exact Hk. apply obj_get_set_same. Qed.

(** ** The schedule requirement resolver *)

Lemma required_as_specified (alloc : jsobj Q) (d : Debt) :
  nonNegativeMinimum d ->
  round2 (Qmax (Qmax 0 (clampNumber (d_minimum_payment d) 0))
               (Qmax 0 (clampNumber (obj_get alloc (propertyKey (d_id d))) 0)))
  = specRequired alloc d.
Proof.
  intros [m [Hm Hm0]]. unfold specRequired, obj_get0. rewrite Hm. simpl.
  apply round2_proper.
  destruct (obj_get alloc (propertyKey (d_id d))) as [u|]; simpl; qminmax; lra.
Qed.

Lemma requiredLoop_fold (alloc : jsobj Q) (debts : list Debt) :
  Forall nonNegativeMinimum debts ->
  forall rb rs,
    requiredLoop alloc debts rb rs
    = (fold_left (fun o d => obj_assign o (debtKey d) (specRequired alloc d))
                 (filter positiveBalance debts) rb,
       roundedRunningSum (map (specRequired alloc) (filter positiveBalance debts)) rs).
Proof.
  induction 1 as [|d debts Hd Hds IH]; intros rb rs; simpl; [reflexivity|].
  destruct (Qleb (Qmax 0 (clampNumber (d_balance d) 0)) 0) eqn:E;
    destruct (positiveBalance d) eqn:E'; unfold positiveBalance in E'; qbool.
  - exfalso. revert E. qminmax. lra.
  - apply IH.
  - simpl. rewrite IH, (required_as_specified alloc d Hd). reflexivity.
  - exfalso. revert E. qminmax. lra.
Qed.

Lemma fold_assign_other (alloc : jsobj Q) (l : list Debt) (k : string) :
  ~ In k (map debtKey l) ->
  forall rb,
    obj_get (fold_left (fun o d => obj_assign o (debtKey d) (specRequired alloc d)) l rb) k
    = obj_get rb k.
Proof.
  induction l as [|d l IH]; intros Hk rb; simpl; [reflexivity|].
  simpl in Hk. rewrite IH by tauto.
  apply obj_get_assign_other. intros E. apply Hk. left. exact E.
Qed.

Lemma fold_assign_lookup (alloc : jsobj Q) (l : list Debt) :
  NoDup (map debtKey l) ->
  forall rb d, In d l -> debtKey d <> "__proto__"%string ->
    obj_get (fold_left (fun o d => obj_assign o (debtKey d) (specRequired alloc d)) l rb)
            (debtKey d)
    = Some (specRequired alloc d).
Proof.
  induction l as [|x l IH]; intros Hnd rb d Hd Hk; simpl in *; [contradiction|].
  inversion Hnd as [|? ? Hx Hl]; subst.
  destruct Hd as [->|Hd].
  - rewrite fold_assign_other by exact Hx. apply obj_get_assign_same. exact Hk.
  - apply IH; assumption.
Qed.

(** C6 as amended.  For debts with unique ids and non-negative resolved
    minimums: each debt with a positive balance is required
    [round2(max(minimumPayment, allocation or 0))], stored under its id (any
    id but [__proto__], under which an object literal stores no number);
    [requiredSum] is the rounded running sum of those amounts, [round2]
    applied after each addition; [overBudget] is true iff [requiredSum]
    exceeds [mPay] by more than 1e-6, and
    [unassigned = round2(max(0, mPay - requiredSum))], where [mPay] is the
    funding amount rounded to two decimals and clamped at zero. *)
Theorem resolver_outputs :
  forall (debts : list Debt) (scheduleRow : option ScheduleRow) (monthlyPayment : num),
    Forall nonNegativeMinimum debts ->
    NoDup (map debtKey (filter positiveBalance debts)) ->
    let info := computeScheduleMonthRequiredPayments debts scheduleRow monthlyPayment in
    let alloc := match scheduleRow with
                 | Some row => row_allocations row
                 | None => []
                 end in
    let owing := filter positiveBalance debts in
    let mPay := Qmax 0 (round2 (clampNumber monthlyPayment 0)) in
    (forall d, In d owing -> debtKey d <> "__proto__"%string ->
               obj_get (ri_requiredByDebtId info) (debtKey d) = Some (specRequired alloc d))
    /\ ri_requiredSum info = roundedRunningSum (map (specRequired alloc) owing) 0
    /\ (ri_overBudget info = true <-> EPS < ri_requiredSum info - mPay)
    /\ ri_unassigned info = round2 (Qmax 0 (mPay - ri_requiredSum info)).
Proof.
  intros debts row mp Hmin Hnd. cbv zeta.
  unfold computeScheduleMonthRequiredPayments.
  rewrite (requiredLoop_fold _ debts Hmin). cbv beta iota. simpl ri_requiredSum.
  simpl ri_requiredByDebtId. simpl ri_overBudget. simpl ri_unassigned.
  split; [|split; [reflexivity|split; [apply Qltb_true | reflexivity]]].
  intros d Hd Hk. apply fold_assign_lookup; assumption.
Qed.

Lemma resolver_outputs_witness :
  let debts := [cardWithMin; loanWithMin] in
  let info := computeScheduleMonthRequiredPayments debts (Some rowMonth1) (Some 1500) in
  let alloc := row_allocations rowMonth1 in
  let owing := filter positiveBalance debts in
  let mPay := Qmax 0 (round2 (clampNumber (Some 1500) 0)) in
  (forall d, In d owing -> debtKey d <> "__proto__"%string ->
             obj_get (ri_requiredByDebtId info) (debtKey d) = Some (specRequired alloc d))
  /\ ri_requiredSum info = roundedRunningSum (map (specRequired alloc) owing) 0
  /\ (ri_overBudget info = true <-> EPS < ri_requiredSum info - mPay)
  /\ ri_unassigned info = round2 (Qmax 0 (mPay - ri_requiredSum info)).
Proof.
  apply (resolver_outputs [cardWithMin; loanWithMin] (Some rowMonth1) (Some 1500)).
  - repeat constructor.
    + exists (13997 # 100). split; [reflexivity | unfold Qle; simpl; lia].
    + exists (20662 # 100). split; [reflexivity | unfold Qle; simpl; lia].
  - vm_compute. repeat constructor; simpl; intuition discriminate.
Defined.

Example resolver_month1 :
  let info := computeScheduleMonthRequiredPayments [cardWithMin; loanWithMin]
                                                   (Some rowMonth1) (Some 1500) in
  ri_requiredByDebtId info = [("0"%string, 13997 # 100); ("1"%string, 50000 # 100)]
  /\ ri_requiredSum info = 63997 # 100 /\ ri_overBudget info = false
  /\ ri_unassigned info = 86003 # 100.
Proof. vm_compute. repeat split. Qed.

(** C6, as stated, fails for a funding amount that is not a whole number of
    cents: 99.996 is rounded to 100.00 before the comparison, so a required
    sum of 100.00, which exceeds 99.996 by 0.004, is not over budget. *)
Lemma resolver_rounds_funding_amount :
  let info := computeScheduleMonthRequiredPayments allocated100 (Some rowRounded)
                                                   (Some roundedFunding) in
  ~ (ri_overBudget info = true <-> EPS < ri_requiredSum info - roundedFunding).
Proof.
  cbv zeta. intros [_ H].
  assert (E : ri_overBudget
                (computeScheduleMonthRequiredPayments allocated100 (Some rowRounded)
                                                      (Some roundedFunding)) = false)
    by (vm_compute; reflexivity).
  rewrite E in H. discriminate H. vm_compute. reflexivity.
Qed.

(** What the resolver returns there. *)
Example resolver_rounded_funding :
  let info := computeScheduleMonthRequiredPayments allocated100 (Some rowRounded)
                                                   (Some roundedFunding) in
  ri_requiredSum info = 10000 # 100 /\ ri_overBudget info = false
  /\ ri_unassigned info = 0 # 100.
Proof. vm_compute. repeat split. Qed.

(** A debt whose id is ["__proto__"] is counted in the required sum, but its
    requirement is not stored: the assignment to [__proto__] is lost. *)
Example resolver_proto_id :
  let info := computeScheduleMonthRequiredPayments [protoDebt] (Some rowRounded)
                                                   (Some 1500) in
  ri_requiredByDebtId info = [] /\ ri_requiredSum info = 2500 # 100.
Proof. vm_compute. split; reflexivity. Qed.

(** The resolver in binary64, at amounts that [round2] does not leave alone
    once rounded: with nothing owed, a funding of 41961928307790.125 is
    rounded to [mPay] = 41961928307790.133 and once more, as [unassigned], to
    41961928307790.141; a debt with that minimum payment is required
    41961928307790.133, and the required sum is the next rounding of it. *)
Example binary64_resolver :
  Binary64.computeScheduleMonthRequiredPayments [] [] 41961928307790.125
  = ([], 0%float, false, 41961928307790.141%float)
  /\ Binary64.computeScheduleMonthRequiredPayments
       [Binary64.lineOfCreditWithMin 1000 0 41961928307790.125] [] 0
     = ([("0"%string, 41961928307790.133%float)], 41961928307790.141%float, true, 0%float).
Proof. vm_compute. split; reflexivity. Qed.

(** ** The floor override *)

(** In the simulator the override is a floor: the dynamic minimum is
    [max(estimate, floor)], never below the estimate. *)
Lemma dynamic_minimum_is_floor (debt : Debt) (currentBalance f : Q) :
  d_min_floor_enabled debt = true -> d_min_floor debt = Some f ->
  computeMonthlyMinimumDynamic debt currentBalance
  = Some (Qmax (estimateAt debt currentBalance) f)
  /\ estimateAt debt currentBalance <= Qmax (estimateAt debt currentBalance) f.
Proof.
  intros He Hf. unfold computeMonthlyMinimumDynamic. rewrite He, Hf.
  split; [reflexivity | apply Q.le_max_l].
Qed.

(** C1 at a credit card of 4000 at 29.99% whose override is enabled with an
    amount of 10, below the estimate of 139.97.  The simulator keeps the
    estimate (the override is a floor there), but the chosen minimum of
    [debtsWithMin] is the override itself, 10, and that is what the resolver
    requires of such a debt; on [activeDebts], the list the application hands
    to [getPaymentPlanFn], there is no [minimum_payment] at all and the
    resolver requires 0. *)
Theorem override_below_estimate_lowers_schedule_minimum :
  let est := estimateMinimumPayment overriddenDebt in
  let annotated := debtsWithMin [overriddenDebt] in
  let active := activeDebts [overriddenDebt] in
  round2 est = 13997 # 100
  /\ map d_min_floor_enabled active = [true]
  /\ map (fun d => round2v (computeMonthlyMinimumDynamic d 4000)) active = [13997 # 100]
  /\ map d_minimum_payment annotated = [Some 10]
  /\ ri_requiredByDebtId
       (computeScheduleMonthRequiredPayments annotated (hd_error scheduleOf1500) (Some 1500))
     = [("d1"%string, 1000 # 100)]
  /\ map d_minimum_payment active = [None]
  /\ option_map p_requiredByDebtId
       (getPaymentPlanFn "schedule" (Some 1500) scheduleOf1500 active 1%nat)
     = Some (Some [("0"%string, 0 # 100)]).
Proof. vm_compute. repeat split. Qed.


Lemma recordPayoff_fields (month : nat) (d : SimDebt) :
  s_id (recordPayoff month d) = s_id d /\ s_r (recordPayoff month d) = s_r d
  /\ s_balance (recordPayoff month d) = s_balance d
  /\ s_name (recordPayoff month d) = s_name d.
Proof.
  unfold recordPayoff. destruct (Qleb (s_balance d) EPS); [|repeat split].
  destruct (s_payoffMonth d); repeat split.
Qed.

Lemma initState_ok (debts : list Debt) : state_ok (initState debts).
Proof.
  unfold state_ok, initState. apply Forall_forall. intros d Hd.
  apply in_map_iff in Hd. destruct Hd as [x [<- _]].
  unfold debt_ok. simpl. repeat split.
  - apply round2_is_cents.
  - apply round2_nonneg. apply Q.le_max_l.
  - assert (H : 0 <= Qmax 0 (clampNumber (d_interest_rate x) 0)) by apply Q.le_max_l.
    revert H. generalize (Qmax 0 (clampNumber (d_interest_rate x) 0)). intros q Hq.
    unfold Qdiv. apply Qmult_le_0_compat; [apply Qmult_le_0_compat; [exact Hq|]|];
      unfold Qle; simpl; lia.
Qed.

Lemma accrueInterest_map (state : list SimDebt) :
  forall total, fst (accrueInterest state total) = map accrueDebt state.
Proof.
  induction state as [|d rest IH]; intros total; simpl; [reflexivity|].
  destruct (Qleb (s_balance d) EPS) eqn:E.
  - specialize (IH total). destruct (accrueInterest rest total). simpl in *.
    rewrite IH. unfold accrueDebt. rewrite E. reflexivity.
  - specialize (IH (round2 (total + round2 (s_balance d * s_r d)))).
    destruct (accrueInterest rest (round2 (total + round2 (s_balance d * s_r d)))).
    simpl in *. rewrite IH. unfold accrueDebt. rewrite E. reflexivity.
Qed.

(** After the accrual a debt owes its balance plus its interest. *)
Lemma accrueDebt_ok (d : SimDebt) :
  debt_ok d ->
  debt_ok (accrueDebt d) /\ s_id (accrueDebt d) = s_id d
  /\ s_balance (accrueDebt d) == s_balance d + interestOf d
  /\ 0 <= interestOf d.
Proof.
  intros [Hc [H0 Hr]]. unfold accrueDebt, interestOf.
  destruct (Qleb (s_balance d) EPS) eqn:E.
  - repeat split; try assumption; lra.
  - assert (Hi : 0 <= round2 (s_balance d * s_r d)).
    { apply round2_nonneg. apply Qmult_le_0_compat; assumption. }
    assert (Hs : round2 (s_balance d + round2 (s_balance d * s_r d))
                 == s_balance d + round2 (s_balance d * s_r d)).
    { apply round2_cents. apply is_cents_plus; [exact Hc | apply round2_is_cents]. }
    unfold debt_ok. simpl. repeat split.
    + apply round2_is_cents.
    + rewrite Hs. lra.
    + exact Hr.
    + exact Hs.
    + exact Hi.
Qed.

Lemma accrueDebt_ok_id (d : SimDebt) : s_id (accrueDebt d) = s_id d.
Proof. unfold accrueDebt. destruct (Qleb (s_balance d) EPS); reflexivity. Qed.

Lemma accrue_state_ok (state : list SimDebt) :
  state_ok state -> state_ok (map accrueDebt state).
Proof.
  unfold state_ok. intros H. apply Forall_map.
  eapply Forall_impl; [|exact H]. intros d Hd. apply accrueDebt_ok. exact Hd.
Qed.

Lemma payRequired_cons month rb dyn d rest acc :
  payRequired month rb dyn (d :: rest) acc
  = let (d', acc1) := payOne month rb dyn d acc in
    let (rest', acc') := payRequired month rb dyn rest acc1 in
    (d' :: rest', acc').
Proof.
  simpl. unfold payOne.
  destruct (Qleb (s_balance d) EPS); [reflexivity|].
  destruct (obj_or0 dyn (propertyKey (s_id d))); [|reflexivity].
  destruct (Qltb 0 _); reflexivity.
Qed.

Lemma obj_get_Forall {A : Type} (P : string * A -> Prop) (o : jsobj A) (k : string) (v : A) :
  Forall P o -> obj_get o k = Some v -> exists k', P (k', v).
Proof.
  intros Ho. induction Ho as [|[k0 v0] o H0 Ho IH]; simpl; [discriminate|].
  destruct (String.eqb k0 k); [|exact IH].
  intros E. injection E as <-. exists k0. exact H0.
Qed.

(** Adding a positive payment in cents to an entry. *)
Lemma addTo_ok (paid : jsobj Q) (k : string) (pay : Q) :
  paid_ok paid -> is_cents pay -> 0 < pay ->
  is_cents (addTo paid k pay) /\ 0 <= addTo paid k pay
  /\ (inherited k = false -> 0 < addTo paid k pay).
Proof.
  intros Hp Hc Hpos. unfold addTo, obj_or0.
  destruct (obj_get paid k) as [v|] eqn:E.
  - destruct (obj_get_Forall _ _ _ _ Hp E) as [k' [Hvc [Hv0 _]]]. simpl in Hvc, Hv0.
    unfold round2v. simpl.
    assert (Er : round2 (v + pay) == v + pay)
      by (apply round2_cents, is_cents_plus; assumption).
    split; [apply round2_is_cents|]. split; [|intros _]; rewrite Er; lra.
  - destruct (inherited k) eqn:Ei; unfold round2v; simpl.
    + split; [apply round2_is_cents|]. split; [|discriminate].
      apply round2_nonneg. lra.
    + assert (Er : round2 (0 + pay) == 0 + pay)
        by (apply round2_cents, is_cents_plus; [apply is_cents_0 | assumption]).
      split; [apply round2_is_cents|]. split; [|intros _]; rewrite Er; lra.
Qed.

Lemma paid_ok_add (paid : jsobj Q) (k : string) (pay : Q) :
  paid_ok paid -> is_cents pay -> 0 < pay ->
  paid_ok (obj_assign paid k (addTo paid k pay)).
Proof.
  intros Hp Hc Hpos. apply obj_assign_Forall; [exact Hp|].
  exact (addTo_ok paid k pay Hp Hc Hpos).
Qed.

(** A payment is capped by the balance and by the remaining funds, and what
    is left of both stays in whole cents. *)
Lemma payment_capped (x b rem : Q) :
  is_cents b -> is_cents rem -> x <= b -> x <= rem ->
  let pay := round2 x in
  is_cents pay /\ pay <= b /\ pay <= rem
  /\ round2 (b - pay) == b - pay /\ round2 (rem - pay) == rem - pay.
Proof.
  intros Hb Hr Hxb Hxr pay.
  assert (Hpc : is_cents pay) by apply round2_is_cents.
  assert (H1 : pay <= b).
  { unfold pay. rewrite <- (round2_cents b Hb). apply round2_mono. exact Hxb. }
  assert (H2 : pay <= rem).
  { unfold pay. rewrite <- (round2_cents rem Hr). apply round2_mono. exact Hxr. }
  repeat split; try assumption.
  - apply round2_cents. apply is_cents_minus; assumption.
  - apply round2_cents. apply is_cents_minus; assumption.
Qed.

Lemma payOne_ok month rb dyn (d : SimDebt) (acc : PayAcc) :
  debt_ok d -> funds_ok (a_remaining acc) (a_paidThisMonthByDebtId acc) ->
  let d' := fst (payOne month rb dyn d acc) in
  let acc' := snd (payOne month rb dyn d acc) in
  debt_ok d' /\ funds_ok (a_remaining acc') (a_paidThisMonthByDebtId acc')
  /\ s_id d' = s_id d.
Proof.
  intros [Hc [H0 Hr]] [Hrc [Hr0 Hp]]. unfold payOne.
  destruct (Qleb (s_balance d) EPS) eqn:E; simpl.
  { repeat split; try assumption; reflexivity. }
  destruct (obj_or0 dyn (propertyKey (s_id d))) as [dynamicMin|]; simpl.
  2: { unfold debt_ok, funds_ok. repeat split; assumption. }
  set (intended := match rb with
                   | Some _ => Qmax _ _
                   | None => _
                   end).
  assert (Hx1 : Math_min3 intended (s_balance d) (a_remaining acc) <= s_balance d).
  { unfold Math_min3. qminmax. lra. }
  assert (Hx2 : Math_min3 intended (s_balance d) (a_remaining acc) <= a_remaining acc).
  { unfold Math_min3. qminmax. lra. }
  destruct (payment_capped _ _ _ Hc Hrc Hx1 Hx2) as [Hpc [Hpb [Hpr [Eb Er]]]].
  destruct (Qltb 0 (round2 (Math_min3 intended (s_balance d) (a_remaining acc)))) eqn:Epay;
    simpl.
  - qbool.
    pose proof (paid_ok_add (a_paidThisMonthByDebtId acc) (propertyKey (s_id d)) _
                            Hp Hpc Epay) as Hp'.
    destruct (recordPayoff_fields month
                (set_balance d (round2 (s_balance d
                   - round2 (Math_min3 intended (s_balance d) (a_remaining acc))))))
      as [Fi [Fr [Fb _]]].
    unfold debt_ok, funds_ok. rewrite Fi, Fr, Fb. simpl.
    repeat split; try assumption.
    + apply round2_is_cents.
    + rewrite Eb. lra.
    + apply round2_is_cents.
    + rewrite Er. lra.
  - unfold debt_ok, funds_ok. repeat split; assumption.
Qed.

Lemma payRequired_ok month rb dyn (state : list SimDebt) :
  forall acc,
    state_ok state -> funds_ok (a_remaining acc) (a_paidThisMonthByDebtId acc) ->
    let r := payRequired month rb dyn state acc in
    state_ok (fst r)
    /\ funds_ok (a_remaining (snd r)) (a_paidThisMonthByDebtId (snd r))
    /\ map s_id (fst r) = map s_id state.
Proof.
  induction state as [|d rest IH]; intros acc Hst Hf.
  - simpl. repeat split; [constructor | apply Hf | apply Hf | apply Hf].
  - inversion Hst as [|? ? Hd Hrest]; subst.
    cbv zeta. rewrite payRequired_cons.
    destruct (payOne_ok month rb dyn d acc Hd Hf) as [Hd' [Hf' Hid]].
    destruct (payOne month rb dyn d acc) as [d' acc1]. simpl in Hd', Hf', Hid.
    specialize (IH acc1 Hrest Hf'). cbv zeta in IH.
    destruct (payRequired month rb dyn rest acc1) as [rest' acc']. simpl in *.
    destruct IH as [Hs [Hf2 Hids]].
    repeat split; try apply Hf2.
    + constructor; assumption.
    + congruence.
Qed.

(** ** The extra-targeting loop *)

Lemma DebtId_eqb_eq (a b : DebtId) : DebtId_eqb a b = true <-> a = b.
Proof.
  destruct a, b; simpl; split; intros H; try discriminate; try reflexivity.
  - apply N.eqb_eq in H. congruence.
  - injection H as ->. apply N.eqb_refl.
  - apply String.eqb_eq in H. congruence.
  - injection H as ->. apply String.eqb_refl.
Qed.

Lemma find_split (p : SimDebt -> bool) (state : list SimDebt) (t : SimDebt) :
  find p state = Some t ->
  exists l1 l2,
    state = l1 ++ t :: l2 /\ p t = true
    /\ forall f, updateFirst p f state = l1 ++ f t :: l2.
Proof.
  induction state as [|d rest IH]; simpl; [discriminate|].
  destruct (p d) eqn:E.
  - intros H. injection H as <-. exists [], rest. repeat split; assumption.
  - intros H. destruct (IH H) as [l1 [l2 [E1 [E2 E3]]]].
    exists (d :: l1), l2. subst rest. repeat split; try assumption.
    intros f. simpl. rewrite E3. reflexivity.
Qed.

(** What a pass that stays in the loop has done. *)
Lemma extraStep_inv strategy month (x x' : ExtraState) :
  extraStep strategy month x = Some x' ->
  exists targetId t,
    pickTargetId strategy (x_state x) = Some targetId
    /\ find (fun d => DebtId_eqb (s_id d) targetId) (x_state x) = Some t
    /\ EPS < s_balance t /\ EPS < x_remaining x
    /\ 0 < round2 (Qmin (s_balance t) (x_remaining x))
    /\ x' = extraPay month targetId (round2 (Qmin (s_balance t) (x_remaining x))) x.
Proof.
  unfold extraStep.
  destruct (Qltb EPS (x_remaining x)) eqn:Er; simpl; [|discriminate].
  destruct (negb (allPaid (x_state x))); [|discriminate].
  destruct (pickTargetId strategy (x_state x)) as [targetId|]; [|discriminate].
  destruct (find _ (x_state x)) as [t|] eqn:Ef; [|discriminate].
  destruct (Qleb (s_balance t) EPS) eqn:Eb; [discriminate|].
  destruct (Qleb (round2 (Qmin (s_balance t) (x_remaining x))) 0) eqn:Ep; [discriminate|].
  intros H. injection H as <-. qbool.
  exists targetId, t. repeat split; assumption.
Qed.

Lemma state_ok_app (l1 l2 : list SimDebt) :
  state_ok (l1 ++ l2) <-> state_ok l1 /\ state_ok l2.
Proof. apply Forall_app. Qed.

Lemma extraStep_ok strategy month (x x' : ExtraState) :
  state_ok (x_state x) -> funds_ok (x_remaining x) (x_paidThisMonthByDebtId x) ->
  extraStep strategy month x = Some x' ->
  state_ok (x_state x') /\ funds_ok (x_remaining x') (x_paidThisMonthByDebtId x')
  /\ map s_id (x_state x') = map s_id (x_state x).
Proof.
  intros Hst [Hrc [Hr0 Hp]] Hstep.
  destruct (extraStep_inv _ _ _ _ Hstep) as [tid [t [_ [Hfind [Hb [Hr [Hpay ->]]]]]]].
  destruct (find_split _ _ _ Hfind) as [l1 [l2 [E [Ept Eupd]]]].
  rewrite E in Hst. apply state_ok_app in Hst. destruct Hst as [H1 H2].
  inversion H2 as [|? ? [Hc [H0 Hrr]] H2']; subst.
  assert (Hx1 : Qmin (s_balance t) (x_remaining x) <= s_balance t) by apply Q.le_min_l.
  assert (Hx2 : Qmin (s_balance t) (x_remaining x) <= x_remaining x) by apply Q.le_min_r.
  destruct (payment_capped _ _ _ Hc Hrc Hx1 Hx2) as [Hpc [Hpb [Hpr [Eb Er]]]].
  unfold extraPay. simpl. rewrite Eupd. repeat split.
  - apply state_ok_app. split; [exact H1|]. constructor; [|exact H2'].
    destruct (recordPayoff_fields month
                (set_balance t (round2 (s_balance t
                   - round2 (Qmin (s_balance t) (x_remaining x)))))) as [Fi [Fr [Fb _]]].
    unfold debt_ok. rewrite Fr, Fb. simpl. repeat split.
    + apply round2_is_cents.
    + rewrite Eb. lra.
    + exact Hrr.
  - apply round2_is_cents.
  - rewrite Er. lra.
  - apply paid_ok_add; assumption.
  - rewrite E, !map_app. simpl.
    destruct (recordPayoff_fields month
                (set_balance t (round2 (s_balance t
                   - round2 (Qmin (s_balance t) (x_remaining x)))))) as [Fi _].
    rewrite Fi. reflexivity.
Qed.

(** A pass either exhausts the funds or retires its target. *)
Lemma extraStep_progress strategy month (x x' : ExtraState) :
  extraStep strategy month x = Some x' ->
  x_remaining x' <= EPS
  \/ (activeCount (x_state x') < activeCount (x_state x))%nat.
Proof.
  intros Hstep.
  destruct (extraStep_inv _ _ _ _ Hstep) as [tid [t [_ [Hfind [Hb [Hr [Hpay ->]]]]]]].
  destruct (find_split _ _ _ Hfind) as [l1 [l2 [E [Ept Eupd]]]].
  unfold extraPay. simpl. rewrite Eupd.
  destruct (Q.min_spec (s_balance t) (x_remaining x)) as [[Hlt Em]|[Hle Em]].
  - right. rewrite E. unfold activeCount. rewrite !filter_app, !length_app. simpl.
    assert (A1 : isActive t = true) by (apply Qltb_true; exact Hb).
    assert (A2 : isActive (recordPayoff month
                             (set_balance t (round2 (s_balance t
                                - round2 (Qmin (s_balance t) (x_remaining x)))))) = false).
    { apply Qltb_false.
      destruct (recordPayoff_fields month
                  (set_balance t (round2 (s_balance t
                     - round2 (Qmin (s_balance t) (x_remaining x)))))) as [_ [_ [Fb _]]].
      rewrite Fb. simpl. rewrite (round2_proper _ _ Em).
      rewrite round2_sub_self. unfold EPS, Qle; simpl; lia. }
    rewrite A1, A2. simpl. lia.
  - left. rewrite (round2_proper _ _ Em). rewrite round2_sub_self.
    unfold EPS, Qle; simpl; lia.
Qed.

Lemma extraStep_exhausted strategy month (x : ExtraState) :
  x_remaining x <= EPS -> extraStep strategy month x = None.
Proof.
  intros H. unfold extraStep. apply Qltb_false in H. rewrite H. reflexivity.
Qed.

(** The fuel of [extraLoop] is enough: with more passes than active debts
    the loop is left by its own exit. *)
Lemma extraLoop_exit strategy month (fuel : nat) :
  forall x,
    (activeCount (x_state x) < fuel)%nat ->
    extraStep strategy month (extraLoop strategy month fuel x) = None.
Proof.
  induction fuel as [|fuel IH]; intros x Hlt; [lia|].
  simpl. destruct (extraStep strategy month x) as [x'|] eqn:E; [|exact E].
  destruct (extraStep_progress _ _ _ _ E) as [Hr|Hc].
  - pose proof (extraStep_exhausted strategy month x' Hr) as En.
    destruct fuel as [|fuel']; simpl; [exact En|]. rewrite En. exact En.
  - apply IH. lia.
Qed.

Lemma activeCount_le (state : list SimDebt) :
  (activeCount state <= List.length state)%nat.
Proof. unfold activeCount. apply filter_length_le. Qed.

(** X27: the extra-targeting loop of a month terminates within the fuel
    [monthPayments] gives it (one pass more than there are debts), and more
    fuel changes nothing. *)
Theorem extraLoop_terminates strategy month (x : ExtraState) :
  extraStep strategy month
            (extraLoop strategy month (S (List.length (x_state x))) x) = None
  /\ forall more,
      extraLoop strategy month (S (List.length (x_state x)) + more) x
      = extraLoop strategy month (S (List.length (x_state x))) x.
Proof.
  assert (Hexit : forall fuel y, (activeCount (x_state y) < fuel)%nat ->
                    forall more, extraLoop strategy month (fuel + more) y
                                 = extraLoop strategy month fuel y).
  { induction fuel as [|fuel IH]; intros y Hlt more; [lia|].
    simpl. destruct (extraStep strategy month y) as [y'|] eqn:E; [|reflexivity].
    destruct (extraStep_progress _ _ _ _ E) as [Hr|Hc].
    - pose proof (extraStep_exhausted strategy month y' Hr) as En.
      destruct fuel as [|fuel']; simpl.
      + destruct more; simpl; [reflexivity | rewrite En; reflexivity].
      + rewrite En. reflexivity.
    - apply IH. lia. }
  pose proof (activeCount_le (x_state x)) as Hle.
  split.
  - apply extraLoop_exit. lia.
  - apply Hexit. lia.
Qed.

Lemma extraLoop_ok strategy month (fuel : nat) :
  forall x,
    state_ok (x_state x) -> funds_ok (x_remaining x) (x_paidThisMonthByDebtId x) ->
    let x' := extraLoop strategy month fuel x in
    state_ok (x_state x') /\ funds_ok (x_remaining x') (x_paidThisMonthByDebtId x')
    /\ map s_id (x_state x') = map s_id (x_state x).
Proof.
  induction fuel as [|fuel IH]; intros x Hst Hf; simpl.
  - repeat split; try assumption; apply Hf.
  - destruct (extraStep strategy month x) as [x1|] eqn:E.
    + destruct (extraStep_ok _ _ _ _ Hst Hf E) as [Hst1 [Hf1 Hid1]].
      destruct (IH x1 Hst1 Hf1) as [Hst' [Hf' Hid']].
      repeat split; try assumption; try apply Hf'. congruence.
    + repeat split; try assumption; apply Hf.
Qed.

(** ** A whole month *)

Lemma monthRequired_unfold month plan state :
  monthRequired month plan state
  = (fst (payRequired month (match plan with
                             | Some p => p_requiredByDebtId p
                             | None => None
                             end)
                      (dynamicMinimums (map accrueDebt state) [])
                      (map accrueDebt state)
                      (mkPayAcc (round2 (paymentOf plan)) 0 0 0 [])),
     snd (accrueInterest state 0),
     snd (payRequired month (match plan with
                             | Some p => p_requiredByDebtId p
                             | None => None
                             end)
                      (dynamicMinimums (map accrueDebt state) [])
                      (map accrueDebt state)
                      (mkPayAcc (round2 (paymentOf plan)) 0 0 0 []))).
Proof.
  unfold monthRequired. rewrite <- (accrueInterest_map state 0).
  destruct (accrueInterest state 0) as [state1 total]. simpl.
  destruct (payRequired _ _ _ state1 _) as [state2 acc]. reflexivity.
Qed.

Lemma start_funds_ok (plan : option Plan) : funds_ok (round2 (paymentOf plan)) [].
Proof.
  unfold funds_ok, paid_ok. repeat split.
  - apply round2_is_cents.
  - apply round2_nonneg. unfold paymentOf. apply Q.le_max_l.
  - constructor.
Qed.

(** Through a month the balances stay non-negative amounts in cents, and the
    ids of the debts stay what they are. *)
Lemma monthPayments_ok strategy month plan (state : list SimDebt) :
  state_ok state ->
  let x := fst (fst (monthPayments strategy month plan state)) in
  let acc := snd (monthPayments strategy month plan state) in
  state_ok (map accrueDebt state)
  /\ state_ok (fst (fst (monthRequired month plan state)))
  /\ state_ok (x_state x)
  /\ funds_ok (x_remaining x) (x_paidThisMonthByDebtId x)
  /\ map s_id (x_state x) = map s_id state.
Proof.
  intros Hst. cbv zeta. unfold monthPayments. rewrite monthRequired_unfold.
  pose proof (accrue_state_ok state Hst) as H1.
  destruct (payRequired_ok month
              (match plan with Some p => p_requiredByDebtId p | None => None end)
              (dynamicMinimums (map accrueDebt state) []) (map accrueDebt state)
              (mkPayAcc (round2 (paymentOf plan)) 0 0 0 []) H1 (start_funds_ok plan))
    as [H2 [Hf2 Hid2]].
  destruct (payRequired _ _ _ (map accrueDebt state) _) as [state2 acc]. simpl in *.
  destruct (extraLoop_ok strategy month (S (List.length state2))
              (mkExtra state2 (a_remaining acc) 0 [] (a_paidThisMonthByDebtId acc))
              H2 Hf2) as [H3 [Hf3 Hid3]].
  simpl in Hid3.
  repeat split; try assumption; try apply Hf3.
  rewrite Hid3, Hid2, map_map. apply map_ext. intros d.
  apply accrueDebt_ok_id.
Qed.

Lemma simulateMonth_state strategy month plan state ti :
  fst (fst (simulateMonth strategy month plan state ti))
  = x_state (fst (fst (monthPayments strategy month plan state))).
Proof.
  unfold simulateMonth.
  destruct (monthPayments strategy month plan state) as [[x i] acc].
  destruct (actualTarget (x_paidThisMonthByDebtId x)). reflexivity.
Qed.

(** A run enters each month with a well-formed state, and the ids of the
    debts it was given. *)
Lemma loopAt_ok strategy fn (debts : list Debt) (month : nat) st ti tl :
  loopAt strategy fn (initState debts) month = Some (st, ti, tl) ->
  state_ok st /\ map s_id st = map d_id debts.
Proof.
  destruct month as [|m]; [discriminate|].
  revert st ti tl. induction m as [|m IH]; intros st ti tl H.
  - injection H as <- <- <-. split; [apply initState_ok|].
    unfold initState. rewrite map_map. reflexivity.
  - destruct (loopAt_next _ _ _ _ _ _ _ H)
      as [st0 [ti0 [tl0 [e [H0 [_ [_ [_ [Es _]]]]]]]]].
    destruct (IH _ _ _ H0) as [Hok Hids].
    pose proof (simulateMonth_state strategy (S m) (fn (S m)) st0 ti0) as Est.
    rewrite Es in Est. cbn [fst] in Est.
    destruct (monthPayments_ok strategy (S m) (fn (S m)) st0 Hok) as [_ [_ [H3 [_ Hid]]]].
    rewrite <- Est in H3, Hid. split; [exact H3 | congruence].
Qed.

(** ** Balances and payments *)

(** Over exact amounts the passes of a month keep every balance
    non-negative: the payments are capped by the balance
    ([Math.min(intended, d.balance, remaining)]). *)
Lemma balances_nonneg_exact strategy debts paymentPlanFn (month : nat)
      state totalInterest timeline :
  loopAt strategy paymentPlanFn (initState debts) month
  = Some (state, totalInterest, timeline) ->
  let x := fst (fst (monthPayments strategy month (paymentPlanFn month) state)) in
  Forall (fun d => 0 <= s_balance d) state
  /\ Forall (fun d => 0 <= s_balance d) (x_state x).
Proof.
  intros Hat. cbv zeta.
  destruct (loopAt_ok _ _ _ _ _ _ _ Hat) as [Hok _].
  destruct (monthPayments_ok strategy month (paymentPlanFn month) state Hok)
    as [_ [_ [H3 _]]].
  split; [eapply Forall_impl; [|exact Hok] | eapply Forall_impl; [|exact H3]];
    intros d Hd; apply Hd.
Qed.

(** C4 on the numbers of the program.  A line of credit of 41961928307790 at
    0.1875%, funded with 140737488355328 a month, in binary64: month 1 accrues
    an interest of 6556551298.09, after which the debt owes
    41968484859088.102; the required and the extra payment of the month add up
    to 41968484859088.117, more than the debt owes, and leave a balance of
    -0.01, with which the run ends after that month.  [round2] moves an
    amount of that size, already rounded, up by a cent when it rounds it
    again. *)
Theorem binary64_balance_below_zero :
  let debts := [Binary64.lineOfCredit 41961928307790 0.1875] in
  let plan := Binary64.fixedPlanFn 140737488355328 in
  map Binary64.s_balance (Binary64.initState debts) = [41961928307790%float]
  /\ option_map
       (fun r => (map Binary64.s_balance (fst (fst r)),
                  map Binary64.s_interestPaid (fst (fst r)),
                  snd r,
                  map Binary64.s_balance (snd (fst r))))
       (Binary64.simulateMonth "snowball" 1 (plan 1%nat) (Binary64.initState debts))
     = Some ([41968484859088.102%float], [6556551298.09%float],
             [("0"%string, 41968484859088.117%float)], [(-0.01)%float])
  /\ (41968484859088.102 <? 41968484859088.117)%float = true
  /\ (41961928307790 + 6556551298.09 <? 41968484859088.117)%float = true
  /\ (-0.01 <? 0)%float = true
  /\ option_map (fun r => (map Binary64.s_balance (fst r), snd r))
                (Binary64.runMonths "snowball" debts plan)
     = Some ([(-0.01)%float], 1%nat).
Proof. vm_compute. repeat split. Qed.

(** The same at 0%: a line of credit of 41961928307790.125 enters the month
    with a balance of 41961928307790.133, accrues nothing, and is paid
    41961928307790.141. *)
Example binary64_paid_above_balance :
  let debts := [Binary64.lineOfCredit 41961928307790.125 0] in
  let plan := Binary64.fixedPlanFn 140737488355328 in
  map Binary64.s_balance (Binary64.initState debts) = [41961928307790.133%float]
  /\ option_map (fun r => (map Binary64.s_interestPaid (fst (fst r)), snd r))
       (Binary64.simulateMonth "snowball" 1 (plan 1%nat) (Binary64.initState debts))
     = Some ([0%float], [("0"%string, 41961928307790.141%float)])
  /\ (41961928307790.133 <? 41961928307790.141)%float = true.
Proof. vm_compute. repeat split. Qed.

(** [round2] in binary64 at amounts the statements above turn on. *)
Example binary64_round2 :
  Binary64.round2 2.135 = 2.13%float
  /\ Binary64.round2 41961928307790.125 = 41961928307790.133%float
  /\ Binary64.round2 41961928307790.133 = 41961928307790.141%float
  /\ Binary64.round2 1500 = 1500%float.
Proof. vm_compute. repeat split. Qed.

(** ** [Number] of the key of a number id *)

Lemma isDigit_range (c : N) : isDigit c = true <-> (48 <= c <= 57)%N.
Proof.
  unfold isDigit. rewrite andb_true_iff, !N.leb_le. tauto.
Qed.

Lemma digit_not_whiteSpace (c : N) (t : list N) :
  isDigit c = true -> dropWhiteSpace (c :: t) = None.
Proof.
  intros H. apply isDigit_range in H. unfold dropWhiteSpace.
  destruct (N.eqb_spec c 32); [lia|].
  destruct (N.leb_spec 9 c); [|lia].
  destruct (N.leb_spec c 13); [lia|]. simpl.
  destruct t as [|c2 t2]; [reflexivity|].
  destruct (N.eqb_spec c 194); [lia|]. simpl.
  destruct t2 as [|c3 t3]; [reflexivity|].
  destruct (N.eqb_spec c 225); [lia|].
  destruct (N.eqb_spec c 226); [lia|].
  destruct (N.eqb_spec c 227); [lia|].
  destruct (N.eqb_spec c 239); [lia|]. reflexivity.
Qed.

Lemma digit_not_whiteSpaceRev (c : N) (t : list N) :
  isDigit c = true -> dropWhiteSpaceRev (c :: t) = None.
Proof.
  intros H. apply isDigit_range in H. unfold dropWhiteSpaceRev.
  destruct (N.eqb_spec c 32); [lia|].
  destruct (N.leb_spec 9 c); [|lia].
  destruct (N.leb_spec c 13); [lia|]. simpl.
  destruct t as [|c2 t2]; [reflexivity|].
  destruct (N.eqb_spec c 160); [lia|]. rewrite andb_false_r.
  destruct t2 as [|c3 t3]; [reflexivity|].
  unfold dropWhiteSpace.
  destruct ((9 <=? c3)%N && (c3 <=? 13)%N || (c3 =? 32)%N); [reflexivity|].
  destruct ((c3 =? 194)%N && (c2 =? 160)%N); [reflexivity|].
  destruct (N.eqb_spec c 128); [lia|].
  destruct (N.leb_spec 128 c); [lia|].
  destruct (N.eqb_spec c 168); [lia|].
  destruct (N.eqb_spec c 169); [lia|].
  destruct (N.eqb_spec c 175); [lia|].
  destruct (N.eqb_spec c 159); [lia|].
  destruct (N.eqb_spec c 191); [lia|].
  simpl. rewrite !andb_false_r. reflexivity.
Qed.

Lemma dropWhiteSpace_shorter (l t : list N) :
  dropWhiteSpace l = Some t -> (List.length t < List.length l)%nat.
Proof.
  unfold dropWhiteSpace.
  destruct l as [|c1 [|c2 [|c3 t3]]]; try discriminate;
    repeat match goal with
           | |- (if ?b then _ else _) = _ -> _ => destruct b
           end;
    intros H; try discriminate; injection H as <-; simpl; lia.
Qed.

Lemma dropWhiteSpaceRev_shorter (l t : list N) :
  dropWhiteSpaceRev l = Some t -> (List.length t < List.length l)%nat.
Proof.
  unfold dropWhiteSpaceRev.
  destruct l as [|c1 [|c2 [|c3 t3]]]; try discriminate;
    repeat match goal with
           | |- (if ?b then _ else _) = _ -> _ => destruct b
           | |- match ?o with Some _ => _ | None => _ end = _ -> _ => destruct o as [[|? ?]|]
           end;
    intros H; try discriminate; injection H as <-; simpl; lia.
Qed.

(** The fuel of [trimBytes] is enough: when [dropAll] stops there is no
    white space left to drop. *)
Lemma dropAll_exit (drop : list N -> option (list N)) :
  drop [] = None ->
  (forall l t, drop l = Some t -> (List.length t < List.length l)%nat) ->
  forall fuel l, (List.length l <= fuel)%nat -> drop (dropAll drop fuel l) = None.
Proof.
  intros Hnil Hshort. induction fuel as [|fuel IH]; intros l Hl; simpl.
  - destruct l; [exact Hnil | simpl in Hl; lia].
  - destruct (drop l) as [t|] eqn:E; [|exact E].
    apply IH. specialize (Hshort l t E). lia.
Qed.

Lemma trimBytes_exit (l : list N) :
  dropWhiteSpace (dropAll dropWhiteSpace (List.length l) l) = None
  /\ dropWhiteSpaceRev (rev (trimBytes l)) = None.
Proof.
  split.
  - apply dropAll_exit; [reflexivity | apply dropWhiteSpace_shorter | lia].
  - unfold trimBytes. rewrite rev_involutive.
    apply dropAll_exit; [reflexivity | apply dropWhiteSpaceRev_shorter|].
    rewrite length_rev. lia.
Qed.

Lemma dropAll_head (drop : list N -> option (list N)) (fuel : nat) (l : list N) :
  drop l = None -> dropAll drop fuel l = l.
Proof. intros H. destruct fuel; simpl; [reflexivity|]. rewrite H. reflexivity. Qed.

Lemma Forall_last_rev {A : Type} (P : A -> Prop) (l : list A) :
  Forall P l -> Forall P (rev l).
Proof. intros H. apply Forall_forall. intros x Hx. apply in_rev in Hx.
       revert x Hx. apply Forall_forall. exact H. Qed.

(** A string of digits has no white space to trim. *)
Lemma trimBytes_digits (l : list N) :
  Forall (fun c => isDigit c = true) l -> trimBytes l = l.
Proof.
  intros H. unfold trimBytes.
  assert (E1 : dropAll dropWhiteSpace (List.length l) l = l).
  { destruct H as [|c t Hc Ht]; [destruct (List.length []); reflexivity|].
    apply dropAll_head. apply digit_not_whiteSpace. exact Hc. }
  rewrite E1.
  assert (E2 : dropAll dropWhiteSpaceRev (List.length l) (rev l) = rev l).
  { pose proof (Forall_last_rev _ _ H) as Hr.
    destruct (rev l) as [|c t] eqn:Er; [destruct (List.length l); reflexivity|].
    apply dropAll_head. apply digit_not_whiteSpaceRev. inversion Hr; assumption. }
  rewrite E2. apply rev_involutive.
Qed.

Lemma spanDigits_digits (l : list N) :
  Forall (fun c => isDigit c = true) l -> spanDigits l = (l, []).
Proof.
  induction 1 as [|c t Hc Ht IH]; simpl; [reflexivity|].
  rewrite Hc, IH. reflexivity.
Qed.

Lemma uint_bytes (u : Decimal.uint) :
  Forall (fun c => isDigit c = true) (bytes (NilEmpty.string_of_uint u)).
Proof.
  unfold bytes. induction u; simpl; constructor; try reflexivity; assumption.
Qed.

Lemma digits_acc (u : Decimal.uint) :
  forall acc : positive,
    fold_left (fun a c => (a * 10 + (c - 48))%N) (bytes (NilEmpty.string_of_uint u))
              (Npos acc)
    = Npos (Pos.of_uint_acc u acc).
Proof.
  unfold bytes.
  induction u; intros acc;
    cbn [NilEmpty.string_of_uint list_ascii_of_string map fold_left Pos.of_uint_acc];
    [reflexivity| | | | | | | | | |];
    rewrite <- IHu; f_equal;
    match goal with
    | |- context [N_of_ascii ?c] =>
      let v := eval vm_compute in (N_of_ascii c) in change (N_of_ascii c) with v
    end; lia.
Qed.

Lemma digitsValue_uint (u : Decimal.uint) :
  digitsValue (bytes (NilEmpty.string_of_uint u)) = N.of_uint u.
Proof.
  unfold digitsValue, N.of_uint.
  induction u;
    [reflexivity | exact IHu | | | | | | | | |];
    cbn [Pos.of_uint]; rewrite <- digits_acc; reflexivity.
Qed.

Lemma N_toString_bytes (n : N) :
  Forall (fun c => isDigit c = true) (bytes (N_toString n))
  /\ bytes (N_toString n) <> []
  /\ digitsValue (bytes (N_toString n)) = n.
Proof.
  unfold N_toString. repeat split.
  - apply uint_bytes.
  - destruct n as [|p]; [discriminate|].
    simpl. pose proof (DecimalPos.Unsigned.to_uint_nonnil p) as Hn.
    destruct (Pos.to_uint p); [congruence | | | | | | | | | |]; discriminate.
  - rewrite digitsValue_uint. apply DecimalN.Unsigned.of_to.
Qed.

Lemma parseUnsignedDecimal_digits (l : list N) :
  Forall (fun c => isDigit c = true) l -> l <> [] ->
  parseUnsignedDecimal l = JNum (QofN (digitsValue l)).
Proof.
  intros H Hne. unfold parseUnsignedDecimal.
  assert (Ei : bytes_eqb l Infinity_bytes = false).
  { unfold bytes_eqb. destruct (list_eq_dec N.eq_dec l Infinity_bytes) as [E|E]; [|reflexivity].
    subst l. inversion H as [|? ? Hc _]. discriminate Hc. }
  rewrite Ei, (spanDigits_digits l H).
  destruct l; [congruence | reflexivity].
Qed.

Lemma parseNumeric_digits (l : list N) :
  Forall (fun c => isDigit c = true) l -> l <> [] ->
  parseNumeric l = JNum (QofN (digitsValue l)).
Proof.
  intros H Hne. unfold parseNumeric.
  destruct l as [|c1 [|c2 ds]]; [congruence | apply parseUnsignedDecimal_digits; assumption |].
  inversion H as [|? ? H1 H']; subst. inversion H' as [|? ? H2 _]; subst.
  apply isDigit_range in H1, H2.
  destruct (N.eqb_spec c2 120); [lia|].
  destruct (N.eqb_spec c2 88); [lia|].
  destruct (N.eqb_spec c2 111); [lia|].
  destruct (N.eqb_spec c2 79); [lia|].
  destruct (N.eqb_spec c2 98); [lia|].
  destruct (N.eqb_spec c2 66); [lia|].
  destruct (N.eqb_spec c1 43); [lia|].
  destruct (N.eqb_spec c1 45); [lia|].
  simpl. rewrite !andb_false_r.
  apply parseUnsignedDecimal_digits; assumption.
Qed.

Lemma Qred_QofN (n : N) : Qred (QofN n) = QofN n.
Proof.
  unfold QofN, inject_Z, Qred. simpl.
  pose proof (Z.ggcd_gcd (Z.of_N n) 1) as Hg.
  pose proof (Z.ggcd_correct_divisors (Z.of_N n) 1) as Hd.
  destruct (Z.ggcd (Z.of_N n) 1) as [g [a b]]. simpl in *.
  rewrite Z.gcd_1_r in Hg. subst g. destruct Hd as [Ha Hb].
  assert (a = Z.of_N n) by lia. assert (b = 1%Z) by lia. subst. reflexivity.
Qed.

(** The rounding of [Number] leaves an integer below 2^53 as it is. *)
Lemma jsnum_norm_QofN (n : N) :
  (n < 2 ^ 53)%N -> jsnum_norm (JNum (QofN n)) = JNum (QofN n).
Proof.
  intros Hn. change (2 ^ 53)%N with 9007199254740992%N in Hn.
  destruct n as [|p]; [reflexivity|].
  unfold jsnum_norm.
  assert (Ea : Qabs (QofN (Npos p)) = QofN (Npos p)) by reflexivity.
  rewrite Ea.
  destruct (Qle_bool overflowBound (QofN (Npos p))) eqn:E1.
  { exfalso. apply Qle_bool_iff in E1.
    unfold overflowBound, QofN, Qle, inject_Z in E1. cbn [Qnum Qden] in E1.
    change (Z.of_N (Npos p)) with (Zpos p) in E1.
    assert (Hb : (9007199254740992 < 2 ^ 1024 - 2 ^ 970)%Z) by (vm_compute; reflexivity).
    lia. }
  destruct (Qle_bool (QofN (Npos p)) underflowBound) eqn:E2.
  { exfalso. apply Qle_bool_iff in E2.
    unfold underflowBound, QofN, Qle, inject_Z in E2. cbn [Qnum Qden] in E2.
    change (Z.of_N (Npos p)) with (Zpos p) in E2.
    assert (Hb : (1 < Zpos (2 ^ 1075))%Z) by (vm_compute; reflexivity).
    nia. }
  rewrite Qred_QofN. reflexivity.
Qed.

(** [Number(String(n)) = n] for a number id [n]. *)
Lemma Number_of_N_toString (n : N) :
  (n < 2 ^ 53)%N -> Number_of_string (N_toString n) = JNum (QofN n).
Proof.
  intros Hn. destruct (N_toString_bytes n) as [Hd [Hne Hv]].
  unfold Number_of_string. rewrite (trimBytes_digits _ Hd).
  destruct (bytes (N_toString n)) as [|c l] eqn:E; [congruence|].
  rewrite parseNumeric_digits by (assumption || discriminate).
  rewrite Hv. apply jsnum_norm_QofN. exact Hn.
Qed.

(** The key of a number id is no name of [Object.prototype]. *)
Lemma inherited_N_toString (n : N) : inherited (N_toString n) = false.
Proof.
  destruct (N_toString_bytes n) as [Hd [Hne _]].
  destruct (N_toString n) as [|a s] eqn:E; [reflexivity|].
  unfold bytes in Hd. simpl in Hd. inversion Hd as [|? ? Ha _]; subst.
  apply isDigit_range in Ha.
  unfold inherited, Object_prototype. simpl.
  destruct a as [b0 b1 b2 b3 b4 b5 b6 b7].
  destruct b0, b1, b2, b3, b4, b5, b6, b7; simpl in Ha; try (exfalso; lia);
    reflexivity.
Qed.

Lemma QofN_inj (n m : N) : Qeq_bool (QofN n) (QofN m) = true <-> n = m.
Proof.
  rewrite Qeq_bool_iff. unfold QofN. split.
  - intros H. unfold Qeq, inject_Z in H. simpl in H. lia.
  - intros ->. reflexivity.
Qed.

(** ** The reported target *)

Lemma payOne_keys (K : string -> Prop) month rb dyn (d : SimDebt) (acc : PayAcc) :
  keys_in K (a_paidThisMonthByDebtId acc) -> K (simKey d) ->
  keys_in K (a_paidThisMonthByDebtId (snd (payOne month rb dyn d acc))).
Proof.
  intros Hk Hd. unfold payOne.
  destruct (Qleb (s_balance d) EPS); [exact Hk|].
  destruct (obj_or0 dyn (propertyKey (s_id d))); [|exact Hk].
  destruct (Qltb 0 _); simpl; [|exact Hk].
  apply obj_assign_Forall; [exact Hk | exact Hd].
Qed.

Lemma payRequired_keys (K : string -> Prop) month rb dyn (state : list SimDebt) :
  forall acc,
    keys_in K (a_paidThisMonthByDebtId acc) ->
    Forall (fun d => K (simKey d)) state ->
    keys_in K (a_paidThisMonthByDebtId (snd (payRequired month rb dyn state acc))).
Proof.
  induction state as [|d rest IH]; intros acc Hk Hst; [exact Hk|].
  inversion Hst as [|? ? Hd Hrest]; subst.
  rewrite payRequired_cons.
  pose proof (payOne_keys K month rb dyn d acc Hk Hd) as H1.
  destruct (payOne month rb dyn d acc) as [d' acc1]. simpl in H1.
  specialize (IH acc1 H1 Hrest).
  destruct (payRequired month rb dyn rest acc1) as [rest' acc']. exact IH.
Qed.

Lemma extraStep_keys (K : string -> Prop) strategy month (x x' : ExtraState) :
  keys_in K (x_paidThisMonthByDebtId x) ->
  Forall (fun d => K (simKey d)) (x_state x) ->
  extraStep strategy month x = Some x' ->
  keys_in K (x_paidThisMonthByDebtId x')
  /\ Forall (fun d => K (simKey d)) (x_state x').
Proof.
  intros Hk Hst Hstep.
  destruct (extraStep_inv _ _ _ _ Hstep) as [tid [t [_ [Hfind [Hb [Hr [Hpay ->]]]]]]].
  destruct (find_split _ _ _ Hfind) as [l1 [l2 [E [Ept Eupd]]]].
  apply DebtId_eqb_eq in Ept.
  rewrite E in Hst. apply Forall_app in Hst. destruct Hst as [H1 H2].
  inversion H2 as [|? ? Ht H2']; subst.
  unfold extraPay. simpl. rewrite Eupd. split.
  - apply obj_assign_Forall; [exact Hk|]. simpl. exact Ht.
  - apply Forall_app. split; [exact H1|]. constructor; [|exact H2'].
    destruct (recordPayoff_fields month
                (set_balance t (round2 (s_balance t
                   - round2 (Qmin (s_balance t) (x_remaining x)))))) as [Fi _].
    unfold simKey in *. rewrite Fi. exact Ht.
Qed.

Lemma extraLoop_keys (K : string -> Prop) strategy month (fuel : nat) :
  forall x,
    keys_in K (x_paidThisMonthByDebtId x) ->
    Forall (fun d => K (simKey d)) (x_state x) ->
    keys_in K (x_paidThisMonthByDebtId (extraLoop strategy month fuel x)).
Proof.
  induction fuel as [|fuel IH]; intros x Hk Hst; simpl; [exact Hk|].
  destruct (extraStep strategy month x) as [x1|] eqn:E; [|exact Hk].
  destruct (extraStep_keys K _ _ _ _ Hk Hst E) as [Hk1 Hst1].
  apply IH; assumption.
Qed.

(** The keys of [paidThisMonthByDebtId] are keys of debts of the state, and
    its amounts are positive. *)
Lemma monthPayments_paid strategy month plan (state : list SimDebt) :
  state_ok state ->
  let x := fst (fst (monthPayments strategy month plan state)) in
  keys_in (fun k => In k (map simKey state)) (x_paidThisMonthByDebtId x)
  /\ paid_ok (x_paidThisMonthByDebtId x).
Proof.
  intros Hst. cbv zeta.
  destruct (monthPayments_ok strategy month plan state Hst) as [_ [_ [_ [[_ [_ Hp]] _]]]].
  split; [|exact Hp].
  unfold monthPayments. rewrite monthRequired_unfold.
  set (K := fun k => In k (map simKey state)).
  assert (Hk1 : Forall (fun d => K (simKey d)) (map accrueDebt state)).
  { apply Forall_forall. intros d Hd. apply in_map_iff in Hd. destruct Hd as [d0 [<- Hd0]].
    unfold K, simKey. rewrite accrueDebt_ok_id. apply (in_map simKey). exact Hd0. }
  set (rb := match plan with Some p => p_requiredByDebtId p | None => None end).
  set (dyn := dynamicMinimums (map accrueDebt state) []).
  set (acc0 := mkPayAcc (round2 (paymentOf plan)) 0 0 0 []).
  pose proof (payRequired_keys K month rb dyn (map accrueDebt state) acc0
                (Forall_nil _) Hk1) as Hk2.
  destruct (payRequired_ok month rb dyn (map accrueDebt state) acc0
              (accrue_state_ok state Hst) (start_funds_ok plan)) as [_ [_ Hid2]].
  destruct (payRequired month rb dyn (map accrueDebt state) acc0) as [state2 acc].
  cbn [fst snd] in *.
  apply extraLoop_keys; [exact Hk2|]. simpl.
  assert (Hkeys : map simKey state2 = map simKey (map accrueDebt state)).
  { replace (map simKey state2) with (map propertyKey (map s_id state2))
      by (rewrite map_map; reflexivity).
    rewrite Hid2, map_map. reflexivity. }
  apply Forall_forall. intros d Hd.
  assert (Hin : In (simKey d) (map simKey (map accrueDebt state)))
    by (rewrite <- Hkeys; apply in_map; exact Hd).
  apply in_map_iff in Hin. destruct Hin as [d1 [E1 Hd1]].
  rewrite <- E1. exact (proj1 (Forall_forall _ _) Hk1 d1 Hd1).
Qed.

Lemma insertIndexed_In {A : Type} (x y : N * (string * A)) (l : list (N * (string * A))) :
  In y (insertIndexed x l) <-> y = x \/ In y l.
Proof.
  induction l as [|z l IH]; simpl; [intuition|].
  destruct (fst x <=? fst z)%N; simpl; [intuition|]. rewrite IH. intuition.
Qed.

Lemma sortedIndexed_In {A : Type} (y : N * (string * A)) (l : list (N * (string * A))) :
  In y (fold_right insertIndexed [] l) <-> In y l.
Proof.
  induction l as [|x l IH]; simpl; [tauto|].
  rewrite insertIndexed_In, IH. intuition.
Qed.

(** [Object.entries] lists exactly the properties of the object. *)
Lemma Object_entries_In {A : Type} (o : jsobj A) (e : string * A) :
  In e (Object_entries o) <-> In e o.
Proof.
  unfold Object_entries. rewrite in_app_iff, in_map_iff, filter_In. split.
  - intros [[[n e'] [E H]]|[H _]]; [|exact H].
    simpl in E. subst e'. apply (proj1 (sortedIndexed_In _ _)) in H.
    unfold indexedEntries in H. apply (proj1 (in_flat_map _ _ _)) in H.
    destruct H as [e0 [H0 H1]].
    destruct (arrayIndex (fst e0)); [|contradiction].
    destruct H1 as [H1|[]]. injection H1 as _ <-. exact H0.
  - intros H. destruct (arrayIndex (fst e)) as [n|] eqn:En.
    + left. exists (n, e). split; [reflexivity|].
      apply sortedIndexed_In. unfold indexedEntries. apply in_flat_map.
      exists e. split; [exact H|]. rewrite En. left. reflexivity.
    + right. split; [exact H | reflexivity].
Qed.

(** The loop over the entries ends on the first largest amount above its
    start, or where it started. *)
Lemma targetLoop_spec (entries : list (string * Q)) :
  forall acc,
    (fold_left targetStep entries acc = acc
     /\ forall e, In e entries -> snd e <= snd acc)
    \/ exists k amt,
        firstLargest entries k amt /\ snd acc < amt
        /\ fold_left targetStep entries acc = (Some (Number_of_string k), amt).
Proof.
  induction entries as [|e l IH]; intros acc; simpl.
  - left. split; [reflexivity | intros e []].
  - destruct (Qltb (snd acc) (snd e)) eqn:E.
    + assert (Es : targetStep acc e = (Some (Number_of_string (fst e)), snd e))
        by (unfold targetStep; rewrite E; reflexivity).
      rewrite Es. qbool.
      destruct (IH (Some (Number_of_string (fst e)), snd e))
        as [[Hf Hle]|[k [amt [[l1 [l2 [El [H1 H2]]]] [Hlt Hf]]]]].
      * right. exists (fst e), (snd e). split; [|split; [exact E | exact Hf]].
        exists [], l. split; [destruct e; reflexivity|].
        split; [intros e0 [] | exact Hle].
      * right. exists k, amt. simpl in Hlt. split; [|split; [lra | exact Hf]].
        exists (e :: l1), l2. subst l. split; [reflexivity|].
        split; [|exact H2]. intros e0 [<-|H0]; [exact Hlt | apply H1; exact H0].
    + assert (Es : targetStep acc e = acc)
        by (unfold targetStep; rewrite E; reflexivity).
      rewrite Es. qbool.
      destruct (IH acc) as [[Hf Hle]|[k [amt [[l1 [l2 [El [H1 H2]]]] [Hlt Hf]]]]].
      * left. split; [exact Hf|]. intros e0 [<-|H0]; [exact E | apply Hle; exact H0].
      * right. exists k, amt. split; [|split; [exact Hlt | exact Hf]].
        exists (e :: l1), l2. subst l. split; [reflexivity|].
        split; [|exact H2]. intros e0 [<-|H0]; [lra | apply H1; exact H0].
Qed.

Lemma actualTarget_fold (paid : jsobj Q) :
  actualTarget paid = fold_left targetStep (Object_entries paid) (None, 0).
Proof. reflexivity. Qed.

(** With positive amounts, which the entries under keys that are no names
    of [Object.prototype] are, the reported target is [null] only when
    nothing was paid; otherwise it is [Number] of the key of the first
    largest entry. *)
Lemma actualTarget_spec (paid : jsobj Q) :
  paid_ok paid -> keys_in (fun k => inherited k = false) paid ->
  (paid = [] /\ actualTarget paid = (None, 0))
  \/ exists k amt,
      firstLargest (Object_entries paid) k amt /\ In (k, amt) paid
      /\ actualTarget paid = (Some (Number_of_string k), amt).
Proof.
  intros Hp Hplain. rewrite actualTarget_fold.
  destruct (targetLoop_spec (Object_entries paid) (None, 0))
    as [[Hf Hle]|[k [amt [HL [_ Hf]]]]].
  - left. split; [|exact Hf].
    destruct paid as [|e paid']; [reflexivity|]. exfalso.
    assert (He : In e (Object_entries (e :: paid')))
      by (apply Object_entries_In; left; reflexivity).
    specialize (Hle e He). simpl in Hle.
    inversion Hp as [|? ? [_ [_ Hpos]] _]; subst.
    inversion Hplain as [|? ? Hin _]; subst. specialize (Hpos Hin). lra.
  - right. exists k, amt. split; [exact HL|]. split; [|exact Hf].
    destruct HL as [l1 [l2 [El _]]]. apply Object_entries_In. rewrite El.
    apply in_or_app. right. left. reflexivity.
Qed.

Lemma simulateMonth_target strategy month plan state ti :
  let x := fst (fst (monthPayments strategy month plan state)) in
  let e := snd (simulateMonth strategy month plan state ti) in
  e_targetDebtId e = fst (actualTarget (x_paidThisMonthByDebtId x))
  /\ e_appliedToTargetThisMonth e = round2 (snd (actualTarget (x_paidThisMonthByDebtId x)))
  /\ e_targetDebtName e
     = match fst (actualTarget (x_paidThisMonthByDebtId x)) with
       | Some v =>
         match find (fun d => id_strictEq_num (s_id d) v) (x_state x) with
         | Some d => s_name d
         | None => None
         end
       | None => None
       end.
Proof.
  cbv zeta. unfold simulateMonth.
  destruct (monthPayments strategy month plan state) as [[x i] acc].
  cbn [fst snd].
  destruct (actualTarget (x_paidThisMonthByDebtId x)) as [tid tpaid]. simpl.
  repeat split. destruct tid; reflexivity.
Qed.

Lemma find_id_num (state : list SimDebt) (n : N) :
  In (IdNum n) (map s_id state) ->
  exists t, find (fun d => id_strictEq_num (s_id d) (JNum (QofN n))) state = Some t
            /\ In t state /\ s_id t = IdNum n.
Proof.
  intros Hin.
  destruct (find (fun d => id_strictEq_num (s_id d) (JNum (QofN n))) state) as [t|] eqn:E.
  - exists t. apply find_some in E. destruct E as [Ht Hp].
    split; [reflexivity|]. split; [exact Ht|].
    destruct (s_id t) as [m| |]; simpl in Hp; try discriminate.
    apply QofN_inj in Hp. congruence.
  - exfalso. apply in_map_iff in Hin. destruct Hin as [d [Hd Hin]].
    pose proof (find_none _ _ E d Hin) as Hp. simpl in Hp. rewrite Hd in Hp.
    simpl in Hp. assert (Ht : Qeq_bool (QofN n) (QofN n) = true) by (apply QofN_inj; reflexivity).
    congruence.
Qed.

Lemma find_id_NaN (state : list SimDebt) :
  find (fun d => id_strictEq_num (s_id d) JNaN) state = None.
Proof.
  induction state as [|d l IH]; simpl; [reflexivity|].
  destruct (s_id d); simpl; exact IH.
Qed.

Lemma numericIds_plain (debts : list Debt) : numericIds debts -> plainIds debts.
Proof.
  intros H. eapply Forall_impl; [|exact H].
  intros d [n [E _]]. rewrite E. apply inherited_N_toString.
Qed.

(** When no id is a name of [Object.prototype], no key of
    [paidThisMonthByDebtId] is. *)
Lemma monthPayments_plain strategy month plan (debts : list Debt) (state : list SimDebt) :
  state_ok state -> map s_id state = map d_id debts -> plainIds debts ->
  keys_in (fun k => inherited k = false)
          (x_paidThisMonthByDebtId (fst (fst (monthPayments strategy month plan state)))).
Proof.
  intros Hok Hids Hplain.
  destruct (monthPayments_paid strategy month plan state Hok) as [Hkeys _].
  eapply Forall_impl; [|exact Hkeys].
  intros [k v] Hk. simpl in *. apply in_map_iff in Hk. destruct Hk as [d [Ek Hd]].
  assert (Hdid : In (s_id d) (map d_id debts))
    by (rewrite <- Hids; apply in_map; exact Hd).
  apply in_map_iff in Hdid. destruct Hdid as [d0 [E0 Hd0]].
  pose proof (proj1 (Forall_forall _ _) Hplain d0 Hd0) as Hp. simpl in Hp.
  rewrite <- Ek. unfold simKey. rewrite <- E0. exact Hp.
Qed.

(** C10 as amended.  Take a month that a run enters.  When the debts have
    number ids, the month's [targetDebtId] is [null] if nothing was paid, and
    otherwise the id [n] of a debt whose entry is the first largest of
    [Object.entries(paidThisMonthByDebtId)], with [targetDebtName] the name of
    that debt.  When the debts have string ids that [Number] turns into
    [NaN] and that are no names of properties of [Object.prototype],
    [targetDebtName] is always [null], and [targetDebtId] is [NaN] in every
    month in which something was paid. *)
Theorem reported_target_id :
  forall strategy paymentPlanFn (month : nat) (debtsN debtsS : list Debt)
         stateN totalInterestN timelineN stateS totalInterestS timelineS,
    numericIds debtsN -> nonNumericIds debtsS -> plainIds debtsS ->
    loopAt strategy paymentPlanFn (initState debtsN) month
    = Some (stateN, totalInterestN, timelineN) ->
    loopAt strategy paymentPlanFn (initState debtsS) month
    = Some (stateS, totalInterestS, timelineS) ->
    let plan := paymentPlanFn month in
    (let x := fst (fst (monthPayments strategy month plan stateN)) in
     let paid := x_paidThisMonthByDebtId x in
     let e := snd (simulateMonth strategy month plan stateN totalInterestN) in
     (paid = [] /\ e_targetDebtId e = None /\ e_targetDebtName e = None)
     \/ exists n amt t,
         firstLargest (Object_entries paid) (N_toString n) amt
         /\ e_targetDebtId e = Some (JNum (QofN n))
         /\ e_appliedToTargetThisMonth e = round2 amt
         /\ In (IdNum n) (map d_id debtsN)
         /\ In t (x_state x) /\ s_id t = IdNum n /\ e_targetDebtName e = s_name t)
    /\ (let x := fst (fst (monthPayments strategy month plan stateS)) in
        let paid := x_paidThisMonthByDebtId x in
        let e := snd (simulateMonth strategy month plan stateS totalInterestS) in
        (paid = [] /\ e_targetDebtId e = None /\ e_targetDebtName e = None)
        \/ (paid <> [] /\ e_targetDebtId e = Some JNaN /\ e_targetDebtName e = None)).
Proof.
  intros strategy fn month debtsN debtsS stN tiN tlN stS tiS tlS HN HS HP HatN HatS.
  split; cbv zeta.
  - destruct (loopAt_ok _ _ _ _ _ _ _ HatN) as [Hok Hids].
    destruct (simulateMonth_target strategy month (fn month) stN tiN) as [Eid [Eamt Ename]].
    destruct (monthPayments_paid strategy month (fn month) stN Hok) as [Hkeys Hpaid].
    pose proof (monthPayments_plain strategy month (fn month) debtsN stN Hok Hids
                                    (numericIds_plain debtsN HN)) as Hplain.
    destruct (monthPayments_ok strategy month (fn month) stN Hok) as [_ [_ [_ [_ Hxids]]]].
    set (x := fst (fst (monthPayments strategy month (fn month) stN))) in *.
    destruct (actualTarget_spec _ Hpaid Hplain) as [[Hnil Ht]|[key [amt [HL [Hin Ht]]]]].
    + left. rewrite Ht in Eid, Ename. simpl in Eid, Ename. repeat split; assumption.
    + right.
      pose proof (proj1 (Forall_forall _ _) Hkeys (key, amt) Hin) as Hk. simpl in Hk.
      apply in_map_iff in Hk. destruct Hk as [d [Ek Hd]].
      assert (Hdid : In (s_id d) (map d_id debtsN))
        by (rewrite <- Hids; apply in_map; exact Hd).
      apply in_map_iff in Hdid. destruct Hdid as [d0 [E0 Hd0]].
      destruct (proj1 (Forall_forall _ _) HN d0 Hd0) as [n [En Hn]].
      assert (Ekey : key = N_toString n).
      { rewrite <- Ek. unfold simKey. rewrite <- E0, En. reflexivity. }
      clear Ek. subst key.
      rewrite Ht, (Number_of_N_toString n Hn) in Eid, Ename. rewrite Ht in Eamt.
      simpl in *.
      assert (Hinx : In (IdNum n) (map s_id (x_state x))).
      { rewrite Hxids, Hids. rewrite <- En. apply in_map. exact Hd0. }
      destruct (find_id_num _ _ Hinx) as [t [Ef [Htin Htid]]].
      rewrite Ef in Ename.
      exists n, amt, t. repeat split; try assumption.
      rewrite <- En. apply in_map. exact Hd0.
  - destruct (loopAt_ok _ _ _ _ _ _ _ HatS) as [Hok Hids].
    destruct (simulateMonth_target strategy month (fn month) stS tiS) as [Eid [Eamt Ename]].
    destruct (monthPayments_paid strategy month (fn month) stS Hok) as [Hkeys Hpaid].
    pose proof (monthPayments_plain strategy month (fn month) debtsS stS Hok Hids HP)
      as Hplain.
    set (x := fst (fst (monthPayments strategy month (fn month) stS))) in *.
    destruct (actualTarget_spec _ Hpaid Hplain) as [[Hnil Ht]|[key [amt [HL [Hin Ht]]]]].
    + left. rewrite Ht in Eid, Ename. simpl in Eid, Ename. repeat split; assumption.
    + right.
      pose proof (proj1 (Forall_forall _ _) Hkeys (key, amt) Hin) as Hk. simpl in Hk.
      apply in_map_iff in Hk. destruct Hk as [d [Ek Hd]].
      assert (Hdid : In (s_id d) (map d_id debtsS))
        by (rewrite <- Hids; apply in_map; exact Hd).
      apply in_map_iff in Hdid. destruct Hdid as [d0 [E0 Hd0]].
      destruct (proj1 (Forall_forall _ _) HS d0 Hd0) as [s [Es Hnan]].
      assert (Ekey : key = s).
      { rewrite <- Ek. unfold simKey. rewrite <- E0, Es. reflexivity. }
      clear Ek. subst key.
      rewrite Ht, Hnan in Eid, Ename. simpl in Eid, Ename.
      rewrite find_id_NaN in Ename.
      repeat split; try assumption.
      intros Hnil. rewrite Hnil in Hin. exact Hin.
Qed.

(** ** The properties on the default debts *)

(** Month 3 of the snowball run on the default debts: balances before the
    month, what each debt is paid, and balances after. *)
Example scenarioA_month3 :
  let state := fst (fst (afterTwoMonths scenarioA)) in
  let x := fst (fst (monthPayments "snowball" 3 (pay1500 3%nat) state)) in
  map s_balance state = [158031 # 100; 566862 # 100]
  /\ map interestOf state = [3949 # 100; 3774 # 100]
  /\ x_paidThisMonthByDebtId x = [("0"%string, 130350 # 100); ("1"%string, 19650 # 100)]
  /\ map s_balance (x_state x) = [31630 # 100; 550986 # 100].
Proof. vm_compute. repeat split. Qed.

Lemma reported_target_id_witness :
  (numericIds scenarioA /\ nonNumericIds storedDefaults /\ plainIds storedDefaults
   /\ loopAt "snowball" pay1500 (initState scenarioA) 3
      = Some (fst (fst (afterTwoMonths scenarioA)), snd (fst (afterTwoMonths scenarioA)),
              snd (afterTwoMonths scenarioA))
   /\ loopAt "snowball" pay1500 (initState storedDefaults) 3
      = Some (fst (fst (afterTwoMonths storedDefaults)),
              snd (fst (afterTwoMonths storedDefaults)),
              snd (afterTwoMonths storedDefaults)))
  /\ (let state := fst (fst (afterTwoMonths scenarioA)) in
      let x := fst (fst (monthPayments "snowball" 3 (pay1500 3%nat) state)) in
      let paid := x_paidThisMonthByDebtId x in
      let e := snd (simulateMonth "snowball" 3 (pay1500 3%nat) state
                                  (snd (fst (afterTwoMonths scenarioA)))) in
      (paid = [] /\ e_targetDebtId e = None /\ e_targetDebtName e = None)
      \/ exists n amt t,
          firstLargest (Object_entries paid) (N_toString n) amt
          /\ e_targetDebtId e = Some (JNum (QofN n))
          /\ e_appliedToTargetThisMonth e = round2 amt
          /\ In (IdNum n) (map d_id scenarioA)
          /\ In t (x_state x) /\ s_id t = IdNum n /\ e_targetDebtName e = s_name t)
  /\ (let state := fst (fst (afterTwoMonths storedDefaults)) in
      let x := fst (fst (monthPayments "snowball" 3 (pay1500 3%nat) state)) in
      let paid := x_paidThisMonthByDebtId x in
      let e := snd (simulateMonth "snowball" 3 (pay1500 3%nat) state
                                  (snd (fst (afterTwoMonths storedDefaults)))) in
      (paid = [] /\ e_targetDebtId e = None /\ e_targetDebtName e = None)
      \/ (paid <> [] /\ e_targetDebtId e = Some JNaN /\ e_targetDebtName e = None)).
Proof.
  assert (HN : numericIds scenarioA).
  { repeat constructor; eexists; (split; [reflexivity | vm_compute; reflexivity]). }
  assert (HS : nonNumericIds storedDefaults).
  { repeat constructor; eexists; (split; [reflexivity | vm_compute; reflexivity]). }
  assert (HP : plainIds storedDefaults) by (repeat constructor).
  assert (H1 : loopAt "snowball" pay1500 (initState scenarioA) 3
               = Some (fst (fst (afterTwoMonths scenarioA)),
                       snd (fst (afterTwoMonths scenarioA)),
                       snd (afterTwoMonths scenarioA)))
    by (vm_compute; reflexivity).
  assert (H2 : loopAt "snowball" pay1500 (initState storedDefaults) 3
               = Some (fst (fst (afterTwoMonths storedDefaults)),
                       snd (fst (afterTwoMonths storedDefaults)),
                       snd (afterTwoMonths storedDefaults)))
    by (vm_compute; reflexivity).
  split; [exact (conj HN (conj HS (conj HP (conj H1 H2))))|].
  exact (reported_target_id "snowball" pay1500 3 scenarioA storedDefaults _ _ _ _ _ _
                            HN HS HP H1 H2).
Defined.

(** C10, as stated, fails for a string id that is the name of a property of
    [Object.prototype]: a line of credit under the id ["constructor"], funded
    with 25 a month, is paid 25 in month 1, but
    [paidThisMonthByDebtId["constructor"] || 0] reads the inherited function,
    the entry is stored as 0 and the reported target is [null], not [NaN]. *)
Lemma reported_target_inherited_name :
  ~ (nonNumericIds [constructorDebt] ->
     let e := snd (simulateMonth "snowball" 1 (pay25 1%nat) (initState [constructorDebt]) 0) in
     0 < e_minPaid e -> e_targetDebtId e = Some JNaN).
Proof.
  intros H.
  assert (HS : nonNumericIds [constructorDebt]).
  { repeat constructor; eexists; (split; [reflexivity | vm_compute; reflexivity]). }
  specialize (H HS). cbv zeta in H.
  assert (E : e_targetDebtId
                (snd (simulateMonth "snowball" 1 (pay25 1%nat) (initState [constructorDebt]) 0))
              = None) by (vm_compute; reflexivity).
  rewrite E in H. discriminate H. vm_compute. reflexivity.
Qed.

(** What that month does: the balance of 10100 after the accrual is paid
    down by 25, which the entry counts as a minimum payment, and
    [paidThisMonthByDebtId] holds 0 for the debt. *)
Example inherited_name_month :
  let r := simulateMonth "snowball" 1 (pay25 1%nat) (initState [constructorDebt]) 0 in
  let x := fst (fst (monthPayments "snowball" 1 (pay25 1%nat) (initState [constructorDebt]))) in
  map s_balance (fst (fst r)) = [1007500 # 100]
  /\ e_minPaid (snd r) = 2500 # 100
  /\ x_paidThisMonthByDebtId x = [("constructor"%string, 0 # 100)]
  /\ e_targetDebtId (snd r) = None /\ e_targetDebtName (snd r) = None.
Proof. vm_compute. repeat split. Qed.

(** The targets the two runs report, month by month: ids 0 and 1 with their
    names under number ids, [NaN] and no name under the stored ids. *)
Example reported_targets :
  map (fun e => (e_targetDebtId e, e_targetDebtName e))
      (r_timeline (simulateStrategy "snowball" scenarioA pay1500))
  = [(Some (JNum 0), Some "Credit Card"%string); (Some (JNum 0), Some "Credit Card"%string);
     (Some (JNum 0), Some "Credit Card"%string); (Some (JNum 1), Some "Personal Loan"%string);
     (Some (JNum 1), Some "Personal Loan"%string); (Some (JNum 1), Some "Personal Loan"%string);
     (Some (JNum 1), Some "Personal Loan"%string)]
  /\ map (fun e => (e_targetDebtId e, e_targetDebtName e, e_appliedToTargetThisMonth e))
         (firstn 2 (r_timeline (simulateStrategy "snowball" storedDefaults pay1500)))
     = [(Some JNaN, None, 129201 # 100); (Some JNaN, None, 129783 # 100)].
Proof. vm_compute. split; reflexivity. Qed.

(** On a tie the first entry of [Object.entries] wins, and number keys come
    in ascending order: both debts are paid 25, the debt with id 1 first, and
    the reported target is the debt with id 0. *)
Example reported_target_tie :
  let x := fst (fst (monthPayments "snowball" 1 (pay50 1%nat) (initState twins))) in
  let e := snd (simulateMonth "snowball" 1 (pay50 1%nat) (initState twins) 0) in
  x_paidThisMonthByDebtId x = [("1"%string, 2500 # 100); ("0"%string, 2500 # 100)]
  /\ Object_entries (x_paidThisMonthByDebtId x)
     = [("0"%string, 2500 # 100); ("1"%string, 2500 # 100)]
  /\ e_targetDebtId e = Some (JNum 0) /\ e_targetDebtName e = Some "Second"%string.
Proof. vm_compute. repeat split. Qed.

(** * Further properties of the engine *)

(** ** Rounding and the minimum payment estimator *)


Lemma estimate_ge_25 (d : Debt) : 25 <= estimateMinimumPayment d.
Proof.
  unfold estimateMinimumPayment, Math_max3.
  repeat match goal with |- context [if ?c then _ else _] => destruct c end;
    qminmax; lra.
Qed.

(** X2: the estimated minimum payment is at least 25 for every debt, and
    for a given debt type it does not decrease when the balance or the APR
    grows. *)
Theorem estimate_floor_and_monotone (d d' : Debt) :
  d_type d = d_type d' ->
  clampNumber (d_balance d) 0 <= clampNumber (d_balance d') 0 ->
  clampNumber (d_interest_rate d) 0 <= clampNumber (d_interest_rate d') 0 ->
  25 <= estimateMinimumPayment d
  /\ estimateMinimumPayment d <= estimateMinimumPayment d'.
Proof.
  intros Ht Hb Ha. split; [apply estimate_ge_25|].
  unfold estimateMinimumPayment, Math_max3. rewrite <- Ht.
  generalize (clampNumber (d_balance d) 0) (clampNumber (d_balance d') 0)
             (clampNumber (d_interest_rate d) 0) (clampNumber (d_interest_rate d') 0)
             Hb Ha.
  clear. intros b b' a a' Hb Ha.
  assert (HB : 0 <= Qmax 0 b) by apply Q.le_max_l.
  assert (HBB : Qmax 0 b <= Qmax 0 b') by (apply Q.max_le_compat_l; exact Hb).
  assert (HA : 0 <= Qmax 0 a) by apply Q.le_max_l.
  assert (HAA : Qmax 0 a <= Qmax 0 a') by (apply Q.max_le_compat_l; exact Ha).
  revert HB HBB HA HAA.
  generalize (Qmax 0 b) (Qmax 0 b') (Qmax 0 a) (Qmax 0 a').
  clear. intros B B' A A' HB HBB HA HAA.
  assert (E : forall x, x / 100 / 12 == x * (1 # 1200)) by (intros; unfold Qdiv; field).
  assert (HR : 0 <= A / 100 / 12) by (rewrite E; lra).
  assert (HRR : A / 100 / 12 <= A' / 100 / 12) by (rewrite !E; lra).
  clear E. revert HR HRR. generalize (A / 100 / 12) (A' / 100 / 12). intros R R' HR HRR.
  assert (HI : B * R <= B' * R').
  { apply Qle_trans with (B * R').
    - rewrite (Qmult_comm B R), (Qmult_comm B R'). apply Qmult_le_compat_r; assumption.
    - apply Qmult_le_compat_r; [exact HBB | lra]. }
  assert (HP : B / 36 <= B' / 36).
  { unfold Qdiv. apply Qmult_le_compat_r; [exact HBB | discriminate]. }
  revert HI HP. generalize (B * R) (B' * R') (B / 36) (B' / 36). intros I I' P P' HI HP.
  repeat match goal with |- context [if ?c then _ else _] => destruct c end;
    qminmax; lra.
Qed.

Lemma estimate_floor_and_monotone_witness :
  25 <= estimateMinimumPayment (debtOf "credit_card" 1000 20)
  /\ estimateMinimumPayment (debtOf "credit_card" 1000 20)
     <= estimateMinimumPayment (debtOf "credit_card" 4000 (2999 # 100)).
Proof.
  apply (estimate_floor_and_monotone (debtOf "credit_card" 1000 20)
                                     (debtOf "credit_card" 4000 (2999 # 100))).
  - reflexivity.
  - simpl. lra.
  - simpl. lra.
Defined.

(** X3: the minimum that [computeMonthlyMinimumDynamic] returns for a debt
    at a balance is the estimate at that balance when the floor of the debt
    is off; when it is a number, it is at least 25 and at least that
    estimate, and at least the floor when the floor is on. *)
Theorem dynamicMin_bounds (debt : Debt) (currentBalance : Q) :
  (d_min_floor_enabled debt = false ->
   computeMonthlyMinimumDynamic debt currentBalance
   = Some (estimateAt debt currentBalance))
  /\ forall v,
      computeMonthlyMinimumDynamic debt currentBalance = Some v ->
      25 <= v /\ estimateAt debt currentBalance <= v
      /\ (d_min_floor_enabled debt = true ->
          forall f, d_min_floor debt = Some f -> f <= v).
Proof.
  pose proof (estimate_ge_25
                {| d_id := IdUndefined; d_name := None; d_type := d_type debt;
                   d_balance := Some currentBalance;
                   d_interest_rate := d_interest_rate debt;
                   d_min_override_enabled := false; d_min_override_amount := None;
                   d_estimated_minimum_payment := None; d_minimum_payment := None;
                   d_min_floor_enabled := false; d_min_floor := None |}) as He.
  fold (estimateAt debt currentBalance) in He.
  unfold computeMonthlyMinimumDynamic. fold (estimateAt debt currentBalance).
  revert He. generalize (estimateAt debt currentBalance). intros est He.
  destruct (d_min_floor_enabled debt).
  - split; [discriminate|]. intros v Hv.
    destruct (d_min_floor debt) as [f|]; [|discriminate].
    injection Hv as <-. split; [|split].
    + apply Qle_trans with est; [exact He | apply Q.le_max_l].
    + apply Q.le_max_l.
    + intros _ f0 Hf. injection Hf as <-. apply Q.le_max_r.
  - split; [reflexivity|]. intros v Hv. injection Hv as <-.
    split; [exact He|]. split; [apply Qle_refl | discriminate].
Qed.

(** ** Values typed into the form *)

(** X4: storing a field through [keepBlankOrNumber(v, 0)] does not change
    what the engine reads from it with [clampNumber(.., 0)]; the stored value
    is the blank string or a finite number, and storing it again changes
    nothing. *)
Theorem keepBlankOrNumber_reads_the_same (v : jsval) (fallback : Q) :
  clampNumber (toNum (keepBlankOrNumber v 0)) 0 = clampNumber (toNum v) 0
  /\ (keepBlankOrNumber v fallback = VString EmptyString
      \/ exists q, keepBlankOrNumber v fallback = VNumber (JNum q))
  /\ keepBlankOrNumber (keepBlankOrNumber v fallback) fallback
     = keepBlankOrNumber v fallback.
Proof.
  destruct v as [| |b|n|s]; try (cbn; repeat split; eauto; fail).
  destruct s as [|c s]; [cbn; repeat split; eauto|].
  unfold keepBlankOrNumber. cbn [toNum Number_of].
  split; [|split; [right; eauto | reflexivity]].
  destruct (Number_of_string (String c s)); reflexivity.
Qed.

(** ** The schedule resolver and the payment plan provider *)

Lemma cents_gap (a b : Q) : is_cents a -> is_cents b -> (EPS < a - b <-> b < a).
Proof.
  intros [za Ha] [zb Hb]. rewrite Ha, Hb. unfold EPS, Qlt, Qminus, Qplus, Qopp.
  cbn [Qnum Qden]. lia.
Qed.

Lemma requiredLoop_cents (alloc : jsobj Q) (debts : list Debt) :
  forall rb rs,
    is_cents rs -> 0 <= rs ->
    Forall (fun e : string * Q => is_cents (snd e) /\ 0 <= snd e) rb ->
    let r := requiredLoop alloc debts rb rs in
    is_cents (snd r) /\ 0 <= snd r
    /\ Forall (fun e : string * Q => is_cents (snd e) /\ 0 <= snd e) (fst r).
Proof.
  induction debts as [|d rest IH]; intros rb rs Hc Hn Hrb; cbn [requiredLoop].
  - cbn. auto.
  - destruct (Qleb (Qmax 0 (clampNumber (d_balance d) 0)) 0).
    + apply IH; assumption.
    + set (required := round2 _).
      assert (Hr : 0 <= required).
      { apply round2_nonneg. apply Qle_trans with (Qmax 0 (clampNumber (d_minimum_payment d) 0));
          [apply Q.le_max_l | apply Q.le_max_l]. }
      apply IH.
      * apply round2_is_cents.
      * apply round2_nonneg. lra.
      * apply obj_assign_Forall; [exact Hrb|]. cbn. split; [apply round2_is_cents | exact Hr].
Qed.

(** X5: for every debt list, schedule row and funding amount, no required
    payment that the resolver returns is negative, nor is their sum or the
    unassigned amount; the month is over budget exactly when the required
    sum is larger than the month's funding [mPay], and then nothing is
    unassigned. *)
Theorem resolver_over_budget (debts : list Debt) (scheduleRow : option ScheduleRow)
    (monthlyPayment : num) :
  let info := computeScheduleMonthRequiredPayments debts scheduleRow monthlyPayment in
  let mPay := Qmax 0 (round2 (clampNumber monthlyPayment 0)) in
  Forall (fun e => 0 <= snd e) (ri_requiredByDebtId info)
  /\ 0 <= ri_requiredSum info /\ 0 <= ri_unassigned info
  /\ (ri_overBudget info = true <-> mPay < ri_requiredSum info)
  /\ (ri_overBudget info = true -> ri_unassigned info == 0).
Proof.
  intros info mPay. unfold info, computeScheduleMonthRequiredPayments.
  set (alloc := match scheduleRow with Some row => row_allocations row | None => [] end).
  pose proof (requiredLoop_cents alloc debts [] 0 is_cents_0 (Qle_refl 0) (Forall_nil _))
    as (Hc & Hn & Hrb).
  destruct (requiredLoop alloc debts [] 0) as [rb rs]. cbn [fst snd] in *.
  cbn [ri_requiredByDebtId ri_requiredSum ri_overBudget ri_unassigned].
  fold mPay.
  assert (Hm : is_cents mPay).
  { unfold mPay. apply is_cents_max; [apply is_cents_0 | apply round2_is_cents]. }
  assert (Hgap : Qltb EPS (rs - mPay) = true <-> mPay < rs).
  { rewrite <- (cents_gap rs mPay Hc Hm). unfold Qltb. rewrite negb_true_iff.
    rewrite <- not_true_iff_false, Qle_bool_iff. split; [apply Qnot_le_lt | apply Qlt_not_le]. }
  split; [eapply Forall_impl; [|exact Hrb]; intros e He; apply He|].
  split; [exact Hn|].
  split; [apply round2_nonneg, Q.le_max_l|].
  split; [exact Hgap|].
  intros Ht. apply Hgap in Ht.
  rewrite (round2_proper _ 0); [reflexivity|]. revert Ht. qminmax; lra.
Qed.

Lemma requiredLoop_nothing_owed (alloc : jsobj Q) (debts : list Debt) :
  Forall (fun d => clampNumber (d_balance d) 0 <= 0) debts ->
  forall rb rs, requiredLoop alloc debts rb rs = (rb, rs).
Proof.
  induction 1 as [|d rest Hd _ IH]; intros rb rs; cbn [requiredLoop]; [reflexivity|].
  assert (E : Qleb (Qmax 0 (clampNumber (d_balance d) 0)) 0 = true).
  { apply Qle_bool_iff. revert Hd. qminmax; lra. }
  rewrite E. apply IH.
Qed.

(** X6: when no debt of the list owes anything (an empty list, or balances
    that are zero, negative or no number), the resolver requires nothing:
    no required payment, a required sum of 0, never over budget, and the
    funding of the month, rounded once more, unassigned. *)
Theorem resolver_nothing_owed (debts : list Debt) (scheduleRow : option ScheduleRow)
    (monthlyPayment : num) :
  Forall (fun d => clampNumber (d_balance d) 0 <= 0) debts ->
  let info := computeScheduleMonthRequiredPayments debts scheduleRow monthlyPayment in
  ri_requiredByDebtId info = [] /\ ri_requiredSum info = 0
  /\ ri_overBudget info = false
  /\ ri_unassigned info = round2 (Qmax 0 (round2 (clampNumber monthlyPayment 0))).
Proof.
  intros H info. unfold info, computeScheduleMonthRequiredPayments.
  rewrite (requiredLoop_nothing_owed _ debts H).
  cbn [ri_requiredByDebtId ri_requiredSum ri_overBudget ri_unassigned].
  set (mPay := Qmax 0 (round2 (clampNumber monthlyPayment 0))).
  assert (H0 : 0 <= mPay) by apply Q.le_max_l.
  repeat split.
  - unfold Qltb. rewrite negb_false_iff. apply Qle_bool_iff. unfold EPS. lra.
  - apply round2_proper. qminmax; lra.
Qed.

Lemma resolver_nothing_owed_witness :
  let debts := [debtOf "loan" 0 5; debtOf "credit_card" (-10) 20] in
  let info := computeScheduleMonthRequiredPayments debts (Some rowMonth1) (Some 1500) in
  ri_requiredByDebtId info = [] /\ ri_requiredSum info = 0
  /\ ri_overBudget info = false
  /\ ri_unassigned info = round2 (Qmax 0 (round2 (clampNumber (Some 1500) 0))).
Proof.
  apply (resolver_nothing_owed [debtOf "loan" 0 5; debtOf "credit_card" (-10) 20]
                               (Some rowMonth1) (Some 1500)).
  repeat constructor; simpl; lra.
Defined.

Lemma Map_get_set_same (map : list (Z * PlanRow)) (m : Z) (row : PlanRow) :
  Map_get (Map_set map m row) m = Some row.
Proof.
  induction map as [|[k v] map IH]; cbn [Map_set Map_get].
  - rewrite Z.eqb_refl. reflexivity.
  - destruct (Z.eqb k m) eqn:E; cbn [Map_get]; rewrite E; [reflexivity | exact IH].
Qed.

Lemma Map_get_set_other (map : list (Z * PlanRow)) (m k : Z) (row : PlanRow) :
  k <> m -> Map_get (Map_set map m row) k = Map_get map k.
Proof.
  intros Hk. induction map as [|[k' v] map IH]; cbn [Map_set Map_get].
  - destruct (Z.eqb m k) eqn:E; [apply Z.eqb_eq in E; congruence | reflexivity].
  - destruct (Z.eqb k' m) eqn:E; cbn [Map_get].
    + apply Z.eqb_eq in E. subst k'.
      destruct (Z.eqb m k) eqn:E'; [apply Z.eqb_eq in E'; congruence | reflexivity].
    + destruct (Z.eqb k' k); [reflexivity | exact IH].
Qed.

Lemma Map_set_keys (map : list (Z * PlanRow)) (m k : Z) (row : PlanRow) :
  In k (List.map fst (Map_set map m row)) <-> k = m \/ In k (List.map fst map).
Proof.
  induction map as [|[k' v] map IH]; cbn [Map_set List.map fst In].
  - intuition.
  - destruct (Z.eqb k' m) eqn:E; cbn [List.map fst In].
    + apply Z.eqb_eq in E. subst k'. intuition.
    + rewrite IH. intuition.
Qed.

Lemma Map_get_key (map : list (Z * PlanRow)) (k : Z) :
  In k (List.map fst map) <-> exists row, Map_get map k = Some row.
Proof.
  induction map as [|[k' v] map IH]; cbn [List.map fst In Map_get].
  - split; [tauto | intros [row H]; discriminate].
  - destruct (Z.eqb k' k) eqn:E.
    + apply Z.eqb_eq in E. split; [eauto | auto].
    + rewrite <- IH. apply Z.eqb_neq in E. tauto.
Qed.

Lemma normaliseRows_app (rows : list ScheduleRow) (row : ScheduleRow) :
  normaliseRows (rows ++ [row])
  = Map_set (normaliseRows rows) (monthOfRow row)
            (mkPlanRow (monthOfRow row) (amountOfRow row) (row_allocations row)).
Proof. unfold normaliseRows. rewrite fold_left_app. reflexivity. Qed.

Lemma fold_max_spec (l : list Z) :
  forall acc,
    (acc <= fold_left Z.max l acc)%Z
    /\ (forall k, In k l -> (k <= fold_left Z.max l acc)%Z)
    /\ (fold_left Z.max l acc = acc \/ In (fold_left Z.max l acc) l).
Proof.
  induction l as [|x l IH]; intros acc; cbn [fold_left In].
  - split; [lia|]. split; [tauto | auto].
  - destruct (IH (Z.max acc x)) as (H1 & H2 & H3).
    split; [lia|]. split.
    + intros k [Hk | Hk]; [subst; lia | auto].
    + destruct H3 as [H3 | H3]; [|auto].
      rewrite H3. destruct (Z.max_spec acc x) as [[_ E] | [_ E]]; rewrite E; auto.
Qed.

Lemma normaliseRows_keys (rows : list ScheduleRow) :
  forall k, In k (List.map fst (normaliseRows rows)) -> (1 <= k)%Z.
Proof.
  induction rows as [|row rows IH] using rev_ind; intros k Hk.
  - destruct Hk.
  - rewrite normaliseRows_app in Hk. apply Map_set_keys in Hk.
    destruct Hk as [Hk | Hk]; [subst k; unfold monthOfRow; lia | auto].
Qed.

(** The largest month of a schedule has a row, unless the schedule is
    empty. *)
Lemma lastScheduledMonth_spec (rows : list ScheduleRow) :
  (forall k, In k (List.map fst (normaliseRows rows)) -> (k <= lastScheduledMonth rows)%Z)
  /\ ((lastScheduledMonth rows = 0%Z /\ normaliseRows rows = [])
      \/ ((1 <= lastScheduledMonth rows)%Z
          /\ In (lastScheduledMonth rows) (List.map fst (normaliseRows rows)))).
Proof.
  unfold lastScheduledMonth.
  destruct (fold_max_spec (List.map fst (normaliseRows rows)) 0) as (H1 & H2 & H3).
  split; [exact H2|].
  destruct H3 as [H3 | H3].
  - left. split; [exact H3|].
    destruct (normaliseRows rows) as [|[k v] map] eqn:E; [reflexivity|].
    exfalso. assert (Hk : (1 <= k)%Z).
    { apply (normaliseRows_keys rows). rewrite E. left. reflexivity. }
    specialize (H2 k (or_introl eq_refl)). lia.
  - right. split; [|exact H3]. apply (normaliseRows_keys rows). exact H3.
Qed.

(** X7: in schedule mode a month beyond the largest scheduled month gets the
    very plan of that largest month; for an empty schedule, every month gets
    the one plan that the resolver builds from the fixed payment: a row of
    that amount, rounded to cents and raised to 0 at least, with no
    allocations. *)
Theorem schedule_repeats_last_month (monthlyPayment : num) (rows : list ScheduleRow)
    (debts : list Debt) :
  let planFn := getPaymentPlanFn "schedule" monthlyPayment rows debts in
  let fixed := Qmax 0 (round2v monthlyPayment) in
  let info :=
    computeScheduleMonthRequiredPayments debts (Some (mkRow (Some 1) (Some fixed) []))
                                         (Some fixed) in
  (forall month : nat,
      (lastScheduledMonth rows <= Z.of_nat month)%Z ->
      planFn month = planFn (Z.to_nat (lastScheduledMonth rows)))
  /\ (rows = [] ->
      forall month : nat,
        planFn month
        = Some {| p_monthlyPayment := Some fixed;
                  p_requiredByDebtId := Some (ri_requiredByDebtId info);
                  p_requiredSum := Some (ri_requiredSum info);
                  p_overBudget := ri_overBudget info;
                  p_unassigned := Some (ri_unassigned info) |}).
Proof.
  cbv zeta. split.
  - intros month Hm. unfold getPaymentPlanFn. cbn [String.eqb Ascii.eqb Bool.eqb negb].
    fold (lastScheduledMonth rows).
    destruct (lastScheduledMonth_spec rows) as (Hmax & [[H0 He] | [H1 Hin]]).
    + rewrite He. reflexivity.
    + rewrite Z2Nat.id by lia.
      apply Map_get_key in Hin. destruct Hin as [row Hrow]. rewrite Hrow.
      destruct (Z.eq_dec (Z.of_nat month) (lastScheduledMonth rows)) as [E | E].
      * rewrite E, Hrow. reflexivity.
      * assert (Hn : Map_get (normaliseRows rows) (Z.of_nat month) = None).
        { destruct (Map_get (normaliseRows rows) (Z.of_nat month)) eqn:G; [|reflexivity].
          exfalso. assert (Hk : In (Z.of_nat month) (List.map fst (normaliseRows rows)))
            by (apply Map_get_key; eauto).
          apply Hmax in Hk. lia. }
        rewrite Hn. destruct (Z.eqb (lastScheduledMonth rows) 0) eqn:Z0;
          [apply Z.eqb_eq in Z0; lia | reflexivity].
  - intros -> month. reflexivity.
Qed.

(** The plans of a schedule of one row, in its month and later, and of an
    empty schedule under a fixed payment of 900. *)
Example schedule_plans :
  option_map p_monthlyPayment (getPaymentPlanFn "schedule" (Some 900) scheduleOf1500 scenarioA 5)
  = Some (Some (150000 # 100))
  /\ option_map p_monthlyPayment (getPaymentPlanFn "schedule" (Some 900) [] scenarioA 5)
     = Some (Some (90000 # 100))
  /\ lastScheduledMonth scheduleOf1500 = 1%Z.
Proof. vm_compute. repeat split. Qed.

Lemma normaliseRows_later (m : Z) (rows after : list ScheduleRow) :
  Forall (fun r => monthOfRow r <> m) after ->
  Map_get (normaliseRows (rows ++ after)) m = Map_get (normaliseRows rows) m.
Proof.
  induction after as [|r after IH] using rev_ind; intros H.
  - rewrite app_nil_r. reflexivity.
  - apply Forall_app in H. destruct H as [Ha Hr]. inversion Hr as [|? ? Hne _]; subst.
    rewrite app_assoc, normaliseRows_app, Map_get_set_other by congruence.
    apply IH. exact Ha.
Qed.

(** X8: in schedule mode the month of a row is its month number rounded
    down and raised to 1 at least, its amount is rounded to cents and raised
    to 0 at least, and when several rows name one month the last of them
    decides: for a row that no later row of the list shares its month with,
    the plan of that month is the resolver's answer for this row. *)
Theorem schedule_last_row_wins (monthlyPayment : num) (earlier later : list ScheduleRow)
    (row : ScheduleRow) (debts : list Debt) :
  Forall (fun r => monthOfRow r <> monthOfRow row) later ->
  let info :=
    computeScheduleMonthRequiredPayments debts (Some row) (Some (amountOfRow row)) in
  getPaymentPlanFn "schedule" monthlyPayment (earlier ++ row :: later) debts
                   (Z.to_nat (monthOfRow row))
  = Some {| p_monthlyPayment := Some (amountOfRow row);
            p_requiredByDebtId := Some (ri_requiredByDebtId info);
            p_requiredSum := Some (ri_requiredSum info);
            p_overBudget := ri_overBudget info;
            p_unassigned := Some (ri_unassigned info) |}.
Proof.
  intros Hlater info. unfold getPaymentPlanFn. cbn [String.eqb Ascii.eqb Bool.eqb negb].
  rewrite Z2Nat.id by (unfold monthOfRow; lia).
  change (earlier ++ row :: later) with (earlier ++ [row] ++ later).
  rewrite app_assoc, (normaliseRows_later _ _ _ Hlater).
  rewrite normaliseRows_app, Map_get_set_same. reflexivity.
Qed.

Lemma schedule_last_row_wins_witness :
  let row := mkRow (Some 1) (Some 1200) [("1"%string, 500)] in
  let info :=
    computeScheduleMonthRequiredPayments scenarioA (Some row) (Some (amountOfRow row)) in
  getPaymentPlanFn "schedule" (Some 900)
                   ([rowMonth1] ++ row :: [mkRow (Some 2) (Some 1300) []]) scenarioA
                   (Z.to_nat (monthOfRow row))
  = Some {| p_monthlyPayment := Some (amountOfRow row);
            p_requiredByDebtId := Some (ri_requiredByDebtId info);
            p_requiredSum := Some (ri_requiredSum info);
            p_overBudget := ri_overBudget info;
            p_unassigned := Some (ri_unassigned info) |}.
Proof.
  apply (schedule_last_row_wins (Some 900) [rowMonth1] [mkRow (Some 2) (Some 1300) []]
                                (mkRow (Some 1) (Some 1200) [("1"%string, 500)]) scenarioA).
  repeat constructor. vm_compute. discriminate.
Defined.

Lemma constant_schedule (A : Q) (rows : list ScheduleRow) :
  Forall (fun row => amountOfRow row = A) rows ->
  forall k v, Map_get (normaliseRows rows) k = Some v -> pr_amount v = A.
Proof.
  induction rows as [|row rows IH] using rev_ind; intros H k v Hv.
  - discriminate.
  - apply Forall_app in H. destruct H as [H1 H2]. inversion H2; subst.
    rewrite normaliseRows_app in Hv.
    destruct (Z.eq_dec k (monthOfRow row)) as [E | E].
    + subst k. rewrite Map_get_set_same in Hv. inversion Hv. reflexivity.
    + rewrite Map_get_set_other in Hv by exact E. eapply IH; eassumption.
Qed.

Lemma constant_schedule_plan (A : Q) (monthlyPayment : num) (rows : list ScheduleRow)
    (debts : list Debt) (month : nat) :
  rows <> [] ->
  Forall (fun row => amountOfRow row = A) rows ->
  exists plan,
    getPaymentPlanFn "schedule" monthlyPayment rows debts month = Some plan
    /\ p_monthlyPayment plan = Some A.
Proof.
  intros Hne H. unfold getPaymentPlanFn. cbn [String.eqb Ascii.eqb Bool.eqb negb].
  fold (lastScheduledMonth rows).
  eexists. split; [reflexivity|]. cbn [p_monthlyPayment]. f_equal.
  destruct (Map_get (normaliseRows rows) (Z.of_nat month)) eqn:G.
  - eapply constant_schedule; eassumption.
  - destruct (lastScheduledMonth_spec rows) as (Hmax & [[H0 He] | [H1 Hin]]).
    + exfalso. destruct rows as [|r rows] using rev_ind; [congruence|].
      rewrite normaliseRows_app in He. clear - He.
      destruct (normaliseRows rows) as [|[k v] m]; cbn in He; [discriminate|].
      destruct (Z.eqb k (monthOfRow r)); discriminate.
    + apply Map_get_key in Hin. destruct Hin as [row Hrow]. rewrite Hrow.
      destruct (Z.eqb (lastScheduledMonth rows) 0) eqn:Z0;
        [apply Z.eqb_eq in Z0; lia|].
      eapply constant_schedule; eassumption.
Qed.

Lemma quickFill_rows (months : num) (mpFixed : Q) :
  quickFillSchedule months mpFixed <> []
  /\ Forall (fun row => amountOfRow row = Qmax 0 (round2 (round2 mpFixed)))
            (quickFillSchedule months mpFixed).
Proof.
  unfold quickFillSchedule. set (m := Z.max 1 (Qfloor (clampNumber months 6))).
  split.
  - destruct (Z.to_nat m) eqn:E; [lia | discriminate].
  - apply Forall_forall. intros row Hr. apply in_map_iff in Hr.
    destruct Hr as (i & Hi & _). subst row. reflexivity.
Qed.

(** X9: [quickFillSchedule] makes one row for each of the months 1 to
    [max(1, floor(months))], and in schedule mode every month, also the
    months after the last row, is funded with the one amount of these rows:
    the fixed payment, rounded to cents by [quickFillSchedule] and once more
    by [getPaymentPlanFn]. *)
Theorem quickFill_funds_every_month (months : num) (mpFixed : Q) (debts : list Debt) :
  let rows := quickFillSchedule months mpFixed in
  let m := Z.to_nat (Z.max 1 (Qfloor (clampNumber months 6))) in
  map row_month rows = map (fun i => Some (inject_Z (Z.of_nat i + 1))) (seq 0 m)
  /\ (1 <= m)%nat
  /\ forall month : nat,
      exists plan,
        getPaymentPlanFn "schedule" (Some mpFixed) rows debts month = Some plan
        /\ p_monthlyPayment plan = Some (Qmax 0 (round2 (round2 mpFixed))).
Proof.
  cbv zeta. destruct (quickFill_rows months mpFixed) as [Hne Hall].
  split; [unfold quickFillSchedule; rewrite map_map; reflexivity|].
  split; [lia|].
  intros month. exact (constant_schedule_plan _ (Some mpFixed) _ debts month Hne Hall).
Qed.

(** ** Editing the schedule and the debt list *)

Lemma mapi_from_nth {A B : Type} (f : nat -> A -> B) (l : list A) :
  forall s i, nth_error (mapi_from f s l) i = option_map (f (s + i)%nat) (nth_error l i).
Proof.
  induction l as [|x l IH]; intros s i; cbn [mapi_from].
  - destruct i; reflexivity.
  - destruct i as [|i]; cbn [nth_error option_map].
    + rewrite Nat.add_0_r. reflexivity.
    + rewrite IH. rewrite Nat.add_succ_r. reflexivity.
Qed.

Lemma mapi_from_In {A B : Type} (f : nat -> A -> B) (l : list A) (y : B) :
  forall s, In y (mapi_from f s l)
            <-> exists i x, nth_error l i = Some x /\ y = f (s + i)%nat x.
Proof.
  induction l as [|x l IH]; intros s; cbn [mapi_from In].
  - split; [tauto | intros (i & x & H & _); destruct i; discriminate].
  - rewrite IH. split.
    + intros [H | (i & x' & H1 & H2)].
      * exists 0%nat, x. rewrite Nat.add_0_r. auto.
      * exists (S i), x'. rewrite Nat.add_succ_r. auto.
    + intros (i & x' & H1 & H2). destruct i as [|i]; cbn [nth_error] in H1.
      * left. inversion H1. subst. rewrite Nat.add_0_r. reflexivity.
      * right. exists i, x'. rewrite Nat.add_succ_r in H2. auto.
Qed.

Lemma obj_get_In {A : Type} (o : jsobj A) (k : string) (v : A) :
  obj_get o k = Some v -> In (k, v) o.
Proof.
  induction o as [|[k' v'] o IH]; cbn [obj_get In]; [discriminate|].
  destruct (String.eqb k' k) eqn:E.
  - apply String.eqb_eq in E. intros H. inversion H. subst. auto.
  - auto.
Qed.

Lemma obj_get_functional {A : Type} (o : jsobj A) (k : string) (v : A) :
  obj_functional o -> In (k, v) o -> obj_get o k = Some v.
Proof.
  induction o as [|[k' v'] o IH]; intros Hf Hin; [destruct Hin|].
  cbn [obj_get]. destruct (String.eqb k' k) eqn:E.
  - apply String.eqb_eq in E. subst k'. f_equal.
    apply (Hf k v' v); [left; reflexivity | exact Hin].
  - apply String.eqb_neq in E. destruct Hin as [Hin | Hin]; [inversion Hin; congruence|].
    apply IH; [|exact Hin].
    intros k0 v0 v0' H1 H2. apply (Hf k0 v0 v0'); right; assumption.
Qed.

Lemma NoDup_functional {A : Type} (o : jsobj A) :
  NoDup (List.map fst o) -> obj_functional o.
Proof.
  induction o as [|[k0 v0] o IH]; intros Hnd k v v' H1 H2; [destruct H1|].
  inversion Hnd as [|? ? Hn Hnd']; subst.
  destruct H1 as [H1 | H1], H2 as [H2 | H2].
  - congruence.
  - inversion H1; subst. exfalso. apply Hn. apply (in_map fst) in H2. exact H2.
  - inversion H2; subst. exfalso. apply Hn. apply (in_map fst) in H1. exact H1.
  - apply (IH Hnd' k v v' H1 H2).
Qed.

(** A copy of an object answers every look-up as the object does. *)
Lemma obj_get_copy {A : Type} (o : jsobj A) (k : string) :
  obj_functional o -> obj_get (obj_copy o) k = obj_get o k.
Proof.
  intros Hf.
  assert (Hf' : obj_functional (obj_copy o)).
  { intros k0 v v' H1 H2. unfold obj_copy in H1, H2.
    apply (proj1 (Object_entries_In o _)) in H1.
    apply (proj1 (Object_entries_In o _)) in H2. apply (Hf k0 v v' H1 H2). }
  destruct (obj_get o k) as [v|] eqn:E.
  - apply obj_get_functional; [exact Hf'|]. unfold obj_copy.
    apply (proj2 (Object_entries_In o _)). apply obj_get_In, E.
  - destruct (obj_get (obj_copy o) k) as [v|] eqn:E'; [|reflexivity].
    apply obj_get_In in E'. unfold obj_copy in E'.
    apply (proj1 (Object_entries_In o _)) in E'.
    apply (obj_get_functional o k v Hf) in E'. congruence.
Qed.

Lemma obj_get_delete_same {A : Type} (o : jsobj A) (k : string) :
  obj_get (obj_delete o k) k = None.
Proof.
  induction o as [|[k' v'] o IH]; cbn [obj_delete obj_get]; [reflexivity|].
  destruct (String.eqb k' k) eqn:E; [exact IH|]. cbn [obj_get]. rewrite E. exact IH.
Qed.

Lemma obj_get_delete_other {A : Type} (o : jsobj A) (k k' : string) :
  k <> k' -> obj_get (obj_delete o k) k' = obj_get o k'.
Proof.
  intros Hk. induction o as [|[k0 v0] o IH]; cbn [obj_delete obj_get]; [reflexivity|].
  destruct (String.eqb k0 k) eqn:E.
  - apply String.eqb_eq in E. subst k0.
    destruct (String.eqb k k') eqn:E'; [apply String.eqb_eq in E'; congruence | exact IH].
  - cbn [obj_get]. destruct (String.eqb k0 k'); [reflexivity | exact IH].
Qed.

(** X10: [setAllocation] changes one allocation of one schedule row: the
    debt's entry becomes the amount typed when that is a positive number and
    is removed otherwise (blank, zero, negative, no number); every other
    entry of the row, its month and amount, and every other row stay as they
    were.  The entry is that of any debt id but ["__proto__"], a name under
    which the assignment to an object literal stores no number
    ([setAllocation_proto]). *)
Theorem setAllocation_sets_one_entry (scheduleIdx : nat) (debtId : DebtId)
    (value : jsval) (prev : list ScheduleRow) (row : ScheduleRow) :
  nth_error prev scheduleIdx = Some row ->
  NoDup (List.map fst (row_allocations row)) ->
  let v := Qmax 0 (clampNumber (toNum value) 0) in
  let next := setAllocation scheduleIdx debtId value prev in
  exists row',
    nth_error next scheduleIdx = Some row'
    /\ row_month row' = row_month row /\ row_amount row' = row_amount row
    /\ (propertyKey debtId <> "__proto__"%string ->
        obj_get (row_allocations row') (propertyKey debtId)
        = (if Qleb v 0 then None else Some v))
    /\ (forall k, k <> propertyKey debtId ->
                  obj_get (row_allocations row') k = obj_get (row_allocations row) k)
    /\ (forall i, i <> scheduleIdx -> nth_error next i = nth_error prev i)
    /\ List.length next = List.length prev.
Proof.
  intros Hrow Hnd v next. apply NoDup_functional in Hnd.
  unfold next, setAllocation. eexists. split.
  { rewrite mapi_from_nth, Hrow. cbn [option_map Nat.add]. rewrite Nat.eqb_refl.
    cbn [negb]. reflexivity. }
  cbn [row_month row_amount row_allocations]. fold v.
  split; [reflexivity|]. split; [reflexivity|]. split; [|split; [|split]].
  - intros Hp.
    destruct (Qleb v 0); [apply obj_get_delete_same | apply obj_get_assign_same, Hp].
  - intros k Hk. destruct (Qleb v 0).
    + rewrite obj_get_delete_other by congruence. apply obj_get_copy, Hnd.
    + rewrite obj_get_assign_other by congruence. apply obj_get_copy, Hnd.
  - intros i Hi. rewrite mapi_from_nth. cbn [Nat.add].
    destruct (nth_error prev i) as [r|]; [|reflexivity]. cbn [option_map].
    apply Nat.eqb_neq in Hi. rewrite Hi. reflexivity.
  - clear. generalize 0%nat. induction prev as [|r prev IH]; intros s; cbn [mapi_from List.length];
      [reflexivity | rewrite IH; reflexivity].
Qed.

Lemma setAllocation_sets_one_entry_witness :
  let prev := [rowMonth1; rowRounded] in
  let v := Qmax 0 (clampNumber (toNum (VString "250.5")) 0) in
  let next := setAllocation 0 (IdNum 0) (VString "250.5") prev in
  exists row',
    nth_error next 0 = Some row'
    /\ row_month row' = row_month rowMonth1 /\ row_amount row' = row_amount rowMonth1
    /\ (propertyKey (IdNum 0) <> "__proto__"%string ->
        obj_get (row_allocations row') (propertyKey (IdNum 0))
        = (if Qleb v 0 then None else Some v))
    /\ (forall k, k <> propertyKey (IdNum 0) ->
                  obj_get (row_allocations row') k = obj_get (row_allocations rowMonth1) k)
    /\ (forall i, i <> 0%nat -> nth_error next i = nth_error prev i)
    /\ List.length next = List.length prev.
Proof.
  apply (setAllocation_sets_one_entry 0 (IdNum 0) (VString "250.5")
                                      [rowMonth1; rowRounded] rowMonth1).
  - reflexivity.
  - simpl. repeat constructor; simpl; tauto.
Defined.

Example setAllocation_ex :
  map row_allocations (setAllocation 0 (IdNum 0) (VString "250.5") [rowMonth1; rowRounded])
  = [[("1"%string, 500); ("0"%string, 501 # 2)]; [("0"%string, 100)]]
  /\ map row_allocations (setAllocation 0 (IdNum 1) (VString EmptyString)
                                        [rowMonth1; rowRounded])
     = [[]; [("0"%string, 100)]]
  /\ map row_allocations (setAllocation 1 (IdNum 0) (VString "abc") [rowMonth1; rowRounded])
     = [[("1"%string, 500)]; []].
Proof. vm_compute. repeat split. Qed.

(** Under the debt id ["__proto__"] an amount typed into the form is not
    stored: the row keeps the allocations it had. *)
Example setAllocation_proto :
  map row_allocations (setAllocation 0 (IdStr "__proto__") (VString "250.5") [rowMonth1])
  = [[("1"%string, 500)]].
Proof. vm_compute. reflexivity. Qed.

Lemma requiredLoop_zero_alloc (alloc : jsobj Q) (debts : list Debt) :
  Forall (fun e => snd e == 0) alloc ->
  forall rb rs, requiredLoop alloc debts rb rs = requiredLoop [] debts rb rs.
Proof.
  intros Hz. induction debts as [|d rest IH]; intros rb rs; cbn [requiredLoop];
    [reflexivity|].
  destruct (Qleb (Qmax 0 (clampNumber (d_balance d) 0)) 0); [apply IH|].
  assert (Hu : clampNumber (obj_get alloc (propertyKey (d_id d))) 0 == 0).
  { destruct (obj_get alloc (propertyKey (d_id d))) as [v|] eqn:E; cbn [clampNumber];
      [|reflexivity].
    destruct (obj_get_Forall _ _ _ _ Hz E) as [k' Hk]. exact Hk. }
  cbn [obj_get clampNumber].
  assert (Hr : round2 (Qmax (Qmax 0 (clampNumber (d_minimum_payment d) 0))
                            (Qmax 0 (clampNumber (obj_get alloc (propertyKey (d_id d))) 0)))
               = round2 (Qmax (Qmax 0 (clampNumber (d_minimum_payment d) 0)) (Qmax 0 0))).
  { apply round2_proper. revert Hu.
    generalize (clampNumber (obj_get alloc (propertyKey (d_id d))) 0).
    intros u Hu. qminmax; lra. }
  rewrite Hr. apply IH.
Qed.

Lemma activeDebts_In (debts : list Debt) (d : Debt) :
  In d (activeDebts debts) ->
  exists idx d0,
    nth_error debts idx = Some d0 /\ d = activeDebtOf idx (debtWithMin d0)
    /\ 0 < clampNumber (d_balance d) 0.
Proof.
  unfold activeDebts. intros H. apply filter_In in H. destruct H as [H Hb].
  apply mapi_from_In in H. destruct H as (i & x & Hx & Hd). cbn [Nat.add] in Hd.
  unfold debtsWithMin in Hx. rewrite nth_error_map in Hx.
  destruct (nth_error debts i) as [d0|] eqn:E; [|discriminate]. inversion Hx. subst x.
  exists i, d0. split; [exact E|]. split; [exact Hd|].
  apply Qltb_true. exact Hb.
Qed.

Lemma fill_zero (active : list Debt) :
  Forall (fun d => d_minimum_payment d = None) active ->
  forall alloc,
    Forall (fun e : string * Q => snd e = round2 0) alloc ->
    Forall (fun e : string * Q => snd e = round2 0)
           (fold_left (fun alloc d =>
                         obj_assign alloc (propertyKey (d_id d))
                                    (round2v (d_minimum_payment d)))
                      active alloc).
Proof.
  induction 1 as [|d rest Hd _ IH]; intros alloc Ha; cbn [fold_left]; [exact Ha|].
  apply IH. apply obj_assign_Forall; [exact Ha|]. cbn [snd]. rewrite Hd. reflexivity.
Qed.

(** X11: [fillMinimumsForMonth] stores [round2(d.minimum_payment)] for the
    debts it is given.  The component gives it [activeDebts], whose objects
    carry no [minimum_payment]: every allocation it stores is then 0.00, and
    the resolver requires for such a row what it requires for the row that
    [clearAllocationsForMonth] leaves, which has no allocations. *)
Theorem fillMinimums_on_activeDebts (debts : list Debt) (scheduleIdx : nat)
    (prev : list ScheduleRow) (row : ScheduleRow) :
  nth_error prev scheduleIdx = Some row ->
  exists filled cleared,
    nth_error (fillMinimumsForMonth (activeDebts debts) scheduleIdx prev) scheduleIdx
    = Some filled
    /\ nth_error (clearAllocationsForMonth scheduleIdx prev) scheduleIdx = Some cleared
    /\ row_month filled = row_month row /\ row_amount filled = row_amount row
    /\ row_month cleared = row_month row /\ row_amount cleared = row_amount row
    /\ Forall (fun e => snd e = round2 0) (row_allocations filled)
    /\ row_allocations cleared = []
    /\ forall ds monthlyPayment,
        computeScheduleMonthRequiredPayments ds (Some filled) monthlyPayment
        = computeScheduleMonthRequiredPayments ds (Some cleared) monthlyPayment.
Proof.
  intros Hrow. unfold fillMinimumsForMonth, clearAllocationsForMonth. eexists. eexists.
  split.
  { rewrite mapi_from_nth, Hrow. cbn [option_map Nat.add]. rewrite Nat.eqb_refl.
    cbn [negb]. reflexivity. }
  split.
  { rewrite mapi_from_nth, Hrow. cbn [option_map Nat.add]. rewrite Nat.eqb_refl.
    reflexivity. }
  cbn [row_month row_amount row_allocations].
  do 4 (split; [reflexivity|]).
  assert (Hz : Forall (fun e : string * Q => snd e = round2 0)
                      (fold_left (fun alloc d =>
                                    obj_assign alloc (propertyKey (d_id d))
                                               (round2v (d_minimum_payment d)))
                                 (activeDebts debts) [])).
  { apply fill_zero; [|constructor]. apply Forall_forall. intros d Hd.
    apply activeDebts_In in Hd. destruct Hd as (idx & d0 & _ & Hd & _). subst d.
    reflexivity. }
  split; [exact Hz|]. split; [reflexivity|].
  intros ds monthlyPayment. unfold computeScheduleMonthRequiredPayments.
  cbn [row_allocations]. rewrite requiredLoop_zero_alloc; [reflexivity|].
  eapply Forall_impl; [|exact Hz]. intros e He. cbn beta in He. rewrite He.
  rewrite round2_0. reflexivity.
Qed.

Lemma fillMinimums_on_activeDebts_witness :
  exists filled cleared,
    nth_error (fillMinimumsForMonth (activeDebts storedDefaults) 0 [rowMonth1]) 0
    = Some filled
    /\ nth_error (clearAllocationsForMonth 0 [rowMonth1]) 0 = Some cleared
    /\ row_month filled = row_month rowMonth1 /\ row_amount filled = row_amount rowMonth1
    /\ row_month cleared = row_month rowMonth1
    /\ row_amount cleared = row_amount rowMonth1
    /\ Forall (fun e => snd e = round2 0) (row_allocations filled)
    /\ row_allocations cleared = []
    /\ forall ds monthlyPayment,
        computeScheduleMonthRequiredPayments ds (Some filled) monthlyPayment
        = computeScheduleMonthRequiredPayments ds (Some cleared) monthlyPayment.
Proof.
  apply (fillMinimums_on_activeDebts storedDefaults 0 [rowMonth1] rowMonth1).
  reflexivity.
Defined.

Example fillMinimums_ex :
  map row_allocations (fillMinimumsForMonth (activeDebts storedDefaults) 0 [rowMonth1])
  = [[("0"%string, 0 # 100); ("1"%string, 0 # 100)]].
Proof. vm_compute. reflexivity. Qed.

Lemma filteri_remove {A : Type} (l : list A) :
  forall s index,
    filteri_from (fun i => negb (Nat.eqb i index)) s l
    = if Nat.ltb index s then l
      else firstn (index - s) l ++ skipn (S (index - s)) l.
Proof.
  induction l as [|x l IH]; intros s index; cbn [filteri_from].
  - destruct (Nat.ltb index s); [reflexivity|]. rewrite firstn_nil, skipn_nil. reflexivity.
  - rewrite IH. destruct (Nat.eqb s index) eqn:E; cbn [negb].
    + apply Nat.eqb_eq in E. subst s.
      rewrite (proj2 (Nat.ltb_lt index (S index))) by lia.
      rewrite Nat.ltb_irrefl, Nat.sub_diag. reflexivity.
    + apply Nat.eqb_neq in E.
      destruct (Nat.ltb index s) eqn:L.
      * apply Nat.ltb_lt in L. rewrite (proj2 (Nat.ltb_lt index (S s))) by lia. reflexivity.
      * apply Nat.ltb_ge in L. rewrite (proj2 (Nat.ltb_ge index (S s))) by lia.
        replace (index - s)%nat with (S (index - S s)) by lia. reflexivity.
Qed.

(** X12: [removeDebt] never leaves the debt list empty: removing the only
    debt puts a fresh empty debt in its place; otherwise the debt at the
    index is taken out and the others keep their order, and an index beyond
    the list removes nothing (App.jsx and DebtsForm.jsx share the code).
    [removeScheduleMonth] takes the row at the index out in the same way, but
    may leave the schedule empty. *)
Theorem removeDebt_never_empty {A : Type} (emptyDebt : A) (index : nat) (prev : list A) :
  removeDebt emptyDebt index prev <> []
  /\ ((index < List.length prev)%nat -> (2 <= List.length prev)%nat ->
      removeDebt emptyDebt index prev = firstn index prev ++ skipn (S index) prev
      /\ List.length (removeDebt emptyDebt index prev) = pred (List.length prev))
  /\ ((index < List.length prev)%nat -> (List.length prev <= 1)%nat ->
      removeDebt emptyDebt index prev = [emptyDebt])
  /\ ((List.length prev <= index)%nat -> prev <> [] ->
      removeDebt emptyDebt index prev = prev)
  /\ (forall rows : list ScheduleRow,
         removeScheduleMonth index rows = firstn index rows ++ skipn (S index) rows).
Proof.
  unfold removeDebt, removeScheduleMonth. rewrite filteri_remove.
  cbn [Nat.ltb Nat.leb]. rewrite Nat.sub_0_r.
  split; [|split; [|split; [|split]]].
  - destruct (firstn index prev ++ skipn (S index) prev); discriminate.
  - intros Hi H2.
    assert (Hl : List.length (firstn index prev ++ skipn (S index) prev)
                 = pred (List.length prev)).
    { rewrite length_app, firstn_length_le, length_skipn by lia. lia. }
    destruct (firstn index prev ++ skipn (S index) prev) eqn:E;
      [cbn in Hl; lia | auto].
  - intros Hi H1. destruct prev as [|x [|y prev]]; cbn [List.length] in *; try lia.
    assert (index = 0%nat) by lia. subst. reflexivity.
  - intros Hi Hne. rewrite firstn_all2 by exact Hi. rewrite skipn_all2 by lia.
    rewrite app_nil_r. destruct prev; [congruence | reflexivity].
  - intros rows. rewrite filteri_remove. cbn [Nat.ltb Nat.leb]. rewrite Nat.sub_0_r.
    reflexivity.
Qed.

(** ** The months of a strategy run *)

Lemma Forall2_diag {A : Type} (R : A -> A -> Prop) (l : list A) :
  (forall a, R a a) -> Forall2 R l l.
Proof. intros H. induction l; constructor; auto. Qed.

Lemma Forall2_compose {A : Type} (R1 R2 R3 : A -> A -> Prop) :
  (forall a b c, R1 a b -> R2 b c -> R3 a c) ->
  forall l1 l2 l3, Forall2 R1 l1 l2 -> Forall2 R2 l2 l3 -> Forall2 R3 l1 l3.
Proof.
  intros H l1 l2 l3 H12. revert l3. induction H12; intros l3 H23; inversion H23; subst;
    constructor; eauto.
Qed.

Lemma Forall2_weaken {A B : Type} (R1 R2 : A -> B -> Prop) :
  (forall a b, R1 a b -> R2 a b) ->
  forall l1 l2, Forall2 R1 l1 l2 -> Forall2 R2 l1 l2.
Proof. intros H l1 l2 H12. induction H12; constructor; auto. Qed.

(** The month loop, by an invariant of its variables: the loop is left with
    the invariant, either because every debt is paid or the months are used
    up, or through the over-budget branch. *)
Lemma simLoop_inv (Inv : nat -> list SimDebt -> Q -> list TimelineEntry -> Prop)
      strategy fn :
  (forall month st ti tl,
      Inv month st ti tl -> allPaid st = false -> planOverBudget (fn month) = false ->
      Inv (S month)
          (fst (fst (simulateMonth strategy month (fn month) st ti)))
          (snd (fst (simulateMonth strategy month (fn month) st ti)))
          (tl ++ [snd (simulateMonth strategy month (fn month) st ti)])) ->
  forall monthsLeft month st ti tl,
    Inv month st ti tl ->
    exists month' st' ti' tl',
      Inv month' st' ti' tl'
      /\ (month <= month' <= month + monthsLeft)%nat
      /\ ((simLoop strategy fn monthsLeft month st ti tl = (st', ti', tl')
           /\ (allPaid st' = true \/ month' = (month + monthsLeft)%nat))
          \/ (simLoop strategy fn monthsLeft month st ti tl
              = (st', ti', tl' ++ [invalidEntry month' (fn month') st' ti'])
              /\ allPaid st' = false /\ planOverBudget (fn month') = true)).
Proof.
  intros Hstep. induction monthsLeft as [|n IH]; intros month st ti tl Hinv.
  - exists month, st, ti, tl. split; [exact Hinv|]. split; [lia|]. left.
    split; [reflexivity | right; lia].
  - rewrite simLoop_S. destruct (allPaid st) eqn:Hp.
    + exists month, st, ti, tl. split; [exact Hinv|]. split; [lia|]. left. auto.
    + destruct (planOverBudget (fn month)) eqn:Ho.
      * exists month, st, ti, tl. split; [exact Hinv|]. split; [lia|]. right. auto.
      * destruct (IH _ _ _ _ (Hstep _ _ _ _ Hinv Hp Ho))
          as (month' & st' & ti' & tl' & Hinv' & Hm & Hr).
        exists month', st', ti', tl'. split; [exact Hinv'|]. split; [lia|].
        destruct Hr as [[E Hd] | Hr]; [left | right; exact Hr].
        split; [exact E|]. destruct Hd as [Hd | Hd]; [auto | right; lia].
Qed.

(** A simulated month in terms of its passes. *)
Lemma simulateMonth_fields strategy month plan st ti :
  let r := simulateMonth strategy month plan st ti in
  let mp := monthPayments strategy month plan st in
  let x := fst (fst mp) in
  let acc := snd mp in
  let e := snd r in
  fst (fst r) = x_state x
  /\ snd (fst r) = round2 (ti + snd (fst mp))
  /\ e_month e = month /\ e_invalid e = false
  /\ e_paymentThisMonth e = paymentOf plan
  /\ e_interestThisMonth e = snd (fst mp)
  /\ e_totalInterestToDate e = round2 (ti + snd (fst mp))
  /\ e_minPaid e = a_minPaidTotal acc /\ e_directedPaid e = a_directedPaidTotal acc
  /\ e_extraPaid e = x_extraPaidTotal x
  /\ e_totalRemaining e = totalRemainingOf (x_state x).
Proof.
  cbv zeta. unfold simulateMonth.
  destruct (monthPayments strategy month plan st) as [[x i] acc].
  destruct (actualTarget (x_paidThisMonthByDebtId x)). cbn. repeat split.
Qed.

Lemma monthPayments_unfold strategy month plan st :
  let st2 := fst (fst (monthRequired month plan st)) in
  let acc := snd (monthRequired month plan st) in
  monthPayments strategy month plan st
  = (extraLoop strategy month (S (List.length st2))
               (mkExtra st2 (a_remaining acc) 0 [] (a_paidThisMonthByDebtId acc)),
     snd (accrueInterest st 0), acc).
Proof.
  cbv zeta. unfold monthPayments. rewrite monthRequired_unfold. reflexivity.
Qed.

Lemma simulateStrategy_fields strategy debts fn :
  let r := simulateStrategy strategy debts fn in
  let run := runMonths strategy debts fn in
  r_timeline r = snd run /\ r_totalInterest r = snd (fst run)
  /\ r_monthsToDebtFree r
     = (if allPaid (fst (fst run)) then List.length (snd run) else MAX_MONTHS)
  /\ r_perDebt r
     = map (fun d =>
              {| pd_id := s_id d; pd_name := s_name d; pd_apr := s_apr d;
                 pd_payoffMonth := match s_payoffMonth d with
                                   | Some m => m
                                   | None => r_monthsToDebtFree r
                                   end;
                 pd_interestPaid := s_interestPaid d |})
           (fst (fst run)).
Proof.
  cbv zeta. unfold simulateStrategy.
  destruct (runMonths strategy debts fn) as [[st ti] tl]. cbn. repeat split.
Qed.

(** The months of the timeline the loop leaves are numbered from 1. *)
Lemma simLoop_numbered strategy fn (state0 : list SimDebt) :
  map e_month (snd (simLoop strategy fn MAX_MONTHS 1 state0 0 []))
  = seq 1 (List.length (snd (simLoop strategy fn MAX_MONTHS 1 state0 0 []))).
Proof.
  destruct (simLoop_inv
              (fun month st ti tl =>
                 map e_month tl = seq 1 (List.length tl) /\ S (List.length tl) = month)
              strategy fn) with (monthsLeft := MAX_MONTHS) (month := 1%nat)
                                (st := state0) (ti := 0) (tl := @nil TimelineEntry)
    as (month' & st' & ti' & tl' & [Hn Hl] & _ & Hr).
  - intros month st ti tl [Hn Hl] _ _.
    destruct (simulateMonth_fields strategy month (fn month) st ti)
      as (_ & _ & Em & _).
    rewrite map_app, length_app, Hn. cbn [map List.length]. rewrite Em.
    rewrite Nat.add_1_r, seq_S. cbn [Nat.add]. rewrite Hl. split; [reflexivity | lia].
  - split; reflexivity.
  - destruct Hr as [[E _] | [E _]]; rewrite E; cbn [snd]; [exact Hn|].
    rewrite map_app, length_app, Hn. cbn [map List.length invalidEntry e_month].
    rewrite Nat.add_1_r, seq_S. cbn [Nat.add]. rewrite Hl. reflexivity.
Qed.

Lemma seq_nth_error (len start i : nat) :
  (i < len)%nat -> nth_error (seq start len) i = Some (start + i)%nat.
Proof.
  revert start i. induction len as [|len IH]; intros start i Hi; [lia|].
  destruct i as [|i]; cbn [seq nth_error].
  - rewrite Nat.add_0_r. reflexivity.
  - rewrite IH by lia. f_equal. lia.
Qed.

(** X13: the timeline of a run numbers its months 1, 2, 3, ... without a
    gap: the entry at position [i] (from 0) is the entry of month [i + 1],
    the invalid entry of an over-budget month included, and there are at most
    600 of them. *)
Theorem timeline_months_numbered strategy (debts : list Debt) fn :
  let r := simulateStrategy strategy debts fn in
  map e_month (r_timeline r) = seq 1 (List.length (r_timeline r))
  /\ (forall i e, nth_error (r_timeline r) i = Some e -> e_month e = S i)
  /\ (List.length (r_timeline r) <= 600)%nat.
Proof.
  cbv zeta. destruct (simulateStrategy_fields strategy debts fn) as [-> _].
  unfold runMonths.
  pose proof (simLoop_numbered strategy fn (initState debts)) as Hn.
  split; [exact Hn|]. split.
  - intros i e He.
    assert (Hi : (i < List.length (snd (simLoop strategy fn MAX_MONTHS 1 (initState debts) 0 [])))%nat)
      by (apply nth_error_Some; congruence).
    pose proof (map_nth_error e_month _ _ He) as Hm. rewrite Hn in Hm.
    rewrite seq_nth_error in Hm by exact Hi. inversion Hm. reflexivity.
  - destruct (simLoop_timeline strategy fn MAX_MONTHS 1 (initState debts) 0 [])
      as (suffix & E & L).
    rewrite E. cbn [app]. exact L.
Qed.

Lemma initState_nothing_owed (debts : list Debt) :
  Forall (fun d => clampNumber (d_balance d) 0 <= 0) debts ->
  allPaid (initState debts) = true.
Proof.
  intros H. unfold allPaid, initState. rewrite forallb_forall. intros s Hs.
  apply in_map_iff in Hs. destruct Hs as (d & <- & Hd). cbn [s_balance].
  rewrite Forall_forall in H. specialize (H d Hd).
  apply Qleb_true. rewrite (round2_proper _ 0).
  - rewrite round2_0. unfold EPS. lra.
  - revert H. qminmax; lra.
Qed.

(** X14: a run has an empty timeline exactly when no debt owes anything at
    its start; it then reports 0 months, no interest and payoff month 0 for
    every debt.  Balances that are zero, negative or no number owe
    nothing. *)
Theorem nothing_owed_empty_timeline strategy (debts : list Debt) fn :
  let r := simulateStrategy strategy debts fn in
  (r_timeline r = [] <-> allPaid (initState debts) = true)
  /\ (allPaid (initState debts) = true ->
      r_monthsToDebtFree r = 0%nat /\ r_totalInterest r = 0
      /\ Forall (fun p => pd_payoffMonth p = 0%nat /\ pd_interestPaid p = 0) (r_perDebt r))
  /\ (Forall (fun d => clampNumber (d_balance d) 0 <= 0) debts ->
      allPaid (initState debts) = true).
Proof.
  cbv zeta.
  destruct (simulateStrategy_fields strategy debts fn) as (Et & Ei & Em & Ep).
  assert (Hrun : allPaid (initState debts) = true ->
                 runMonths strategy debts fn = (initState debts, 0, [])).
  { intros Hp. unfold runMonths. change MAX_MONTHS with (S 599).
    rewrite simLoop_S, Hp. reflexivity. }
  split; [|split].
  - split.
    + intros Hnil. destruct (allPaid (initState debts)) eqn:Hp; [reflexivity|].
      exfalso. rewrite Et in Hnil. unfold runMonths in Hnil.
      change MAX_MONTHS with (S 599) in Hnil. rewrite simLoop_S, Hp in Hnil.
      destruct (planOverBudget (fn 1%nat)).
      * cbn in Hnil. discriminate.
      * destruct (simLoop_timeline strategy fn 599 2
                    (fst (fst (simulateMonth strategy 1 (fn 1%nat) (initState debts) 0)))
                    (snd (fst (simulateMonth strategy 1 (fn 1%nat) (initState debts) 0)))
                    ([] ++ [snd (simulateMonth strategy 1 (fn 1%nat) (initState debts) 0)]))
          as (suffix & E & _).
        rewrite Hnil in E. cbn in E. discriminate.
    + intros Hp. rewrite Et, (Hrun Hp). reflexivity.
  - intros Hp. rewrite Ep, Em, Ei, (Hrun Hp). cbn [fst snd]. rewrite Hp.
    split; [reflexivity|]. split; [reflexivity|].
    apply Forall_forall. intros p Hin. apply in_map_iff in Hin.
    destruct Hin as (s & <- & Hs). unfold initState in Hs. apply in_map_iff in Hs.
    destruct Hs as (d & <- & _). cbn. auto.
  - apply initState_nothing_owed.
Qed.

Lemma recordPayoff_active (month : nat) (d : SimDebt) :
  EPS < s_balance d -> recordPayoff month d = d.
Proof.
  intros H. unfold recordPayoff.
  destruct (Qleb (s_balance d) EPS) eqn:E; [|reflexivity]. qbool. lra.
Qed.

Lemma Forall2_map_left {A B C : Type} (R : B -> C -> Prop) (f : A -> B)
      (l : list A) (l' : list C) :
  Forall2 R (map f l) l' <-> Forall2 (fun a c => R (f a) c) l l'.
Proof.
  split.
  - revert l'. induction l as [|a l IH]; intros l' H; inversion H; subst; constructor; auto.
  - induction 1; simpl; constructor; auto.
Qed.

Lemma payStep_trans (month : nat) (d d1 d2 : SimDebt) :
  payStep month d d1 -> payStep month d1 d2 -> payStep month d d2.
Proof.
  intros [-> | (Hb & b & ->)] H2; [exact H2|].
  destruct H2 as [-> | (Hb1 & b' & ->)].
  - right. eauto.
  - right. split; [exact Hb|]. exists b'.
    destruct (recordPayoff_fields month (set_balance d b)) as (_ & _ & Fb & _).
    rewrite Fb in Hb1. cbn [set_balance s_balance] in Hb1.
    rewrite (recordPayoff_active month (set_balance d b)) by exact Hb1. reflexivity.
Qed.

Lemma payOne_payStep month rb dyn (d : SimDebt) (acc : PayAcc) :
  payStep month d (fst (payOne month rb dyn d acc)).
Proof.
  unfold payOne. destruct (Qleb (s_balance d) EPS) eqn:E; [left; reflexivity|].
  destruct (obj_or0 dyn (propertyKey (s_id d))); [|left; reflexivity].
  match goal with |- context [if ?c then _ else _] => destruct c end; cbn [fst].
  - right. qbool. split; [lra | eauto].
  - left. reflexivity.
Qed.

Lemma payRequired_payStep month rb dyn (state : list SimDebt) :
  forall acc, Forall2 (payStep month) state (fst (payRequired month rb dyn state acc)).
Proof.
  induction state as [|d rest IH]; intros acc.
  - constructor.
  - rewrite payRequired_cons.
    pose proof (payOne_payStep month rb dyn d acc) as H1.
    destruct (payOne month rb dyn d acc) as [d' acc1]. cbn [fst] in H1.
    specialize (IH acc1).
    destruct (payRequired month rb dyn rest acc1) as [rest' acc']. cbn [fst] in *.
    constructor; assumption.
Qed.

Lemma extraStep_payStep strategy month (x x' : ExtraState) :
  extraStep strategy month x = Some x' ->
  Forall2 (payStep month) (x_state x) (x_state x').
Proof.
  intros Hstep.
  destruct (extraStep_inv _ _ _ _ Hstep) as (tid & t & _ & Hfind & Hb & _ & _ & ->).
  destruct (find_split _ _ _ Hfind) as (l1 & l2 & E & _ & Eupd).
  unfold extraPay. cbn [x_state]. rewrite Eupd, E.
  apply Forall2_app; [apply Forall2_diag; intros a; left; reflexivity|].
  constructor; [|apply Forall2_diag; intros a; left; reflexivity].
  right. split; [exact Hb | eauto].
Qed.

Lemma extraLoop_payStep strategy month (fuel : nat) :
  forall x, Forall2 (payStep month) (x_state x) (x_state (extraLoop strategy month fuel x)).
Proof.
  induction fuel as [|fuel IH]; intros x; cbn [extraLoop].
  - apply Forall2_diag. intros a. left. reflexivity.
  - destruct (extraStep strategy month x) as [x1|] eqn:E.
    + apply (Forall2_compose (payStep month) (payStep month) (payStep month)
                             (payStep_trans month) _ (x_state x1)).
      * exact (extraStep_payStep strategy month x x1 E).
      * apply IH.
    + apply Forall2_diag. intros a. left. reflexivity.
Qed.

(** The payment passes of a month, debt by debt, from the state after the
    accrual. *)
Lemma month_payStep strategy month plan st ti :
  Forall2 (fun d d' => payStep month (accrueDebt d) d')
          st (fst (fst (simulateMonth strategy month plan st ti))).
Proof.
  destruct (simulateMonth_fields strategy month plan st ti) as [-> _].
  rewrite monthPayments_unfold. cbn [fst snd]. rewrite monthRequired_unfold. cbn [fst snd].
  set (pr := payRequired _ _ _ _ _).
  apply (proj1 (Forall2_map_left (payStep month) accrueDebt st _)).
  apply (Forall2_compose (payStep month) (payStep month) (payStep month)
                         (payStep_trans month) _ (fst pr)).
  - apply payRequired_payStep.
  - apply (extraLoop_payStep strategy month (S (List.length (fst pr)))
             (mkExtra (fst pr) (a_remaining (snd pr)) 0 [] (a_paidThisMonthByDebtId (snd pr)))).
Qed.

Lemma accrueDebt_paid (d : SimDebt) : s_balance d <= EPS -> accrueDebt d = d.
Proof.
  intros H. unfold accrueDebt. apply Qleb_true in H. rewrite H. reflexivity.
Qed.

Lemma accrueDebt_payoffMonth (d : SimDebt) :
  s_payoffMonth (accrueDebt d) = s_payoffMonth d.
Proof. unfold accrueDebt. destruct (Qleb (s_balance d) EPS); reflexivity. Qed.

(** X15: a debt that is paid off is never touched again: a month of the run
    leaves a debt whose balance is at most 0.000001 exactly as it found it
    (no interest, no payment, its payoff month and interest paid kept), and
    no month changes the id, the name, the rates or the floor of any debt. *)
Theorem paid_off_debts_are_frozen strategy (month : nat) plan (state : list SimDebt) ti :
  Forall2 (fun d d' =>
             (s_balance d <= EPS -> d' = d)
             /\ s_id d' = s_id d /\ s_name d' = s_name d /\ s_type d' = s_type d
             /\ s_apr d' = s_apr d /\ s_r d' = s_r d
             /\ s_min_floor_enabled d' = s_min_floor_enabled d
             /\ s_min_floor d' = s_min_floor d)
          state (fst (fst (simulateMonth strategy month plan state ti))).
Proof.
  eapply Forall2_weaken; [|apply month_payStep]. cbn beta.
  intros d d' H.
  assert (Ha : s_id (accrueDebt d) = s_id d /\ s_name (accrueDebt d) = s_name d
               /\ s_type (accrueDebt d) = s_type d /\ s_apr (accrueDebt d) = s_apr d
               /\ s_r (accrueDebt d) = s_r d
               /\ s_min_floor_enabled (accrueDebt d) = s_min_floor_enabled d
               /\ s_min_floor (accrueDebt d) = s_min_floor d).
  { unfold accrueDebt. destruct (Qleb (s_balance d) EPS); cbn; repeat split. }
  split.
  - intros Hb. rewrite (accrueDebt_paid d Hb) in H.
    destruct H as [-> | (Hb' & _)]; [reflexivity | lra].
  - destruct H as [-> | (_ & b & ->)]; [exact Ha|].
    unfold recordPayoff.
    destruct (Qleb _ EPS); [destruct (s_payoffMonth _)|]; cbn; exact Ha.
Qed.

Lemma month_payoffRecorded strategy month plan st ti :
  Forall2 (payoffRecorded month) st (fst (fst (simulateMonth strategy month plan st ti))).
Proof.
  eapply Forall2_weaken; [|apply month_payStep]. cbn beta.
  intros d d' H. unfold payoffRecorded. rewrite <- (accrueDebt_payoffMonth d).
  destruct H as [-> | (_ & b & ->)].
  - destruct (s_payoffMonth (accrueDebt d)); auto.
  - unfold recordPayoff. cbn [set_balance s_balance s_payoffMonth].
    destruct (Qleb b EPS) eqn:E.
    + destruct (s_payoffMonth (accrueDebt d)) eqn:P; cbn [set_balance s_payoffMonth set_payoffMonth s_balance].
      * exact P.
      * right. split; [reflexivity|]. apply Qleb_true. exact E.
    + destruct (s_payoffMonth (accrueDebt d)) eqn:P; cbn [set_balance s_payoffMonth];
        [exact P | left; exact P].
Qed.

(** X16: the payoff month of a debt is recorded once: a month of the run
    keeps a recorded payoff month, and records its own number only for a
    debt whose balance it has brought down to nothing.  In the result of a
    run no debt is reported paid off later than the run's months to debt
    free. *)
Theorem payoffMonth_recorded_once strategy (debts : list Debt) fn :
  (forall month plan state ti,
      Forall2 (payoffRecorded month) state
              (fst (fst (simulateMonth strategy month plan state ti))))
  /\ let r := simulateStrategy strategy debts fn in
     Forall (fun p => (pd_payoffMonth p <= r_monthsToDebtFree r)%nat) (r_perDebt r).
Proof.
  split; [intros; apply month_payoffRecorded|]. cbv zeta.
  destruct (simulateStrategy_fields strategy debts fn) as (Et & Ei & Em & Ep).
  rewrite Ep. apply Forall_map. cbn [pd_payoffMonth].
  pose proof (simLoop_timeline strategy fn MAX_MONTHS 1 (initState debts) 0 [])
    as (suffix & Esuf & Lsuf).
  fold (runMonths strategy debts fn) in Esuf. cbn [app] in Esuf.
  assert (Hrun : Forall (fun d => forall m, s_payoffMonth d = Some m ->
                                            (m <= List.length (snd (runMonths strategy debts fn)))%nat)
                        (fst (fst (runMonths strategy debts fn)))).
  { unfold runMonths.
    destruct (simLoop_inv
                (fun month st ti tl =>
                   S (List.length tl) = month
                   /\ Forall (fun d => forall m, s_payoffMonth d = Some m -> (m < month)%nat) st)
                strategy fn) with (monthsLeft := MAX_MONTHS) (month := 1%nat)
                                  (st := initState debts) (ti := 0) (tl := @nil TimelineEntry)
      as (month' & st' & ti' & tl' & [Hl Hp] & _ & Hr).
    - intros month st ti tl [Hl Hp] _ _. split.
      + rewrite length_app. cbn [List.length]. lia.
      + pose proof (month_payoffRecorded strategy month (fn month) st ti) as H2.
        revert Hp H2. generalize (fst (fst (simulateMonth strategy month (fn month) st ti))).
        intros st' Hp H2. induction H2 as [|d d' l l' Hd _ IH]; [constructor|].
        inversion Hp as [|? ? Hpd Hpl]; subst. constructor; [|apply IH; exact Hpl].
        intros m Hm. unfold payoffRecorded in Hd.
        destruct (s_payoffMonth d) as [m0|] eqn:P.
        * rewrite Hd in Hm. inversion Hm. subst. specialize (Hpd m eq_refl). lia.
        * destruct Hd as [Hd | [Hd _]]; rewrite Hd in Hm; [discriminate|].
          inversion Hm. lia.
    - split; [reflexivity|]. unfold initState. apply Forall_map. cbn [s_payoffMonth].
      apply Forall_forall. intros d _ m Hm. discriminate.
    - assert (Hw : forall tl'' : list TimelineEntry,
                 (List.length tl' <= List.length tl'')%nat ->
                 Forall (fun d => forall m, s_payoffMonth d = Some m ->
                                            (m <= List.length tl'')%nat) st').
      { intros tl'' Hle. eapply Forall_impl; [|exact Hp]. cbn beta.
        intros d Hd m Hm. specialize (Hd m Hm). lia. }
      destruct Hr as [[E _] | [E _]]; rewrite E; cbn [fst snd]; apply Hw;
        [lia | rewrite length_app; lia]. }
  rewrite Em. rewrite Esuf in Hrun |- *.
  eapply Forall_impl; [|exact Hrun]. cbn beta. intros d Hd.
  destruct (s_payoffMonth d) as [m|]; [|lia].
  specialize (Hd m eq_refl).
  destruct (allPaid (fst (fst (runMonths strategy debts fn)))); [exact Hd|].
  unfold MAX_MONTHS in *. lia.
Qed.
(** ** The interest and the balances of a run *)

Lemma accrueInterest_nonneg (state : list SimDebt) :
  state_ok state ->
  forall total, 0 <= total -> 0 <= snd (accrueInterest state total).
Proof.
  induction 1 as [|d rest (_ & H0 & Hr) _ IH]; intros total Ht; cbn [accrueInterest].
  - exact Ht.
  - destruct (Qleb (s_balance d) EPS).
    + specialize (IH total Ht). destruct (accrueInterest rest total). exact IH.
    + assert (Hi : 0 <= round2 (total + round2 (s_balance d * s_r d))).
      { apply round2_nonneg.
        pose proof (round2_nonneg _ (Qmult_le_0_compat _ _ H0 Hr)). lra. }
      specialize (IH _ Hi).
      destruct (accrueInterest rest (round2 (total + round2 (s_balance d * s_r d)))).
      exact IH.
Qed.

Lemma simulateMonth_ok strategy month plan (st : list SimDebt) ti :
  state_ok st -> state_ok (fst (fst (simulateMonth strategy month plan st ti))).
Proof.
  intros H. rewrite simulateMonth_state.
  apply (monthPayments_ok strategy month plan st H).
Qed.

Lemma simulatedMonths_app (tl : list TimelineEntry) (e : TimelineEntry) :
  simulatedMonths (tl ++ [e])
  = if e_invalid e then simulatedMonths tl else simulatedMonths tl ++ [e].
Proof.
  unfold simulatedMonths. rewrite filter_app. cbn [filter].
  destruct (e_invalid e); cbn [negb]; [apply app_nil_r | reflexivity].
Qed.

Lemma runningSum_app (l : list Q) (x start : Q) :
  roundedRunningSum (l ++ [x]) start = round2 (roundedRunningSum l start + x).
Proof. unfold roundedRunningSum. rewrite fold_left_app. reflexivity. Qed.

(** The entries of a timeline that is extended by one keep their running
    totals. *)
Lemma running_totals_app (ti : Q) (tl : list TimelineEntry) (e : TimelineEntry) :
  (forall k e0, nth_error tl k = Some e0 ->
                e_totalInterestToDate e0
                = roundedRunningSum
                    (map e_interestThisMonth (simulatedMonths (firstn (S k) tl))) 0) ->
  e_totalInterestToDate e
  = roundedRunningSum (map e_interestThisMonth (simulatedMonths (tl ++ [e]))) 0 ->
  forall k e0, nth_error (tl ++ [e]) k = Some e0 ->
               e_totalInterestToDate e0
               = roundedRunningSum
                   (map e_interestThisMonth (simulatedMonths (firstn (S k) (tl ++ [e])))) 0.
Proof.
  intros Htl He k e0 Hk.
  destruct (Nat.lt_ge_cases k (List.length tl)) as [Hlt | Hge].
  - rewrite nth_error_app1 in Hk by exact Hlt.
    rewrite firstn_app. replace (S k - List.length tl)%nat with 0%nat by lia.
    cbn [firstn]. rewrite app_nil_r. apply Htl. exact Hk.
  - rewrite nth_error_app2 in Hk by exact Hge.
    destruct (k - List.length tl)%nat as [|j] eqn:Ej; cbn [nth_error] in Hk.
    + injection Hk as <-. rewrite firstn_all2 by (rewrite length_app; cbn; lia). exact He.
    + destruct j; discriminate.
Qed.

(** X17: the total interest of a run is the rounded running sum of the
    interest of the months it has simulated ([round2] after each month); no
    month charges negative interest, and every entry of the timeline carries
    the running total up to its month. *)
Theorem interest_adds_up strategy (debts : list Debt) fn :
  let r := simulateStrategy strategy debts fn in
  r_totalInterest r
  = roundedRunningSum (map e_interestThisMonth (simulatedMonths (r_timeline r))) 0
  /\ Forall (fun e => 0 <= e_interestThisMonth e) (r_timeline r)
  /\ (forall k e,
         nth_error (r_timeline r) k = Some e ->
         e_totalInterestToDate e
         = roundedRunningSum
             (map e_interestThisMonth (simulatedMonths (firstn (S k) (r_timeline r)))) 0).
Proof.
  cbv zeta.
  destruct (simulateStrategy_fields strategy debts fn) as (Et & Ei & _ & _).
  rewrite Et, Ei. unfold runMonths.
  destruct (simLoop_inv
              (fun (month : nat) st ti tl =>
                 state_ok st
                 /\ ti = roundedRunningSum (map e_interestThisMonth (simulatedMonths tl)) 0
                 /\ Forall (fun e => 0 <= e_interestThisMonth e) tl
                 /\ (forall k e,
                        nth_error tl k = Some e ->
                        e_totalInterestToDate e
                        = roundedRunningSum
                            (map e_interestThisMonth (simulatedMonths (firstn (S k) tl))) 0))
              strategy fn) with (monthsLeft := MAX_MONTHS) (month := 1%nat)
                                (st := initState debts) (ti := 0) (tl := @nil TimelineEntry)
    as (month' & st' & ti' & tl' & (Hok & Ht & Hn & Hk) & _ & Hr).
  - intros month st ti tl (Hok & Ht & Hn & Hk) _ _.
    destruct (simulateMonth_fields strategy month (fn month) st ti)
      as (_ & E2 & _ & E4 & _ & E6 & E7 & _).
    rewrite monthPayments_unfold in E2, E6, E7. cbn [fst snd] in E2, E6, E7.
    assert (Hsum : round2 (ti + snd (accrueInterest st 0))
                   = roundedRunningSum
                       (map e_interestThisMonth
                            (simulatedMonths
                               (tl ++ [snd (simulateMonth strategy month (fn month) st ti)])))
                       0).
    { rewrite simulatedMonths_app, E4, map_app. cbn [map].
      rewrite runningSum_app, E6, <- Ht. reflexivity. }
    split; [apply simulateMonth_ok; exact Hok|].
    split; [rewrite E2; exact Hsum|].
    split.
    + apply Forall_app. split; [exact Hn|]. constructor; [|constructor].
      rewrite E6. apply accrueInterest_nonneg; [exact Hok | apply Qle_refl].
    + apply (running_totals_app ti); [exact Hk|]. rewrite E7. exact Hsum.
  - split; [apply initState_ok|]. split; [reflexivity|]. split; [constructor|].
    intros k e Hke. destruct k; discriminate.
  - destruct Hr as [[E _] | [E _]]; rewrite E; cbn [fst snd].
    + split; [exact Ht|]. split; [exact Hn | exact Hk].
    + assert (Hsum : ti'
                     = roundedRunningSum
                         (map e_interestThisMonth
                              (simulatedMonths
                                 (tl' ++ [invalidEntry month' (fn month') st' ti'])))
                         0).
      { rewrite simulatedMonths_app. cbn [invalidEntry e_invalid]. exact Ht. }
      split; [exact Hsum|]. split.
      * apply Forall_app. split; [exact Hn|]. constructor; [cbn; lra | constructor].
      * apply (running_totals_app ti'); [exact Hk | exact Hsum].
Qed.

Lemma Qsum_cons (x : Q) (l : list Q) : Qsum (x :: l) = x + Qsum l.
Proof. reflexivity. Qed.

Lemma cents_small (b : Q) : is_cents b -> 0 <= b -> b <= EPS -> b == 0.
Proof.
  intros [z Hz] H0 H1. rewrite Hz in *. unfold EPS, Qle, Qeq in *.
  cbn [Qnum Qden] in *. lia.
Qed.

Lemma fold_balances (l : list SimDebt) :
  Forall (fun d => 0 <= s_balance d) l ->
  forall acc,
    fold_left (fun sum d => sum + Qmax 0 (s_balance d)) l acc == acc + balanceSum l.
Proof.
  unfold balanceSum. induction 1 as [|d l Hd _ IH]; intros acc; cbn [fold_left map].
  - cbn. lra.
  - rewrite IH, Qsum_cons. rewrite (Q.max_r 0 (s_balance d)) by exact Hd. lra.
Qed.

Lemma balanceSum_cents (l : list SimDebt) :
  state_ok l -> is_cents (balanceSum l) /\ 0 <= balanceSum l.
Proof.
  unfold balanceSum. induction 1 as [|d l (Hc & H0 & _) _ [IH1 IH2]]; cbn [map].
  - split; [apply is_cents_0 | cbn; lra].
  - rewrite Qsum_cons. split; [apply is_cents_plus; assumption | lra].
Qed.

(** The total remaining of a state is the sum of its balances. *)
Lemma totalRemainingOf_sum (st : list SimDebt) :
  state_ok st -> totalRemainingOf st == balanceSum st.
Proof.
  intros H. unfold totalRemainingOf.
  assert (Hn : Forall (fun d => 0 <= s_balance d) st).
  { eapply Forall_impl; [|exact H]. intros d Hd. apply Hd. }
  rewrite (round2_proper _ (balanceSum st)).
  - apply round2_cents. apply balanceSum_cents. exact H.
  - rewrite (fold_balances st Hn 0). lra.
Qed.

Lemma allPaid_zero (st : list SimDebt) :
  state_ok st -> allPaid st = true ->
  Forall (fun d => s_balance d == 0) st /\ balanceSum st == 0.
Proof.
  unfold allPaid, balanceSum. induction 1 as [|d l (Hc & H0 & _) _ IH]; cbn [forallb map].
  - intros _. split; [constructor | cbn; lra].
  - intros Hp. apply andb_true_iff in Hp. destruct Hp as [Hd Hl].
    destruct (IH Hl) as [IH1 IH2]. apply Qleb_true in Hd.
    pose proof (cents_small _ Hc H0 Hd) as Hz.
    split; [constructor; assumption|]. rewrite Qsum_cons, Hz, IH2. lra.
Qed.

(** X18: when a run ends with every debt paid, no balance is above zero,
    and the last entry of its timeline, if there is one, is a simulated month
    (not an invalid one) that reports a total remaining of zero. *)
Theorem debt_free_means_zero strategy (debts : list Debt) fn :
  let final := fst (fst (runMonths strategy debts fn)) in
  let timeline := r_timeline (simulateStrategy strategy debts fn) in
  allPaid final = true ->
  Forall (fun d => s_balance d <= 0) final
  /\ (timeline = []
      \/ exists entries e,
          timeline = entries ++ [e]
          /\ e_invalid e = false /\ e_totalRemaining e == 0).
Proof.
  cbv zeta. destruct (simulateStrategy_fields strategy debts fn) as (-> & _).
  unfold runMonths.
  destruct (simLoop_inv
              (fun (month : nat) st (ti : Q) tl =>
                 state_ok st
                 /\ (tl = [] \/ exists entries e,
                        tl = entries ++ [e] /\ e_invalid e = false
                        /\ e_totalRemaining e = totalRemainingOf st))
              strategy fn) with (monthsLeft := MAX_MONTHS) (month := 1%nat)
                                (st := initState debts) (ti := 0) (tl := @nil TimelineEntry)
    as (month' & st' & ti' & tl' & (Hok & Hl) & _ & Hr).
  - intros month st ti tl (Hok & _) _ _.
    split; [apply simulateMonth_ok; exact Hok|]. right.
    destruct (simulateMonth_fields strategy month (fn month) st ti)
      as (E1 & _ & _ & E4 & _ & _ & _ & _ & _ & _ & E11).
    eexists _, _. split; [reflexivity|]. split; [exact E4|]. rewrite E11, E1. reflexivity.
  - split; [apply initState_ok | left; reflexivity].
  - destruct Hr as [[E _] | (E & Hf & _)]; rewrite E; cbn [fst snd]; intros Hp;
      [|congruence].
    destruct (allPaid_zero st' Hok Hp) as [Hz Hs]. split.
    { eapply Forall_impl; [|exact Hz]. intros d Hd. cbn beta in Hd. rewrite Hd.
      apply Qle_refl. }
    destruct Hl as [-> | (entries & e & -> & Hi & Ht)]; [left; reflexivity|].
    right. exists entries, e. split; [reflexivity|]. split; [exact Hi|].
    rewrite Ht, (totalRemainingOf_sum st' Hok). exact Hs.
Qed.

Lemma debt_free_means_zero_witness :
  let final := fst (fst (runMonths "snowball" scenarioA pay1500)) in
  let timeline := r_timeline (simulateStrategy "snowball" scenarioA pay1500) in
  Forall (fun d => s_balance d <= 0) final
  /\ (timeline = []
      \/ exists entries e,
          timeline = entries ++ [e]
          /\ e_invalid e = false /\ e_totalRemaining e == 0).
Proof.
  apply (debt_free_means_zero "snowball" scenarioA pay1500).
  vm_compute. reflexivity.
Defined.

(** ** The reality check and the strategy comparator *)

(** X21: the reality check is consistent.  The state is "at risk" exactly
    when the risk flag is set; without risk there is an income, it covers
    the bills, no shortfall is reported and a schedule's first month is
    within budget; "optimizing" needs a buffer over 1500 and free cash over
    2000, "tight" a buffer under 200, and "stable" is what is left. *)
Theorem reality_state_consistent (activeDebtsLength : nat)
    (income expenses freeCash minimums : Q) (paymentMode : string)
    (firstMonthOverBudget : bool) (firstMonthPayment : Q) :
  let r := reality activeDebtsLength income expenses freeCash minimums paymentMode
                   firstMonthOverBudget firstMonthPayment in
  (re_isAtRisk r = true <-> re_state r = AtRisk)
  /\ (re_isAtRisk r = false ->
      0 < income /\ expenses <= income
      /\ re_shortfallBills r == 0 /\ re_shortfallMinimums r == 0
      /\ re_shortfallMonth1 r == 0
      /\ (paymentMode = "schedule"%string -> firstMonthOverBudget = false))
  /\ (re_state r = Optimizing -> 1500 < freeCash - minimums /\ 2000 < freeCash)
  /\ (re_state r = Tight -> freeCash - minimums < 200)
  /\ (re_state r = Stable ->
      200 <= freeCash - minimums
      /\ (freeCash - minimums <= 1500 \/ freeCash <= 2000))
  /\ 0 <= re_shortfallBills r /\ 0 <= re_shortfallMinimums r
  /\ 0 <= re_shortfallMonth1 r.
Proof.
  cbv zeta. unfold reality.
  cbn [re_isAtRisk re_state re_shortfallBills re_shortfallMinimums re_shortfallMonth1].
  destruct (String.eqb paymentMode "schedule") eqn:Em.
  - destruct (Nat.ltb 0 activeDebtsLength), firstMonthOverBudget;
      destruct (Qleb income 0) eqn:E1, (Qltb income expenses) eqn:E2;
      try destruct (Qltb freeCash minimums) eqn:E3;
      try destruct (Qltb firstMonthPayment minimums) eqn:E4;
      cbn [orb andb];
      destruct (Qltb (freeCash - minimums) 200) eqn:E5,
               (Qltb 1500 (freeCash - minimums)) eqn:E6,
               (Qltb 2000 freeCash) eqn:E7;
      cbn [orb andb]; qbool;
      repeat split; intros; try discriminate; try reflexivity; try lra;
      try (qminmax; lra); try (left; lra); try (right; lra).
  - assert (Hm : paymentMode <> "schedule"%string)
      by (intros ->; rewrite String.eqb_refl in Em; discriminate).
    destruct (Nat.ltb 0 activeDebtsLength);
      destruct (Qleb income 0) eqn:E1, (Qltb income expenses) eqn:E2;
      try destruct (Qltb freeCash minimums) eqn:E3;
      try destruct (Qltb firstMonthPayment minimums) eqn:E4;
      cbn [orb andb];
      destruct (Qltb (freeCash - minimums) 200) eqn:E5,
               (Qltb 1500 (freeCash - minimums)) eqn:E6,
               (Qltb 2000 freeCash) eqn:E7;
      cbn [orb andb]; qbool;
      repeat split; intros; try discriminate; try reflexivity; try congruence; try lra;
      try (qminmax; lra); try (left; lra); try (right; lra).
Qed.

(** The minimums total before rounding: at least 25 for every debt that
    owes. *)
Lemma mapi_ids (l : list Debt) :
  forall s,
    map d_id (mapi_from activeDebtOf s l)
    = map (fun i => IdNum (N.of_nat i)) (seq s (List.length l)).
Proof.
  induction l as [|d l IH]; intros s; cbn [mapi_from map List.length seq]; [reflexivity|].
  rewrite IH. reflexivity.
Qed.

Lemma filter_keeps_distinct {A B : Type} (key : A -> B) (keep : A -> bool) :
  forall l : list A, NoDup (map key l) -> NoDup (map key (filter keep l)).
Proof.
  induction l as [|x l IH]; cbn [map filter]; intros H; [constructor|].
  inversion H as [|? ? Hn Hnd]; subst. destruct (keep x); [|auto].
  cbn [map]. constructor; [|auto].
  intros Hin. apply Hn. apply in_map_iff in Hin. destruct Hin as (y & Ey & Hy).
  apply filter_In in Hy. rewrite <- Ey. apply in_map. apply Hy.
Qed.

Lemma NoDup_map_injective {A B : Type} (f : A -> B) (l : list A) :
  (forall a b, f a = f b -> a = b) -> NoDup l -> NoDup (map f l).
Proof.
  intros Hf. induction 1 as [|x l Hn _ IH]; cbn [map]; constructor; [|exact IH].
  intros Hin. apply in_map_iff in Hin. destruct Hin as (y & Ey & Hy).
  apply Hf in Ey. subst. contradiction.
Qed.

Lemma N_toString_injective (n m : N) : N_toString n = N_toString m -> n = m.
Proof.
  intros H. destruct (N_toString_bytes n) as (_ & _ & Hn).
  destruct (N_toString_bytes m) as (_ & _ & Hm). rewrite H in Hn. congruence.
Qed.

(** X23: [activeDebts] holds exactly the debts with a positive balance, each
    under its position in the debt list as id: every active debt is the
    object made of a debt with a positive balance at its index, and every
    such debt has its object among the active debts; the ids are numbers,
    distinct, and so are the property keys made of them (for a debt list of
    at most 2^32 debts, as long as an array can be, they are ids as
    [numericIds] names them); an active debt has a positive balance, a
    non-negative APR and no [minimum_payment]. *)
Theorem activeDebts_ids_and_balances (debts : list Debt) :
  let active := activeDebts debts in
  NoDup (map d_id active) /\ NoDup (map debtKey active)
  /\ ((Z.of_nat (List.length debts) <= 2 ^ 32)%Z -> numericIds active)
  /\ ~ In IdUndefined (map d_id active)
  /\ Forall (fun d =>
               exists idx d0,
                 nth_error debts idx = Some d0
                 /\ d = activeDebtOf idx (debtWithMin d0)
                 /\ d_id d = IdNum (N.of_nat idx)
                 /\ d_balance d = Some (Qmax 0 (clampNumber (d_balance d0) 0))
                 /\ 0 < clampNumber (d_balance d0) 0
                 /\ d_interest_rate d = Some (Qmax 0 (clampNumber (d_interest_rate d0) 0))
                 /\ d_minimum_payment d = None)
            active
  /\ (forall idx d0,
         nth_error debts idx = Some d0 -> 0 < clampNumber (d_balance d0) 0 ->
         In (activeDebtOf idx (debtWithMin d0)) active)
  /\ (List.length active <= List.length debts)%nat.
Proof.
  cbv zeta.
  assert (Hall : Forall (fun d =>
               exists idx d0,
                 nth_error debts idx = Some d0
                 /\ d = activeDebtOf idx (debtWithMin d0)
                 /\ d_id d = IdNum (N.of_nat idx)
                 /\ d_balance d = Some (Qmax 0 (clampNumber (d_balance d0) 0))
                 /\ 0 < clampNumber (d_balance d0) 0
                 /\ d_interest_rate d = Some (Qmax 0 (clampNumber (d_interest_rate d0) 0))
                 /\ d_minimum_payment d = None)
            (activeDebts debts)).
  { apply Forall_forall. intros d Hd. apply activeDebts_In in Hd.
    destruct Hd as (idx & d0 & Hn & -> & Hb). exists idx, d0.
    cbn [activeDebtOf debtWithMin d_id d_balance d_interest_rate d_minimum_payment
         clampNumber] in *.
    split; [exact Hn|]. split; [reflexivity|]. split; [reflexivity|].
    assert (Hp : 0 < clampNumber (d_balance d0) 0) by (revert Hb; qminmax; lra).
    split; [reflexivity|]. split; [exact Hp | split; reflexivity]. }
  assert (Hseq : NoDup (map d_id (activeDebts debts))).
  { unfold activeDebts. apply filter_keeps_distinct. rewrite mapi_ids.
    apply NoDup_map_injective; [|apply seq_NoDup].
    intros i j E. inversion E. lia. }
  assert (Hkeys : NoDup (map debtKey (activeDebts debts))).
  { unfold activeDebts. apply filter_keeps_distinct.
    change (map debtKey) with (map (fun d => propertyKey (d_id d))).
    rewrite <- (map_map d_id propertyKey), mapi_ids, map_map.
    apply NoDup_map_injective; [|apply seq_NoDup].
    intros i j E. cbn [propertyKey] in E. apply N_toString_injective in E. lia. }
  split; [exact Hseq|]. split; [exact Hkeys|]. split; [|split; [|split; [|split]]].
  - intros Hlen. eapply Forall_impl; [|exact Hall]. cbn beta.
    intros d (idx & d0 & Hn & _ & Hid & _). exists (N.of_nat idx). split; [exact Hid|].
    assert (Hi : (idx < List.length debts)%nat)
      by (apply nth_error_Some; rewrite Hn; discriminate).
    change (2 ^ 53)%N with 9007199254740992%N.
    change (2 ^ 32)%Z with 4294967296%Z in Hlen. lia.
  - intros Hin. apply in_map_iff in Hin. destruct Hin as (d & Hid & Hd).
    rewrite Forall_forall in Hall. destruct (Hall d Hd) as (idx & d0 & _ & _ & Hid' & _).
    congruence.
  - exact Hall.
  - intros idx d0 Hn Hb. unfold activeDebts. apply filter_In. split.
    + apply (nth_error_In _ idx). rewrite mapi_from_nth. cbn [Nat.add].
      unfold debtsWithMin. rewrite nth_error_map, Hn. reflexivity.
    + unfold activeDebtOf, debtWithMin. cbn [d_balance clampNumber].
      apply Qltb_true. qminmax; lra.
  - unfold activeDebts. eapply Nat.le_trans; [apply filter_length_le|].
    clear. unfold debtsWithMin. generalize 0%nat.
    induction debts as [|d debts IH]; intros s; cbn [map mapi_from List.length]; [lia|].
    specialize (IH (S s)). lia.
Qed.

(** X24: [pickWinner] names the strategy that is no worse on the chosen
    goal: fewer or equally many months for "speed", less or equal total
    interest for "interest"; a tie goes to snowball, and so does every other
    goal. *)
Theorem pickWinner_picks_best (goal : string) (snow aval : StrategyResult) :
  let w := pickWinner goal snow aval in
  (w = "snowball"%string \/ w = "avalanche"%string)
  /\ (goal = "speed"%string ->
      (r_monthsToDebtFree (winnerOf w snow aval)
       <= r_monthsToDebtFree (loserOf w snow aval))%nat
      /\ (r_monthsToDebtFree snow = r_monthsToDebtFree aval -> w = "snowball"%string))
  /\ (goal = "interest"%string ->
      r_totalInterest (winnerOf w snow aval) <= r_totalInterest (loserOf w snow aval)
      /\ (r_totalInterest snow == r_totalInterest aval -> w = "snowball"%string))
  /\ (goal <> "speed"%string -> goal <> "interest"%string -> w = "snowball"%string).
Proof.
  cbv zeta. unfold pickWinner, winnerOf, loserOf.
  destruct (String.eqb goal "speed") eqn:Es.
  - apply String.eqb_eq in Es. subst goal.
    destruct (Nat.leb (r_monthsToDebtFree snow) (r_monthsToDebtFree aval)) eqn:El;
      [apply Nat.leb_le in El | apply Nat.leb_gt in El]; cbn;
      repeat split; intros; auto; try discriminate; try congruence; try lia.
  - apply String.eqb_neq in Es. destruct (String.eqb goal "interest") eqn:Ei.
    + apply String.eqb_eq in Ei. subst goal.
      destruct (Qleb (r_totalInterest snow) (r_totalInterest aval)) eqn:El; qbool; cbn;
        repeat split; intros; auto; try discriminate; try congruence; try lra.
    + apply String.eqb_neq in Ei. cbn.
      repeat split; intros; auto; try congruence.
Qed.

(** The first month of a run is invalid only if its plan is over budget. *)
Lemma first_entry_valid strategy (debts : list Debt) fn :
  planOverBudget (fn 1%nat) = false ->
  firstInvalid (simulateStrategy strategy debts fn) = false.
Proof.
  intros Ho. unfold firstInvalid.
  destruct (simulateStrategy_fields strategy debts fn) as (-> & _).
  unfold runMonths. change MAX_MONTHS with (S 599). rewrite simLoop_S, Ho.
  destruct (allPaid (initState debts)); [reflexivity|].
  destruct (simLoop_timeline strategy fn 599 2
              (fst (fst (simulateMonth strategy 1 (fn 1%nat) (initState debts) 0)))
              (snd (fst (simulateMonth strategy 1 (fn 1%nat) (initState debts) 0)))
              ([] ++ [snd (simulateMonth strategy 1 (fn 1%nat) (initState debts) 0)]))
    as (suffix & E & _).
  rewrite E. cbn [app].
  apply (simulateMonth_fields strategy 1 (fn 1%nat) (initState debts) 0).
Qed.

Lemma notAtRisk_month1 (a : AppInputs) :
  re_isAtRisk (appReality a) = false -> planOverBudget (appPlanFn a 1%nat) = false.
Proof.
  unfold appReality, reality. cbn [re_isAtRisk]. fold (appMpFixed a). fold (appPlanFn a).
  intros H. repeat (apply orb_false_iff in H; destruct H as [H ?]).
  destruct (String.eqb (in_paymentMode a) "schedule") eqn:Em; [assumption|].
  unfold appPlanFn, getPaymentPlanFn. rewrite Em. reflexivity.
Qed.

(** X25: the strategy comparison is available exactly when the plan is not
    at risk and at least two debts are active: after the reality check the
    first month of either run cannot be invalid.  When it is available it
    holds the two runs, the winner [pickWinner] names, and a months
    difference that is zero exactly when both runs take equally long. *)
Theorem comparison_available (a : AppInputs) (goal : string) :
  (appSimulation a goal = None
   <-> re_isAtRisk (appReality a) = true
       \/ (List.length (activeDebts (in_debts a)) < 2)%nat)
  /\ forall s,
      appSimulation a goal = Some s ->
      sim_snow s = simulateStrategy "snowball" (activeDebts (in_debts a)) (appPlanFn a)
      /\ sim_aval s = simulateStrategy "avalanche" (activeDebts (in_debts a)) (appPlanFn a)
      /\ sim_winner s = pickWinner goal (sim_snow s) (sim_aval s)
      /\ firstInvalid (sim_snow s) = false /\ firstInvalid (sim_aval s) = false
      /\ (sim_monthsDiff s = 0%nat
          <-> r_monthsToDebtFree (sim_snow s) = r_monthsToDebtFree (sim_aval s)).
Proof.
  unfold appSimulation, simulation.
  destruct (re_isAtRisk (appReality a)) eqn:R.
  { split; [split; auto | discriminate]. }
  destruct (Nat.ltb (List.length (activeDebts (in_debts a))) 2) eqn:L.
  { apply Nat.ltb_lt in L. split; [split; auto | discriminate]. }
  apply Nat.ltb_ge in L. pose proof (notAtRisk_month1 a R) as Ho.
  rewrite (first_entry_valid "snowball" _ _ Ho), (first_entry_valid "avalanche" _ _ Ho).
  cbn [orb]. split.
  - split; [discriminate | intros [H | H]; [discriminate | lia]].
  - intros s Hs. inversion Hs. cbn.
    split; [reflexivity|]. split; [reflexivity|]. split; [reflexivity|].
    split; [apply (first_entry_valid "snowball" _ _ Ho)|].
    split; [apply (first_entry_valid "avalanche" _ _ Ho)|]. lia.
Qed.

Example comparison_at_risk :
  appSimulation (mkInputs storedDefaults (Some 2000) (Some 2700) (Some 1500) "fixed" [])
                "speed"
  = None.
Proof. reflexivity. Qed.

Lemma Array_at_nth {A : Type} (l : list A) (m : Z) :
  (1 <= m <= Z.of_nat (List.length l))%Z ->
  exists x, Array_at l (m - 1) = Some x /\ nth_error l (pred (Z.to_nat m)) = Some x.
Proof.
  intros Hm. unfold Array_at.
  destruct (Z.ltb (m - 1) 0) eqn:E; [apply Z.ltb_lt in E; lia|].
  replace (Z.to_nat (m - 1)) with (pred (Z.to_nat m)) by lia.
  destruct (nth_error l (pred (Z.to_nat m))) as [x|] eqn:En; [eauto|].
  apply nth_error_None in En. lia.
Qed.

Lemma timeline_nth_month strategy (debts : list Debt) fn (i : nat) (e : TimelineEntry) :
  nth_error (r_timeline (simulateStrategy strategy debts fn)) i = Some e ->
  e_month e = S i.
Proof.
  destruct (simulateStrategy_fields strategy debts fn) as [-> _].
  unfold runMonths. intros He.
  pose proof (simLoop_numbered strategy fn (initState debts)) as Hn.
  assert (Hi : (i < List.length (snd (simLoop strategy fn MAX_MONTHS 1 (initState debts) 0 [])))%nat)
    by (apply nth_error_Some; congruence).
  pose proof (map_nth_error e_month _ _ He) as Hm. rewrite Hn in Hm.
  rewrite seq_nth_error in Hm by exact Hi. inversion Hm. reflexivity.
Qed.

(** X26: the month shown in the comparison is the selected month brought
    into the range of both timelines: [max] is the length of the shorter of
    the snowball and the avalanche timeline; when both have an entry, the
    month [m] lies between 1 and [max], it is the selected month when that is
    in the range, and the two entries shown are the entries at index [m - 1]
    of the snowball and of the avalanche timeline, which are those of month
    [m].  With an empty timeline there is no entry to show. *)
Theorem monthDetails_shows_month (isAtRisk : bool) (activeDebts : list Debt)
    (paymentPlanFn : nat -> option Plan) (goal : string) (s : Simulation)
    (selectedMonth : Z) :
  simulation isAtRisk activeDebts paymentPlanFn goal = Some s ->
  let snowTimeline := r_timeline (simulateStrategy "snowball" activeDebts paymentPlanFn) in
  let avalTimeline := r_timeline (simulateStrategy "avalanche" activeDebts paymentPlanFn) in
  exists md,
    monthDetails (Some s) selectedMonth = Some md
    /\ md_max md = Z.min (Z.of_nat (List.length snowTimeline))
                         (Z.of_nat (List.length avalTimeline))
    /\ ((1 <= md_max md)%Z ->
        (1 <= md_m md <= md_max md)%Z
        /\ ((1 <= selectedMonth <= md_max md)%Z -> md_m md = selectedMonth)
        /\ exists es ea,
            md_snowMonth md = Some es /\ md_avalMonth md = Some ea
            /\ nth_error snowTimeline (pred (Z.to_nat (md_m md))) = Some es
            /\ nth_error avalTimeline (pred (Z.to_nat (md_m md))) = Some ea
            /\ Z.of_nat (e_month es) = md_m md /\ Z.of_nat (e_month ea) = md_m md)
    /\ ((md_max md <= 0)%Z -> md_snowMonth md = None \/ md_avalMonth md = None).
Proof.
  intros Hs. cbv zeta. unfold simulation in Hs.
  destruct isAtRisk; [discriminate|].
  destruct (Nat.ltb (List.length activeDebts) 2); [discriminate|].
  destruct (firstInvalid _ || firstInvalid _)%bool; [discriminate|].
  inversion Hs as [Es]. clear Hs.
  set (snow := simulateStrategy "snowball" activeDebts paymentPlanFn) in *.
  set (aval := simulateStrategy "avalanche" activeDebts paymentPlanFn) in *.
  unfold monthDetails. eexists. split; [reflexivity|].
  cbn [md_max md_m md_snowMonth md_avalMonth sim_snow sim_aval].
  set (ls := Z.of_nat (List.length (r_timeline snow))).
  set (la := Z.of_nat (List.length (r_timeline aval))).
  split; [reflexivity|]. split.
  - intros Hmax. split; [lia|]. split; [lia|].
    destruct (Array_at_nth (r_timeline snow) (Z.min (Z.max 1 selectedMonth) (Z.min ls la)))
      as (es & Hes & Hns); [fold ls; lia|].
    destruct (Array_at_nth (r_timeline aval) (Z.min (Z.max 1 selectedMonth) (Z.min ls la)))
      as (ea & Hea & Hna); [fold la; lia|].
    exists es, ea. split; [exact Hes|]. split; [exact Hea|].
    split; [exact Hns|]. split; [exact Hna|].
    apply timeline_nth_month in Hns, Hna. rewrite Hns, Hna. lia.
  - intros Hmax.
    assert (Hm : (Z.min (Z.max 1 selectedMonth) (Z.min ls la) - 1 < 0)%Z) by lia.
    unfold Array_at. apply Z.ltb_lt in Hm. rewrite Hm. left. reflexivity.
Qed.

Lemma monthDetails_shows_month_witness :
  let snowTimeline := r_timeline (simulateStrategy "snowball" scenarioA pay1500) in
  let avalTimeline := r_timeline (simulateStrategy "avalanche" scenarioA pay1500) in
  exists md,
    monthDetails (Some sampleComparison) 3 = Some md
    /\ md_max md = Z.min (Z.of_nat (List.length snowTimeline))
                         (Z.of_nat (List.length avalTimeline))
    /\ ((1 <= md_max md)%Z ->
        (1 <= md_m md <= md_max md)%Z
        /\ ((1 <= 3 <= md_max md)%Z -> md_m md = 3%Z)
        /\ exists es ea,
            md_snowMonth md = Some es /\ md_avalMonth md = Some ea
            /\ nth_error snowTimeline (pred (Z.to_nat (md_m md))) = Some es
            /\ nth_error avalTimeline (pred (Z.to_nat (md_m md))) = Some ea
            /\ Z.of_nat (e_month es) = md_m md /\ Z.of_nat (e_month ea) = md_m md)
    /\ ((md_max md <= 0)%Z -> md_snowMonth md = None \/ md_avalMonth md = None).
Proof.
  apply (monthDetails_shows_month false scenarioA pay1500 "speed" sampleComparison 3).
  vm_compute. reflexivity.
Defined.

(** Two debts of 0.001 each round to nothing: the comparison is available,
    both timelines are empty, and there is no month to show. *)
Example dust_comparison :
  option_map (fun s => (List.length (r_timeline (sim_snow s)),
                        List.length (r_timeline (sim_aval s)),
                        r_monthsToDebtFree (sim_snow s), sim_winner s))
             (appSimulation dustInputs "speed")
  = Some (0%nat, 0%nat, 0%nat, "snowball"%string)
  /\ option_map (fun md => (md_max md, md_m md, md_snowMonth md, md_avalMonth md))
                (monthDetails (appSimulation dustInputs "speed") 1)
     = Some (0%Z, 0%Z, None, None).
Proof. vm_compute. split; reflexivity. Qed.
